(** * OHLC pipeline: a shallow embedding of [main_pipeline.py]

    The pipeline fetches daily open/high/low/close/volume series, cleans
    them, adds technical indicators, validates the result and appends it to
    a relational sink.  This development embeds the stages as Rocq functions
    and proves the properties the specification states about them.

    Conventions of the embedding.
    - A numeric value is an exact rational; the missing marker (pandas'
      not-a-number) is [None].  Rounding and infinities of binary floating
      point are outside the model: where pandas would produce a value that
      is not a finite number, the model produces the missing marker.
    - A frame is column-oriented, as in pandas: an index and a list of named
      columns.  A column is either numeric or of object dtype (text).
    - A function that mutates the frame it is given and returns it is
      embedded as a function to the frame's final state.
    - Python exceptions are values of [exn]; a computation that may raise
      returns an [outcome]. *)

From Stdlib Require Import String Ascii DecimalString.
From Stdlib Require Import ZArith QArith Qround Lia Lqa Bool Arith List.
From Stdlib Require Import Permutation.
Import ListNotations.

Set Implicit Arguments.

Open Scope string_scope.
Open Scope list_scope.
Open Scope Q_scope.

(** ** Exceptions *)

Inductive exn : Type :=
| AssertionError (msg : string)
| KeyError (key : string)
| TypeError
| AttributeError
| SqliteError
| ProviderError
| OSError.

Inductive outcome (A : Type) : Type :=
| Ret (a : A)
| Raise (e : exn).

Arguments Ret {A} a.
Arguments Raise {A} e.

Definition obind {A B : Type} (c : outcome A) (k : A -> outcome B) : outcome B :=
  match c with
  | Ret a => k a
  | Raise e => Raise e
  end.

Notation "'let!' x ':=' c 'in' k" := (obind c (fun x => k))
  (at level 10, x name, c at level 100, k at level 200).

(** ** Numeric cells *)

Abbreviation cell := (option Q).
Definition NaN : cell := None.

Definition Qlt_bool (x y : Q) : bool := negb (Qle_bool y x).

Definition is_some {A : Type} (o : option A) : bool :=
  match o with Some _ => true | None => false end.

(** Element-wise arithmetic: a missing operand gives a missing result. *)
Definition cell_map2 (f : Q -> Q -> Q) (x y : cell) : cell :=
  match x, y with
  | Some a, Some b => Some (f a b)
  | _, _ => None
  end.

Definition cell_add : cell -> cell -> cell := cell_map2 Qplus.
Definition cell_sub : cell -> cell -> cell := cell_map2 Qminus.
Definition cell_mul : cell -> cell -> cell := cell_map2 Qmult.

(** Division: a zero divisor gives no finite number. *)
Definition cell_div (x y : cell) : cell :=
  match x, y with
  | Some a, Some b => if Qeq_bool b 0 then None else Some (a / b)
  | _, _ => None
  end.

Definition cell_opp (x : cell) : cell := option_map Qopp x.

(** Comparisons with a scalar: false on the missing marker. *)
Definition cell_gt (x : cell) (c : Q) : bool :=
  match x with Some a => Qlt_bool c a | None => false end.
Definition cell_lt (x : cell) (c : Q) : bool :=
  match x with Some a => Qlt_bool a c | None => false end.
Definition cell_ne (x : cell) (c : Q) : bool :=
  match x with Some a => negb (Qeq_bool a c) | None => true end.

(** [Series.where cond other]: keep the value where the condition holds. *)
Definition where_ (cond : cell -> bool) (other : cell) (xs : list cell) : list cell :=
  map (fun x => if cond x then x else other) xs.

(** [np.where cond value xs]: replace the value where the condition holds. *)
Definition np_where (cond : cell -> bool) (value : cell) (xs : list cell) : list cell :=
  map (fun x => if cond x then value else x) xs.

(** The values of a series that are present. *)
Definition valid (xs : list cell) : list Q :=
  flat_map (fun x => match x with Some q => [q] | None => [] end) xs.

Definition Qsum (qs : list Q) : Q := fold_right Qplus 0 qs.
Definition Qofnat (n : nat) : Q := inject_Z (Z.of_nat n).

(** ** Filling *)

Fixpoint ffill_from {A : Type} (last : option A) (xs : list (option A)) : list (option A) :=
  match xs with
  | [] => []
  | x :: rest =>
      let v := match x with Some _ => x | None => last end in
      v :: ffill_from v rest
  end.

Definition ffill {A : Type} (xs : list (option A)) : list (option A) :=
  ffill_from None xs.

Fixpoint bfill {A : Type} (xs : list (option A)) : list (option A) :=
  match xs with
  | [] => []
  | x :: rest =>
      let rest' := bfill rest in
      match x with Some _ => x | None => hd None rest' end :: rest'
  end.

(** ** Sorting and row selection *)

Fixpoint insert_by {A : Type} (leb : A -> A -> bool) (x : A) (l : list A) : list A :=
  match l with
  | [] => [x]
  | y :: rest => if leb x y then x :: l else y :: insert_by leb x rest
  end.

Definition sort_by {A : Type} (leb : A -> A -> bool) (l : list A) : list A :=
  fold_right (insert_by leb) [] l.

(** The positions of the keys in ascending order; equal keys keep their
    order. *)
Definition key_leb {A : Type} (leb : A -> A -> bool) (a b : A * nat) : bool :=
  leb (fst a) (fst b).

Definition sort_positions {A : Type} (leb : A -> A -> bool) (keys : list A) : list nat :=
  map snd (sort_by (key_leb leb) (combine keys (seq 0 (length keys)))).

Definition take_rows {A : Type} (d : A) (positions : list nat) (xs : list A) : list A :=
  map (fun p => nth p xs d) positions.

Fixpoint keep_rows {A : Type} (mask : list bool) (xs : list A) : list A :=
  match mask, xs with
  | b :: mask', x :: rest =>
      if b then x :: keep_rows mask' rest else keep_rows mask' rest
  | _, _ => []
  end.

(** ** Quantiles

    [Series.quantile q] with linear interpolation over the present values,
    missing when there is none. *)
Definition quantile (q : Q) (xs : list cell) : cell :=
  let s := sort_by Qle_bool (valid xs) in
  match s with
  | [] => None
  | x0 :: _ =>
      let pos := Qofnat (length s - 1) * q in
      let lo := Z.to_nat (Qfloor pos) in
      let frac := pos - inject_Z (Qfloor pos) in
      let v_lo := nth lo s x0 in
      let v_hi := nth (S lo) s v_lo in
      Some (v_lo + (v_hi - v_lo) * frac)
  end.

(** ** Frames *)

Record date : Type := { year : Z; month : Z; day : Z }.

Definition date_leb (a b : date) : bool :=
  (year a <? year b)%Z
  || ((year a =? year b)%Z
      && ((month a <? month b)%Z
          || ((month a =? month b)%Z && (day a <=? day b)%Z))).

Inductive index_t : Type :=
| DatetimeIndex (dates : list date)
| PlainIndex (keys : list Z).

Inductive column : Type :=
| NumCol (vals : list cell)
| ObjCol (vals : list (option string)).

Record DataFrame : Type := {
  index : index_t;
  columns : list (string * column)
}.

(** [pd.DataFrame()] *)
Definition empty_frame : DataFrame :=
  {| index := PlainIndex []; columns := [] |}.

Definition index_len (ix : index_t) : nat :=
  match ix with
  | DatetimeIndex ds => length ds
  | PlainIndex ks => length ks
  end.

Definition col_len (c : column) : nat :=
  match c with
  | NumCol vs => length vs
  | ObjCol vs => length vs
  end.

(** [len(df)] *)
Definition len (df : DataFrame) : nat := index_len (index df).

(** [df.empty]: some axis has length zero. *)
Definition empty (df : DataFrame) : bool :=
  (len df =? 0)%nat || (length (columns df) =? 0)%nat.

Definition is_datetime_index (df : DataFrame) : bool :=
  match index df with DatetimeIndex _ => true | PlainIndex _ => false end.

Fixpoint lookup_col (name : string) (cols : list (string * column)) : option column :=
  match cols with
  | [] => None
  | (n, c) :: rest => if String.eqb name n then Some c else lookup_col name rest
  end.

Fixpoint assign_col (name : string) (c : column) (cols : list (string * column))
  : list (string * column) :=
  match cols with
  | [] => [(name, c)]
  | (n, c0) :: rest =>
      if String.eqb name n then (n, c) :: rest
      else (n, c0) :: assign_col name c rest
  end.

(** [df[name]] when present *)
Definition get_col (name : string) (df : DataFrame) : option column :=
  lookup_col name (columns df).

(** [name in df.columns] *)
Definition has_col (name : string) (df : DataFrame) : bool :=
  is_some (get_col name df).

(** [df[name] = c]: replaces the column in place, or appends it. *)
Definition set_col (name : string) (c : column) (df : DataFrame) : DataFrame :=
  {| index := index df; columns := assign_col name c (columns df) |}.

(** Every column is as long as the index: the shape invariant of a frame. *)
Definition well_formed (df : DataFrame) : Prop :=
  Forall (fun nc => col_len (snd nc) = len df) (columns df).

Definition well_formedb (df : DataFrame) : bool :=
  forallb (fun nc => (col_len (snd nc) =? len df)%nat) (columns df).

Definition col_map (f : forall A : Type, list (option A) -> list (option A))
  (c : column) : column :=
  match c with
  | NumCol vs => NumCol (f Q vs)
  | ObjCol vs => ObjCol (f string vs)
  end.

(** [s.ffill().bfill()] *)
Definition col_fill (c : column) : column :=
  col_map (fun A xs => bfill (ffill xs)) c.

Definition col_notna_at (c : column) (i : nat) : bool :=
  match c with
  | NumCol vs => is_some (nth i vs None)
  | ObjCol vs => is_some (nth i vs None)
  end.

Definition col_keep (mask : list bool) (c : column) : column :=
  col_map (fun A xs => keep_rows mask xs) c.

Definition col_take (positions : list nat) (c : column) : column :=
  col_map (fun A xs => take_rows None positions xs) c.

Definition index_keep (mask : list bool) (ix : index_t) : index_t :=
  match ix with
  | DatetimeIndex ds => DatetimeIndex (keep_rows mask ds)
  | PlainIndex ks => PlainIndex (keep_rows mask ks)
  end.

Definition map_cols (f : column -> column) (cols : list (string * column))
  : list (string * column) :=
  map (fun nc => (fst nc, f (snd nc))) cols.

(** [df.dropna(subset=..., how='all', inplace=True)]: a row stays when some
    column of the subset has a value in it. *)
Definition dropna_all (subset : list string) (df : DataFrame) : DataFrame :=
  let mask :=
    map (fun i =>
           existsb (fun name =>
                      match get_col name df with
                      | Some c => col_notna_at c i
                      | None => false
                      end) subset)
        (seq 0 (len df)) in
  {| index := index_keep mask (index df);
     columns := map_cols (col_keep mask) (columns df) |}.

(** [df.sort_index(inplace=True)]: rows in ascending order of the index;
    rows with equal labels keep their order, and an index that is already
    ascending leaves the frame as it is. *)
Definition sort_index (df : DataFrame) : DataFrame :=
  match index df with
  | DatetimeIndex ds =>
      let p := sort_positions date_leb ds in
      {| index := DatetimeIndex (take_rows {| year := 0; month := 0; day := 0 |} p ds);
         columns := map_cols (col_take p) (columns df) |}
  | PlainIndex ks =>
      let p := sort_positions Z.leb ks in
      {| index := PlainIndex (take_rows 0%Z p ks);
         columns := map_cols (col_take p) (columns df) |}
  end.

(** ** Cleaner: [clean_data] *)

Definition ohlcv_cols : list string :=
  ["open"; "high"; "low"; "close"; "volume"]%string.

(** The first loop of [clean_data]: fill every price/volume column. *)
Definition fill_columns (df : DataFrame) : DataFrame :=
  fold_left (fun d col =>
               match get_col col d with
               | Some c => set_col col (col_fill c) d
               | None => d
               end) ohlcv_cols df.

(** The Tukey fence [(lower_bound, upper_bound)] of a series, when the
    guard [IQR > 0] of the clipping step holds. *)
Definition fence (xs : list cell) : option (Q * Q) :=
  match quantile (1#4) xs, quantile (3#4) xs with
  | Some Q1, Some Q3 =>
      let IQR := Q3 - Q1 in
      if Qlt_bool 0 IQR
      then Some (Q1 - (3#2) * IQR, Q3 + (3#2) * IQR)
      else None
  | _, _ => None
  end.

Definition clip_values (xs : list cell) : list cell :=
  match fence xs with
  | Some (lower_bound, upper_bound) =>
      let xs1 := np_where (fun x => cell_lt x lower_bound) (Some lower_bound) xs in
      np_where (fun x => cell_gt x upper_bound) (Some upper_bound) xs1
  | None => xs
  end.

(** One round of the second loop of [clean_data]. *)
Definition clip_outliers (col : string) (df : DataFrame) : outcome DataFrame :=
  if has_col col df && (0 <? len df)%nat then
    match get_col col df with
    | Some (NumCol xs) => Ret (set_col col (NumCol (clip_values xs)) df)
    | Some (ObjCol _) => Raise TypeError
    | None => Raise (KeyError col)
    end
  else Ret df.

Definition clean_data (df : DataFrame) : outcome DataFrame :=
  if empty df then Ret df
  else
    let df := fill_columns df in
    let df := dropna_all (filter (fun col => has_col col df) ohlcv_cols) df in
    let! df := clip_outliers "close" df in
    let! df := clip_outliers "volume" df in
    Ret (sort_index df).

(** The frame as it stands at the start of the clipping step of
    [clean_data], after the fill loop and the row drop. *)
Definition fill_and_drop (df : DataFrame) : DataFrame :=
  let df := fill_columns df in
  dropna_all (filter (fun col => has_col col df) ohlcv_cols) df.

(** Equality of series up to the representation of the rationals. *)
Definition cell_eqb (x y : cell) : bool :=
  match x, y with
  | Some a, Some b => Qeq_bool a b
  | None, None => true
  | _, _ => false
  end.

Fixpoint cells_eqb (xs ys : list cell) : bool :=
  match xs, ys with
  | [], [] => true
  | x :: xs', y :: ys' => cell_eqb x y && cells_eqb xs' ys'
  | _, _ => false
  end.

(** The numeric values of a column, when there is such a column. *)
Definition num_values (name : string) (df : DataFrame) : option (list cell) :=
  match get_col name df with
  | Some (NumCol xs) => Some xs
  | _ => None
  end.

(** ** Predicates on series and frames *)

(** A series with no value, and one with no gap. *)
Definition all_none {A : Type} (xs : list (option A)) : Prop :=
  Forall (fun x => x = None) xs.
Definition all_some {A : Type} (xs : list (option A)) : Prop :=
  Forall (fun x => is_some x = true) xs.

(** Ascending for the order [leb]. *)
Fixpoint sorted {A : Type} (leb : A -> A -> bool) (l : list A) : Prop :=
  match l with
  | [] => True
  | x :: rest =>
      match rest with
      | [] => True
      | y :: _ => leb x y = true
      end /\ sorted leb rest
  end.

Definition col_all_na (c : column) : Prop :=
  match c with NumCol vs => all_none vs | ObjCol vs => all_none vs end.
Definition col_no_na (c : column) : Prop :=
  match c with NumCol vs => all_some vs | ObjCol vs => all_some vs end.
Definition col_uniform (c : column) : Prop := col_all_na c \/ col_no_na c.

Definition index_sorted (df : DataFrame) : Prop :=
  match index df with
  | DatetimeIndex ds => sorted date_leb ds
  | PlainIndex ks => sorted Z.leb ks
  end.

(** Every price/volume column is free of gaps. *)
Definition filled (df : DataFrame) : Prop :=
  forall name c, In name ohlcv_cols -> get_col name df = Some c -> col_uniform c.

(** Some price/volume column has a value in every row. *)
Definition has_full_col (df : DataFrame) : Prop :=
  exists name c, In name ohlcv_cols /\ get_col name df = Some c /\ col_no_na c.

Definition fill_step (d : DataFrame) (col : string) : DataFrame :=
  match get_col col d with
  | Some c => set_col col (col_fill c) d
  | None => d
  end.

Definition present_ohlcv (df : DataFrame) : list string :=
  filter (fun col => has_col col df) ohlcv_cols.

Definition row_mask (subset : list string) (df : DataFrame) : list bool :=
  map (fun i =>
         existsb (fun name =>
                    match get_col name df with
                    | Some c => col_notna_at c i
                    | None => false
                    end) subset)
      (seq 0 (len df)).

(** A value inside the closed interval; the missing marker counts as inside. *)
Definition in_range (lower upper : Q) (x : cell) : Prop :=
  match x with
  | Some q => lower <= q /\ q <= upper
  | None => True
  end.

(** No value of the series lies outside its own fence. *)
Definition inside_fence (xs : list cell) : Prop :=
  match fence xs with
  | Some (lower, upper) => Forall (in_range lower upper) xs
  | None => True
  end.

Definition clip_cell (lower upper : Q) (x : cell) : cell :=
  let x1 := if cell_lt x lower then Some lower else x in
  if cell_gt x1 upper then Some upper else x1.

(** A numeric column, or no column at all, under the name. *)
Definition numeric_or_absent (col : string) (df : DataFrame) : Prop :=
  match get_col col df with
  | Some (ObjCol _) => False
  | _ => True
  end.

Definition index_positions (df : DataFrame) : list nat :=
  match index df with
  | DatetimeIndex ds => sort_positions date_leb ds
  | PlainIndex ks => sort_positions Z.leb ks
  end.

(** What a pass of [clean_data] leaves behind. *)
Record cleaned (df : DataFrame) : Prop := {
  cleaned_shape : well_formed df;
  cleaned_filled : filled df;
  cleaned_full : has_full_col df;
  cleaned_sorted : index_sorted df;
  cleaned_close : numeric_or_absent "close" df;
  cleaned_volume : numeric_or_absent "volume" df
}.

(** ** Series operations of the feature engineer *)

Fixpoint zip_with {A B C : Type} (f : A -> B -> C) (xs : list A) (ys : list B) : list C :=
  match xs, ys with
  | x :: xs', y :: ys' => f x y :: zip_with f xs' ys'
  | _, _ => []
  end.

(** The trailing window of at most [w] observations that ends at row [i]. *)
Definition window {A : Type} (w i : nat) (xs : list A) : list A :=
  let start := (S i - w)%nat in
  firstn (S i - start) (skipn start xs).

(** [s.rolling(window=w, min_periods=1)] followed by an aggregation. *)
Definition rolling {A B : Type} (w : nat) (agg : list A -> B) (xs : list A) : list B :=
  map (fun i => agg (window w i xs)) (seq 0 (length xs)).

(** Mean of the present values of a window, missing when there is none. *)
Definition mean (xs : list cell) : cell :=
  match valid xs with
  | [] => None
  | _ :: _ => Some (Qsum (valid xs) / Qofnat (length (valid xs)))
  end.

(** [s.diff()] *)
Definition diff (xs : list cell) : list cell :=
  match xs with
  | [] => []
  | _ :: rest => None :: zip_with cell_sub rest xs
  end.

(** [s.pct_change()]: gaps are forward-filled first, as pandas 1.x and 2.x
    do by default. *)
Definition pct_change (xs : list cell) : list cell :=
  let data := ffill xs in
  match data with
  | [] => []
  | _ :: rest =>
      None :: zip_with (fun cur prev => cell_sub (cell_div cur prev) (Some 1)) rest data
  end.

(** [s.ewm(span=span, adjust=False).mean()], the recursion of pandas' kernel:
    [weighted] is the running average and [old_wt] the weight it carries,
    which decays over gaps. *)
Fixpoint ewm_from (alpha : Q) (weighted : cell) (old_wt : Q) (xs : list cell) : list cell :=
  match xs with
  | [] => []
  | cur :: rest =>
      match weighted with
      | Some w =>
          let old_wt := old_wt * (1 - alpha) in
          match cur with
          | Some c =>
              let w' := if Qeq_bool w c then w
                        else (old_wt * w + alpha * c) / (old_wt + alpha) in
              Some w' :: ewm_from alpha (Some w') 1 rest
          | None => Some w :: ewm_from alpha (Some w) old_wt rest
          end
      | None => cur :: ewm_from alpha cur old_wt rest
      end
  end.

Definition ewm_mean (span : Q) (xs : list cell) : list cell :=
  match xs with
  | [] => []
  | x0 :: rest => x0 :: ewm_from (2 / (span + 1)) x0 1 rest
  end.

(** The relative strength index over 14 periods, as [transform_data]
    computes it from the close series. *)
Definition rsi (close : list cell) : list cell :=
  let delta := diff close in
  let gain := rolling 14 mean (where_ (fun d => cell_gt d 0) (Some 0) delta) in
  let loss := rolling 14 mean
                (map cell_opp (where_ (fun d => cell_lt d 0) (Some 0) delta)) in
  let RS := zip_with cell_div gain (where_ (fun l => cell_ne l 0) NaN loss) in
  map (fun rs => cell_sub (Some 100) (cell_div (Some 100) (cell_add (Some 1) rs))) RS.

(** The numeric values of [df[name]]. *)
Definition numeric (name : string) (df : DataFrame) : outcome (list cell) :=
  match get_col name df with
  | Some (NumCol xs) => Ret xs
  | Some (ObjCol _) => Raise TypeError
  | None => Raise (KeyError name)
  end.

Section FeatureEngineer.

(** The square root of the numeric library, on the rationals. *)
Variable sqrtQ : Q -> Q.

(** Sample standard deviation of the present values of a window, missing
    with fewer than two of them. *)
Definition std (xs : list cell) : cell :=
  let vs := valid xs in
  if (length vs <? 2)%nat then None
  else
    let m := Qsum vs / Qofnat (length vs) in
    Some (sqrtQ (Qsum (map (fun v => (v - m) * (v - m)) vs)
                 / Qofnat (length vs - 1))).

(** ** Feature engineer: [transform_data] *)
Definition transform_data (df : DataFrame) : outcome DataFrame :=
  if empty df then Ret df
  else if negb (has_col "close" df) then Ret df
  else
    let! close := numeric "close" df in
    let n := len df in
    let df := if (10 <=? n)%nat
              then set_col "SMA_10" (NumCol (rolling 10 mean close)) df else df in
    let df := if (50 <=? n)%nat
              then set_col "SMA_50" (NumCol (rolling 50 mean close)) df else df in
    let df := if (10 <=? n)%nat
              then set_col "EMA_10" (NumCol (ewm_mean 10 close)) df else df in
    let df := if (50 <=? n)%nat
              then set_col "EMA_50" (NumCol (ewm_mean 50 close)) df else df in
    let df := if (20 <=? n)%nat
              then
                let BB_Middle := rolling 20 mean close in
                let BB_StdDev := rolling 20 std close in
                let band := map (fun x => cell_mul x (Some 2)) BB_StdDev in
                let df := set_col "BB_Middle" (NumCol BB_Middle) df in
                let df := set_col "BB_StdDev" (NumCol BB_StdDev) df in
                let df := set_col "BB_Upper" (NumCol (zip_with cell_add BB_Middle band)) df in
                set_col "BB_Lower" (NumCol (zip_with cell_sub BB_Middle band)) df
              else df in
    let df := if (14 <=? n)%nat
              then set_col "RSI" (NumCol (rsi close)) df else df in
    let Daily_Return := pct_change close in
    let df := set_col "Daily_Return" (NumCol Daily_Return) df in
    let df := if (20 <=? n)%nat
              then set_col "Volatility_20D"
                     (NumCol (map (fun x => cell_mul x (Some (sqrtQ 252)))
                                  (rolling 20 std Daily_Return))) df
              else df in
    if has_col "open" df then
      let! open := numeric "open" df in
      Ret (set_col "Close_Open_Diff" (NumCol (zip_with cell_sub close open)) df)
    else Ret df.

End FeatureEngineer.

(** *** The RSI in the words of the specification

    At observation [i], over the trailing window of at most 14 observations:
    gain is the mean of the positive one-step close deltas, loss the mean of
    the negated negative ones (a delta that is not of that sign, or is
    undefined, counts as zero), and RSI = 100 - 100 / (1 + gain / loss),
    missing when loss is zero. *)
Definition spec_delta (close : list cell) (j : nat) : cell :=
  match j with
  | O => None
  | S k => cell_sub (nth j close None) (nth k close None)
  end.

Definition spec_gain_term (close : list cell) (j : nat) : Q :=
  match spec_delta close j with
  | Some d => if Qlt_bool 0 d then d else 0
  | None => 0
  end.

Definition spec_loss_term (close : list cell) (j : nat) : Q :=
  match spec_delta close j with
  | Some d => if Qlt_bool d 0 then - d else 0
  | None => 0
  end.

Definition spec_rolling_mean (term : nat -> Q) (i : nat) : Q :=
  let start := (S i - 14)%nat in
  let count := (S i - start)%nat in
  Qsum (map term (seq start count)) / Qofnat count.

Definition spec_rsi (close : list cell) (i : nat) : cell :=
  let gain := spec_rolling_mean (spec_gain_term close) i in
  let loss := spec_rolling_mean (spec_loss_term close) i in
  if Qeq_bool loss 0 then None
  else Some (100 - 100 / (1 + gain / loss)).

(** The indicators of the gating property, each with its minimum length. *)
Definition gated_indicators : list (string * nat) :=
  [("SMA_50", 50); ("EMA_50", 50);
   ("BB_Middle", 20); ("BB_StdDev", 20); ("BB_Upper", 20); ("BB_Lower", 20);
   ("RSI", 14); ("Volatility_20D", 20)]%nat.

(** ** Computations on a frame object

    A function that receives a frame may read it, assign to it and raise:
    it maps the state of the object to a result and the state the object is
    left in. *)
Definition Frame (A : Type) : Type := DataFrame -> outcome A * DataFrame.

Definition fret {A : Type} (a : A) : Frame A := fun df => (Ret a, df).

Definition fbind {A B : Type} (c : Frame A) (k : A -> Frame B) : Frame B :=
  fun df =>
    match c df with
    | (Ret a, df') => k a df'
    | (Raise e, df') => (Raise e, df')
    end.

Notation "'do!' x ':=' c 'in' k" := (fbind c (fun x => k))
  (at level 10, x name, c at level 100, k at level 200).
Notation "c ';;' k" := (fbind c (fun _ => k))
  (at level 61, right associativity).

(** Read the object without changing it. *)
Definition fread {A : Type} (f : DataFrame -> A) : Frame A :=
  fun df => (Ret (f df), df).

(** [df[name] = c] *)
Definition fassign (name : string) (c : column) : Frame unit :=
  fun df => (Ret tt, set_col name c df).

(** [df[name]], a [KeyError] when there is no such column. *)
Definition fcol (name : string) : Frame column :=
  fun df =>
    (match get_col name df with
     | Some c => Ret c
     | None => Raise (KeyError name)
     end, df).

Definition flift {A : Type} (o : outcome A) : Frame A := fun df => (o, df).

(** [assert cond, msg] *)
Definition assert_ (cond : bool) (msg : string) : Frame unit :=
  flift (if cond then Ret tt else Raise (AssertionError msg)).

(** [for x in xs: body] *)
Fixpoint for_each {A : Type} (xs : list A) (body : A -> Frame unit) : Frame unit :=
  match xs with
  | [] => fret tt
  | x :: rest => body x ;; for_each rest body
  end.

(** ** Validator: [validate_pipeline] *)

Definition essential_cols : list string :=
  ["open"; "high"; "low"; "close"; "volume"; "ticker"].

Definition numeric_cols : list string :=
  ["open"; "high"; "low"; "close"; "volume"].

(** [pd.api.types.is_numeric_dtype] *)
Definition is_numeric_dtype (c : column) : bool :=
  match c with NumCol _ => true | ObjCol _ => false end.

(** [(s > 0).all()]; comparing text with a number is a [TypeError]. *)
Definition all_positive (c : column) : outcome bool :=
  match c with
  | NumCol xs => Ret (forallb (fun x => cell_gt x 0) xs)
  | ObjCol _ => Raise TypeError
  end.

(** [s.isnull().sum()] *)
Definition isnull_sum (c : column) : nat :=
  match c with
  | NumCol xs => length (filter (fun x => negb (is_some x)) xs)
  | ObjCol xs => length (filter (fun x => negb (is_some x)) xs)
  end.

(** The body of the [try] block.  The threshold 0.1 is taken as the
    rational 1/10. *)
Definition validate_checks : Frame unit :=
  do! is_empty := fread empty in
  assert_ (negb is_empty) "Validation Error: DataFrame is empty after processing." ;;
  for_each essential_cols (fun col =>
    do! present := fread (has_col col) in
    assert_ present ("Validation Error: Missing essential column '" ++ col ++ "'.")) ;;
  for_each numeric_cols (fun col =>
    do! present := fread (has_col col) in
    if present then
      do! c := fcol col in
      assert_ (is_numeric_dtype c) ("Validation Error: '" ++ col ++ "' is not numeric.")
    else fret tt) ;;
  do! dated := fread is_datetime_index in
  assert_ dated "Validation Error: DataFrame index is not DatetimeIndex." ;;
  do! close := fcol "close" in
  do! positive := flift (all_positive close) in
  assert_ positive "Validation Error: Negative or zero close prices found." ;;
  for_each ["close"; "volume"] (fun col =>
    do! present := fread (has_col col) in
    if present then
      do! c := fcol col in
      do! n := fread len in
      let nan_percentage := Qofnat (isnull_sum c) / Qofnat n in
      assert_ (Qlt_bool nan_percentage (1#10))
              ("Validation Error: Too many NaN values in '" ++ col ++ "'")
    else fret tt).

Definition validate_pipeline : Frame bool :=
  fun df =>
    match validate_checks df with
    | (Ret _, df') => (Ret true, df')
    | (Raise (AssertionError _), df') => (Ret false, df')
    | (Raise _, df') => (Ret false, df')
    end.

(** A computation that leaves the object as it found it. *)
Definition read_only {A : Type} (c : Frame A) : Prop :=
  forall df, snd (c df) = df.

(** The missing values of a numeric series, counted. *)
Definition nan_count (xs : list cell) : nat :=
  length (filter (fun x => negb (is_some x)) xs).

(** ** Ingestor: [ingest_data]

    The market-data provider is a parameter: what [yf.download] answers for
    a ticker and a date range at a given call, a table or an error. *)

(** A column label of the provider: text, or something else (on which
    [.lower()] fails). *)
Inductive label : Type :=
| TextLabel (s : string)
| OtherLabel (n : Z).

(** Flat column labels, or a [pd.MultiIndex] of tuples of labels. *)
Inductive header : Type :=
| FlatHeader (labels : list label)
| MultiHeader (tuples : list (list label)).

(** A cell of the provider: a number, the missing marker, or something that
    does not parse as a number. *)
Inductive raw_cell : Type :=
| RawNum (q : Q)
| RawNaN
| RawText (s : string).

Record RawFrame : Type := {
  raw_index : list date;
  raw_header : header;
  raw_data : list (list raw_cell)    (* one list per column, in header order *)
}.

Definition header_len (h : header) : nat :=
  match h with
  | FlatHeader ls => length ls
  | MultiHeader ts => length ts
  end.

(** [df.empty] on the provider's table *)
Definition raw_empty (rf : RawFrame) : bool :=
  (length (raw_index rf) =? 0)%nat || (header_len (raw_header rf) =? 0)%nat.

(** [df.columns.get_level_values(0)] when the header is a MultiIndex *)
Definition level0 (h : header) : list label :=
  match h with
  | FlatHeader ls => ls
  | MultiHeader ts => map (fun t => hd (OtherLabel 0) t) ts
  end.

(** [str.lower] and [str.replace(' ', '_')], on ASCII. *)
Definition lower_ascii (c : ascii) : ascii :=
  let n := nat_of_ascii c in
  if ((65 <=? n) && (n <=? 90))%nat then ascii_of_nat (n + 32) else c.

Fixpoint lower (s : string) : string :=
  match s with
  | EmptyString => EmptyString
  | String c rest => String (lower_ascii c) (lower rest)
  end.

Fixpoint replace_space (s : string) : string :=
  match s with
  | EmptyString => EmptyString
  | String c rest =>
      String (if Ascii.eqb c " "%char then "_"%char else c) (replace_space rest)
  end.

Definition normalize_label (l : label) : outcome string :=
  match l with
  | TextLabel s => Ret (replace_space (lower s))
  | OtherLabel _ => Raise AttributeError
  end.

Fixpoint normalize_labels (ls : list label) : outcome (list string) :=
  match ls with
  | [] => Ret []
  | l :: rest =>
      let! n := normalize_label l in
      let! ns := normalize_labels rest in
      Ret (n :: ns)
  end.

(** The column names after the two normalisation steps. *)
Definition normalized_columns (rf : RawFrame) : outcome (list string) :=
  normalize_labels (level0 (raw_header rf)).

Definition required_ohlcv_cols : list string :=
  ["open"; "high"; "low"; "close"; "volume"].

Definition name_in (name : string) (names : list string) : bool :=
  existsb (String.eqb name) names.

(** [[col for col in required_ohlcv_cols if col not in df.columns]] *)
Definition missing_cols (names : list string) : list string :=
  filter (fun col => negb (name_in col names)) required_ohlcv_cols.

(** [pd.to_numeric(s, errors='coerce')] *)
Definition to_numeric (xs : list raw_cell) : list cell :=
  map (fun x => match x with RawNum q => Some q | _ => None end) xs.

Definition occurrences (name : string) (names : list string) : nat :=
  length (filter (String.eqb name) names).

(** The data under the first column of that name. *)
Fixpoint raw_column (name : string) (names : list string) (data : list (list raw_cell))
  : list raw_cell :=
  match names, data with
  | n :: names', xs :: data' =>
      if String.eqb name n then xs else raw_column name names' data'
  | _, _ => []
  end.

(** The body of the [try] block once the download has answered [rf]. *)
Definition ingest_attempt (ticker : string) (rf : RawFrame) : outcome DataFrame :=
  if raw_empty rf then Ret empty_frame
  else
    let! names := normalized_columns rf in
    match missing_cols names with
    | _ :: _ => Ret empty_frame
    | [] =>
        (* with a name twice, [df[col]] is a table and [pd.to_numeric] fails *)
        if existsb (fun col => (1 <? occurrences col names)%nat) required_ohlcv_cols
        then Raise TypeError
        else
          let n := length (raw_index rf) in
          Ret {| index := DatetimeIndex (raw_index rf);
                 columns :=
                   map (fun col =>
                          (col, NumCol (to_numeric (raw_column col names (raw_data rf)))))
                       required_ohlcv_cols
                   ++ [("ticker", ObjCol (repeat (Some ticker) n))] |}
    end.

(** What the run does to the outside world, in order. *)
Inductive event : Type :=
| Download (ticker : string) (attempt : nat)
| Sleep (seconds : nat).

Definition is_download (e : event) : bool :=
  match e with Download _ _ => true | Sleep _ => false end.

Section Ingestor.

Variable provider : string -> string -> string -> nat -> outcome RawFrame.

Section Attempts.
Variables (ticker start end_ : string) (retry_count : nat).

(** The iterations of [for attempt in range(retry_count)]. *)
Fixpoint ingest_attempts (attempts : list nat) : outcome DataFrame * list event :=
  match attempts with
  | [] => (Ret empty_frame, [])
  | attempt :: rest =>
      let done := (if (0 <? attempt)%nat then [Sleep 2] else [])
                  ++ [Download ticker attempt] in
      match (let! rf := provider ticker start end_ attempt in
             ingest_attempt ticker rf) with
      | Ret df => (Ret df, done)
      | Raise e =>
          if (attempt =? retry_count - 1)%nat
          then (Ret empty_frame, done)
          else
            let (result, later) := ingest_attempts rest in
            (result, done ++ later)
      end
  end.
End Attempts.

Definition ingest_data (ticker start end_ : string) (retry_count : nat)
  : outcome DataFrame * list event :=
  ingest_attempts ticker start end_ retry_count (seq 0 retry_count).

End Ingestor.

(** What one attempt of [ingest_data] comes to: the download, then the rest
    of the [try] block. *)
Definition attempt_outcome (provider : string -> string -> string -> nat -> outcome RawFrame)
           (ticker start end_ : string) (attempt : nat) : outcome DataFrame :=
  let! rf := provider ticker start end_ attempt in
  ingest_attempt ticker rf.

(** The two structural rejections: no rows, or a required column missing
    after the column names are normalised. *)
Definition structural_failure (rf : RawFrame) : Prop :=
  length (raw_index rf) = 0%nat
  \/ exists names col,
       normalized_columns rf = Ret names
       /\ In col required_ohlcv_cols
       /\ name_in col names = false.

(** ** Store: [store_data] and [retrieve_data]

    The relational sink is an interface: opening a connection, appending a
    frame to a table, running a query, and the file operations of the
    orchestrator.  Each may fail with an error of the storage engine;
    [os.remove] may fail with an error of the file system, [os.path.exists]
    never fails. *)
Class Sink (DB : Type) : Type := {
  sqlite3_connect : string -> DB -> outcome unit * DB;
  to_sql : string -> DataFrame -> DB -> outcome unit * DB;
  read_sql_query : string -> DB -> outcome DataFrame;
  path_exists : string -> DB -> bool;
  remove : string -> DB -> outcome unit * DB
}.

(** [df.index.year] and [df.index.month]: only a date index has them. *)
Definition index_field (field : date -> Z) (df : DataFrame) : outcome column :=
  match index df with
  | DatetimeIndex ds => Ret (NumCol (map (fun d => Some (inject_Z (field d))) ds))
  | PlainIndex _ => Raise AttributeError
  end.

Section Store.
Context {DB : Type} {sink : Sink DB}.

(** The frame object and the sink after the call.  Every error inside the
    [try] block is caught; what was assigned before it stays assigned. *)
Definition store_data (df : DataFrame) (db_name table_name : string) (db : DB)
  : DataFrame * DB :=
  if empty df then (df, db)
  else
    match sqlite3_connect db_name db with
    | (Raise _, db) => (df, db)
    | (Ret _, db) =>
        match index_field year df with
        | Raise _ => (df, db)
        | Ret years =>
            let df := set_col "year" years df in
            match index_field month df with
            | Raise _ => (df, db)
            | Ret months =>
                let df := set_col "month" months df in
                let (_, db) := to_sql table_name df db in
                (df, db)
            end
        end
    end.

(** Python's truth value of an optional text or integer argument. *)
Definition truthy_text (o : option string) : bool :=
  match o with
  | Some s => negb (String.eqb s EmptyString)
  | None => false
  end.

Definition truthy_int (o : option Z) : bool :=
  match o with
  | Some z => negb (z =? 0)%Z
  | None => false
  end.

Definition text_of (o : option string) : string :=
  match o with Some s => s | None => "None" end.

Definition decimal (z : Z) : string := NilZero.string_of_int (Z.to_int z).

Definition int_text (o : option Z) : string :=
  match o with Some z => decimal z | None => "None" end.

(** [" AND ".join(conditions)] *)
Fixpoint join (sep : string) (parts : list string) : string :=
  match parts with
  | [] => EmptyString
  | [p] => p
  | p :: rest => (p ++ sep ++ join sep rest)%string
  end.

Definition conditions (ticker : option string) (year month : option Z) : list string :=
  (if truthy_text ticker then [("ticker = '" ++ text_of ticker ++ "'")%string] else [])
  ++ (if truthy_int year then [("year = " ++ int_text year)%string] else [])
  ++ (if truthy_int month then [("month = " ++ int_text month)%string] else []).

Definition build_query (table_name : string) (ticker : option string)
           (year month : option Z) : string :=
  let query := ("SELECT * FROM " ++ table_name)%string in
  let conds := conditions ticker year month in
  let query := match conds with
               | [] => query
               | _ :: _ => (query ++ " WHERE " ++ join " AND " conds)%string
               end in
  (query ++ " ORDER BY date;")%string.

Definition retrieve_data (db_name table_name : string) (ticker : option string)
           (year month : option Z) (db : DB) : DataFrame * DB :=
  match sqlite3_connect db_name db with
  | (Raise _, db) => (empty_frame, db)
  | (Ret _, db) =>
      match read_sql_query (build_query table_name ticker year month) db with
      | Ret df => (df, db)
      | Raise _ => (empty_frame, db)
      end
  end.

End Store.

(** ** Orchestrator: [run_data_pipeline] *)

Definition TICKERS : list string :=
  ["AAPL"; "MSFT"; "GOOG"; "AMZN"; "TSLA"; "NVDA"; "JPM"; "V"; "PG"; "KO"].

Definition START_DATE : string := "2020-01-01".
Definition DB_NAME : string := "ohlc_data.db".
Definition TABLE_NAME : string := "ohlc_processed_data".

(** What a run reports at its end. *)
Record run_summary : Type := {
  succeeded : list string;
  failed : list string;
  sample : option DataFrame
}.

Section Orchestrator.
Context {DB : Type} {sink : Sink DB}.
Variable provider : string -> string -> string -> nat -> outcome RawFrame.
Variable sqrtQ : Q -> Q.
(** [END_DATE] is the day of the run. *)
Variable END_DATE : string.

(** The state a run threads through the tickers: the sink, the list
    [successful_tickers], and the tickers [store_data] has been called for. *)
Record run_state : Type := {
  sink_state : DB;
  successful_tickers : list string;
  store_calls : list string
}.

(** The body of the [try] block for one ticker.  [Ret st] with the state
    unchanged is a [continue]. *)
Definition process_ticker_body (ticker : string) (st : run_state) : outcome run_state :=
  let! raw_df := fst (ingest_data provider ticker START_DATE END_DATE 3) in
  if empty raw_df then Ret st
  else
    let! cleaned_df := clean_data raw_df in
    if empty cleaned_df then Ret st
    else
      let! transformed_df := transform_data sqrtQ cleaned_df in
      if empty transformed_df then Ret st
      else
        let (verdict, transformed_df) := validate_pipeline transformed_df in
        let! valid := verdict in
        if negb valid then Ret st
        else
          let (_, db) := store_data transformed_df DB_NAME TABLE_NAME (sink_state st) in
          Ret {| sink_state := db;
                 successful_tickers := successful_tickers st ++ [ticker];
                 store_calls := store_calls st ++ [ticker] |}.

(** One iteration of the loop: an exception is caught at the ticker
    boundary and the loop goes on. *)
Definition process_ticker (st : run_state) (ticker : string) : run_state :=
  match process_ticker_body ticker st with
  | Ret st' => st'
  | Raise _ => st
  end.

(** The run.  The removal of an old database file comes before the loop and
    outside every [try]: an error of [os.remove] ends the run. *)
Definition run_pipeline (tickers : list string) (db : DB)
  : outcome run_summary * run_state :=
  match (if path_exists DB_NAME db then remove DB_NAME db else (Ret tt, db)) with
  | (Raise e, db) =>
      (Raise e, {| sink_state := db; successful_tickers := []; store_calls := [] |})
  | (Ret _, db) =>
      let st := fold_left process_ticker tickers
                          {| sink_state := db; successful_tickers := [];
                             store_calls := [] |} in
      let failed_tickers :=
        filter (fun t => negb (name_in t (successful_tickers st))) tickers in
      match successful_tickers st with
      | sample_ticker :: _ =>
          if path_exists DB_NAME (sink_state st) then
            let (sample_data, db) :=
              retrieve_data DB_NAME TABLE_NAME (Some sample_ticker) None None
                            (sink_state st) in
            (Ret {| succeeded := successful_tickers st;
                    failed := failed_tickers;
                    sample := Some sample_data |},
             {| sink_state := db;
                successful_tickers := successful_tickers st;
                store_calls := store_calls st |})
          else
            (Ret {| succeeded := successful_tickers st;
                    failed := failed_tickers; sample := None |}, st)
      | [] =>
          (Ret {| succeeded := successful_tickers st;
                  failed := failed_tickers; sample := None |}, st)
      end
  end.

Definition run_data_pipeline (db : DB) : outcome run_summary * run_state :=
  run_pipeline TICKERS db.

(** The frame the Ingestor returns for a ticker. *)
Definition ingested (ticker : string) : outcome DataFrame :=
  fst (ingest_data provider ticker START_DATE END_DATE 3).

(** A stage of the chain for the ticker returns an empty series, or the
    validation returns false. *)
Definition stage_skips (ticker : string) : Prop :=
  (exists raw, ingested ticker = Ret raw /\ empty raw = true)
  \/ (exists raw cleaned,
         ingested ticker = Ret raw /\ empty raw = false
         /\ clean_data raw = Ret cleaned /\ empty cleaned = true)
  \/ (exists raw cleaned transformed,
         ingested ticker = Ret raw /\ empty raw = false
         /\ clean_data raw = Ret cleaned /\ empty cleaned = false
         /\ transform_data sqrtQ cleaned = Ret transformed
         /\ empty transformed = true)
  \/ (exists raw cleaned transformed,
         ingested ticker = Ret raw /\ empty raw = false
         /\ clean_data raw = Ret cleaned /\ empty cleaned = false
         /\ transform_data sqrtQ cleaned = Ret transformed
         /\ empty transformed = false
         /\ fst (validate_pipeline transformed) = Ret false).

(** A stage of the chain for the ticker raises. *)
Definition stage_raises (ticker : string) : Prop :=
  (exists raw e,
      ingested ticker = Ret raw /\ empty raw = false /\ clean_data raw = Raise e)
  \/ (exists raw cleaned e,
         ingested ticker = Ret raw /\ empty raw = false
         /\ clean_data raw = Ret cleaned /\ empty cleaned = false
         /\ transform_data sqrtQ cleaned = Raise e).

End Orchestrator.

(** ** Further notions used by the properties *)

(** What one attempt of [ingest_data] does to the outside world: a pause of
    two seconds unless it is the first, then the download. *)
Definition attempt_events (ticker : string) (attempt : nat) : list event :=
  (if (0 <? attempt)%nat then [Sleep 2] else []) ++ [Download ticker attempt].

(** The events of the attempts [0 .. k-1]. *)
Definition attempts_trace (ticker : string) (k : nat) : list event :=
  flat_map (attempt_events ticker) (seq 0 k).

(** A provider table whose columns are as many as its labels and as long as
    its index. *)
Definition raw_well_formed (rf : RawFrame) : Prop :=
  length (raw_data rf) = header_len (raw_header rf)
  /\ Forall (fun xs => length xs = length (raw_index rf)) (raw_data rf).

(** The shape of a series in the pipeline: a date index, the five numeric
    price/volume columns and a ticker column, all as long as the index. *)
Definition ohlcv_frame (df : DataFrame) : Prop :=
  well_formed df
  /\ is_datetime_index df = true
  /\ (forall col, In col numeric_cols -> exists xs, get_col col df = Some (NumCol xs))
  /\ has_col "ticker" df = true.

(** The most recent value of a series, and its first value. *)
Fixpoint last_valid {A : Type} (xs : list (option A)) : option A :=
  match xs with
  | [] => None
  | x :: rest =>
      match last_valid rest with
      | Some v => Some v
      | None => x
      end
  end.

Fixpoint first_valid {A : Type} (xs : list (option A)) : option A :=
  match xs with
  | [] => None
  | Some v :: _ => Some v
  | None :: rest => first_valid rest
  end.

(** The interpolated value at a position of a sorted series. *)
Definition interpolate (s : list Q) (x0 pos : Q) : Q :=
  let lo := Z.to_nat (Qfloor pos) in
  let v_lo := nth lo s x0 in
  let v_hi := nth (S lo) s v_lo in
  v_lo + (v_hi - v_lo) * (pos - inject_Z (Qfloor pos)).

(** The columns [transform_data] may write. *)
Definition derived_columns : list string :=
  ["SMA_10"; "SMA_50"; "EMA_10"; "EMA_50";
   "BB_Middle"; "BB_StdDev"; "BB_Upper"; "BB_Lower";
   "RSI"; "Daily_Return"; "Volatility_20D"; "Close_Open_Diff"].

(** Every value of the series lies between [lo] and [hi]. *)
Definition within (lo hi : Q) (xs : list cell) : Prop :=
  forall v, In (Some v) xs -> lo <= v <= hi.

(** The column is numeric and its values lie between [lo] and [hi]. *)
Definition col_within (lo hi : Q) (name : string) (df : DataFrame) : Prop :=
  exists xs, get_col name df = Some (NumCol xs) /\ within lo hi xs.

(** The column is there and has a value in every row. *)
Definition col_full (name : string) (df : DataFrame) : Prop :=
  exists c, get_col name df = Some c /\ col_no_na c.

(** The chain of stages reaches [store_data] for the ticker: no stage
    raises or returns an empty series, and the validation returns true. *)
Definition chain_passes
           (provider : string -> string -> string -> nat -> outcome RawFrame)
           (sqrtQ : Q -> Q) (END_DATE : string) (ticker : string) : bool :=
  match ingested provider END_DATE ticker with
  | Ret raw_df =>
      negb (empty raw_df)
      && match clean_data raw_df with
         | Ret cleaned_df =>
             negb (empty cleaned_df)
             && match transform_data sqrtQ cleaned_df with
                | Ret transformed_df =>
                    negb (empty transformed_df)
                    && match fst (validate_pipeline transformed_df) with
                       | Ret valid => valid
                       | Raise _ => false
                       end
                | Raise _ => false
                end
         | Raise _ => false
         end
  | Raise _ => false
  end.

(** ** Example frames *)

Definition jan (n : Z) : date := {| year := 2024; month := 1; day := n |}.

(** Four rows, one low close. *)
Definition skewed_frame : DataFrame :=
  {| index := DatetimeIndex [jan 1; jan 2; jan 3; jan 4];
     columns := [("close", NumCol [Some 0; Some 100; Some 100; Some 100])] |}.

(** Eight rows, quartiles equal, one high close. *)
Definition flat_frame : DataFrame :=
  {| index := DatetimeIndex [jan 1; jan 2; jan 3; jan 4; jan 5; jan 6; jan 7; jan 8];
     columns := [("close", NumCol [Some 1; Some 1; Some 1; Some 1;
                                   Some 1; Some 1; Some 1; Some 100])] |}.

(** Five rows out of order, with gaps. *)
Definition ragged_frame : DataFrame :=
  {| index := DatetimeIndex [jan 3; jan 2; jan 1; jan 5; jan 4];
     columns := [("open", NumCol [Some 1; None; Some 3; Some 5; Some 4]);
                 ("close", NumCol [None; Some 2; Some 3; Some 5; Some 40]);
                 ("volume", NumCol [Some 10; Some 20; None; Some 30; Some 40]);
                 ("ticker", ObjCol [Some "X"; Some "X"; Some "X"; Some "X"; Some "X"])] |}.

(** A rational approximation of the square root (Newton's iteration), to
    run the feature engineer on examples. *)
Definition approx_sqrt (q : Q) : Q :=
  if Qle_bool q 0 then 0
  else fold_left (fun x _ => Qred ((x + q / x) / 2)) (seq 0 6) (Qred q).

(** [n] trading days with a close that climbs by 4 and falls back by 2. *)
Definition zigzag_price (base : Z) (i : nat) : cell :=
  Some (inject_Z (base + Z.of_nat i + 3 * Z.of_nat (i mod 2))).

Definition zigzag_frame (n : nat) : DataFrame :=
  let rows := seq 0 n in
  {| index := DatetimeIndex
                (map (fun i => {| year := 2024;
                                  month := (1 + Z.of_nat (i / 28))%Z;
                                  day := (1 + Z.of_nat (i mod 28))%Z |}) rows);
     columns := [("open", NumCol (map (zigzag_price 99%Z) rows));
                 ("high", NumCol (map (zigzag_price 102%Z) rows));
                 ("low", NumCol (map (zigzag_price 98%Z) rows));
                 ("close", NumCol (map (zigzag_price 100%Z) rows));
                 ("volume", NumCol (map (fun i => Some (inject_Z (1000 + Z.of_nat i))) rows));
                 ("ticker", ObjCol (map (fun _ => Some "X") rows))] |}.

(** A provider table without a volume column, under a two-level header. *)
Definition no_volume_table : RawFrame :=
  {| raw_index := [jan 2; jan 3];
     raw_header := MultiHeader [[TextLabel "Close"; TextLabel "AAPL"];
                                [TextLabel "High"; TextLabel "AAPL"];
                                [TextLabel "Low"; TextLabel "AAPL"];
                                [TextLabel "Open"; TextLabel "AAPL"]];
     raw_data := [[RawNum 10; RawNum 11]; [RawNum 12; RawNum 12];
                  [RawNum 9; RawNum 10]; [RawNum 10; RawNaN]] |}.

(** A provider that fails once and then answers that table. *)
Definition flaky_provider (ticker start end_ : string) (attempt : nat) : outcome RawFrame :=
  if (attempt <? 1)%nat then Raise ProviderError else Ret no_volume_table.

(** A sink kept in memory: the frames appended so far, by table. *)
#[export] Instance memory_sink : Sink (list (string * DataFrame)) := {|
  sqlite3_connect := fun _ db => (Ret tt, db);
  to_sql := fun table df db => (Ret tt, db ++ [(table, df)]);
  read_sql_query := fun _ db => Ret empty_frame;
  path_exists := fun _ db => negb (length db =? 0)%nat;
  remove := fun _ _ => (Ret tt, [])
|}.

(** A sink that cannot be opened. *)
#[export] Instance offline_sink : Sink unit := {|
  sqlite3_connect := fun _ db => (Raise SqliteError, db);
  to_sql := fun _ _ db => (Raise SqliteError, db);
  read_sql_query := fun _ _ => Raise SqliteError;
  path_exists := fun _ _ => false;
  remove := fun _ db => (Ret tt, db)
|}.

(** Three complete rows under flat, capitalised labels. *)
Definition full_table : RawFrame :=
  {| raw_index := [jan 2; jan 3; jan 4];
     raw_header := FlatHeader [TextLabel "Close"; TextLabel "High"; TextLabel "Low";
                               TextLabel "Open"; TextLabel "Volume"];
     raw_data := [[RawNum 10; RawNum 11; RawNum 12]; [RawNum 12; RawNum 12; RawNum 13];
                  [RawNum 9; RawNum 10; RawNum 11]; [RawNum 10; RawNaN; RawNum 12];
                  [RawNum 500; RawNum 600; RawText "n/a"]] |}.

(** A provider with no volume for AAPL, no connection for MSFT, and the
    full table for every other ticker. *)
Definition mixed_provider (ticker start end_ : string) (attempt : nat) : outcome RawFrame :=
  if String.eqb ticker "AAPL" then Ret no_volume_table
  else if String.eqb ticker "MSFT" then Raise ProviderError
  else Ret full_table.

(** A sink whose database file exists and cannot be removed. *)
Definition locked_sink : Sink unit := {|
  sqlite3_connect := fun _ db => (Ret tt, db);
  to_sql := fun _ _ db => (Ret tt, db);
  read_sql_query := fun _ _ => Ret empty_frame;
  path_exists := fun _ _ => true;
  remove := fun _ db => (Raise OSError, db)
|}.
(** * Properties *)

(** ** Lists: filling, row selection, sorting *)


Lemma ffill_from_all_some (A : Type) (xs : list (option A)) :
  all_some xs -> forall last, ffill_from last xs = xs.
Proof.
  induction 1 as [|x xs Hx _ IH]; intros last; simpl; [reflexivity|].
  destruct x; [|discriminate]. now rewrite IH.
Qed.

Lemma ffill_all_none (A : Type) (xs : list (option A)) :
  all_none xs -> ffill xs = xs.
Proof.
  unfold ffill. induction 1 as [|x xs Hx _ IH]; simpl; [reflexivity|].
  subst x. now rewrite IH.
Qed.

Lemma bfill_all_some (A : Type) (xs : list (option A)) :
  all_some xs -> bfill xs = xs.
Proof.
  induction 1 as [|x xs Hx _ IH]; simpl; [reflexivity|].
  destruct x; [|discriminate]. now rewrite IH.
Qed.

Lemma bfill_all_none (A : Type) (xs : list (option A)) :
  all_none xs -> bfill xs = xs.
Proof.
  induction 1 as [|x xs Hx Hxs IH]; simpl; [reflexivity|].
  subst x. rewrite IH. destruct Hxs; simpl; congruence.
Qed.

Lemma ffill_from_some_all_some (A : Type) (xs : list (option A)) :
  forall a, all_some (ffill_from (Some a) xs).
Proof.
  induction xs as [|x xs IH]; intros a; simpl; [constructor|].
  destruct x; constructor; auto; apply IH.
Qed.

(** After forward and backward fill a series has no gap left: it is all
    missing or all present. *)
Lemma fill_uniform (A : Type) (xs : list (option A)) :
  all_none (bfill (ffill xs)) \/ all_some (bfill (ffill xs)).
Proof.
  unfold ffill. induction xs as [|x xs IH]; simpl.
  - left; constructor.
  - destruct x as [a|].
    + right. rewrite (bfill_all_some (ffill_from_some_all_some xs a)).
      constructor; [reflexivity | apply ffill_from_some_all_some].
    + destruct IH as [IH|IH].
      * left. constructor; [|exact IH].
        destruct IH; simpl; congruence.
      * destruct (bfill (ffill_from None xs)) as [|y ys] eqn:E.
        -- left. repeat constructor.
        -- right. simpl. constructor; [|exact IH].
           now inversion IH.
Qed.

Lemma fill_fixed (A : Type) (xs : list (option A)) :
  all_none xs \/ all_some xs -> bfill (ffill xs) = xs.
Proof.
  intros [H|H].
  - rewrite (ffill_all_none H). now apply bfill_all_none.
  - unfold ffill. rewrite (ffill_from_all_some H). now apply bfill_all_some.
Qed.

Lemma length_ffill_from (A : Type) (xs : list (option A)) :
  forall last, length (ffill_from last xs) = length xs.
Proof. induction xs; intros; simpl; auto. Qed.

Lemma length_bfill (A : Type) (xs : list (option A)) :
  length (bfill xs) = length xs.
Proof. induction xs; simpl; auto. Qed.

Lemma Forall_keep_rows (A : Type) (P : A -> Prop) (xs : list A) :
  Forall P xs -> forall mask, Forall P (keep_rows mask xs).
Proof.
  induction 1 as [|x xs Hx _ IH]; intros [|b mask]; simpl; try constructor.
  destruct b; [constructor|]; auto.
Qed.

Lemma keep_rows_all (A : Type) (xs : list A) :
  forall mask, length mask = length xs -> Forall (fun b => b = true) mask ->
               keep_rows mask xs = xs.
Proof.
  induction xs as [|x xs IH]; intros [|b mask] Hl Hm; simpl in *; try discriminate; auto.
  inversion Hm; subst. f_equal. apply IH; auto.
Qed.

Lemma length_keep_rows (A : Type) (xs : list A) :
  forall mask, length mask = length xs ->
               length (keep_rows mask xs) = length (filter (fun b => b) mask).
Proof.
  induction xs as [|x xs IH]; intros [|b mask] Hl; simpl in *; try discriminate; auto.
  destruct b; simpl; auto.
Qed.

Lemma In_keep_rows_nth (A : Type) (d : A) (xs : list A) :
  forall mask y, In y (keep_rows mask xs) ->
                 exists i, nth i mask false = true /\ nth i xs d = y /\ (i < length xs)%nat.
Proof.
  induction xs as [|x xs IH]; intros [|b mask] y Hy; simpl in *; try contradiction.
  destruct b.
  - destruct Hy as [<-|Hy].
    + exists 0%nat. repeat split. lia.
    + destruct (IH _ _ Hy) as (i & ? & ? & ?). exists (S i). repeat split; auto. lia.
  - destruct (IH _ _ Hy) as (i & ? & ? & ?). exists (S i). repeat split; auto. lia.
Qed.

Lemma Forall_take_rows (A : Type) (P : A -> Prop) (d : A) (xs : list A) (ps : list nat) :
  Forall P xs -> Forall (fun p => (p < length xs)%nat) ps ->
  Forall P (take_rows d ps xs).
Proof.
  intros HP Hps. unfold take_rows. apply Forall_map.
  eapply Forall_impl; [|exact Hps]. intros p Hp. simpl in Hp.
  rewrite Forall_forall in HP. apply HP. now apply nth_In.
Qed.

Lemma take_rows_seq (A : Type) (d : A) (xs : list A) :
  take_rows d (seq 0 (length xs)) xs = xs.
Proof.
  unfold take_rows. apply nth_ext with (d := d) (d' := d).
  - now rewrite length_map, length_seq.
  - intros n Hn. rewrite length_map, length_seq in Hn.
    rewrite (nth_indep _ d (nth 0 xs d)) by now rewrite length_map, length_seq.
    rewrite (map_nth (fun p => nth p xs d)) with (d := 0%nat).
    now rewrite seq_nth.
Qed.

Section Sorting.
Variable A : Type.
Variable leb : A -> A -> bool.

Lemma Forall_insert_by (P : A -> Prop) (x : A) (l : list A) :
  P x -> Forall P l -> Forall P (insert_by leb x l).
Proof.
  intros Hx. induction 1 as [|y l Hy Hl IH]; simpl.
  - repeat constructor; auto.
  - destruct (leb x y); repeat constructor; auto.
Qed.

Lemma Forall_sort_by (P : A -> Prop) (l : list A) :
  Forall P l -> Forall P (sort_by leb l).
Proof.
  induction 1; simpl; [constructor|]. now apply Forall_insert_by.
Qed.

Lemma length_insert_by (x : A) (l : list A) :
  length (insert_by leb x l) = S (length l).
Proof. induction l as [|y l IH]; simpl; auto. destruct (leb x y); simpl; auto. Qed.

Lemma length_sort_by (l : list A) : length (sort_by leb l) = length l.
Proof. induction l; simpl; auto. rewrite length_insert_by. auto. Qed.

Lemma sort_by_sorted (l : list A) : sorted leb l -> sort_by leb l = l.
Proof.
  induction l as [|x l IH]; simpl; [reflexivity|].
  intros [Hx Hl]. rewrite (IH Hl).
  destruct l as [|y l]; simpl; [reflexivity|]. now rewrite Hx.
Qed.

Hypothesis leb_total : forall x y, leb x y = false -> leb y x = true.

Lemma sorted_insert_by (x : A) (l : list A) :
  sorted leb l -> sorted leb (insert_by leb x l).
Proof.
  induction l as [|y l IH]; simpl; [auto|].
  intros [Hy Hl]. destruct (leb x y) eqn:E.
  - simpl. auto.
  - specialize (IH Hl). split; [|exact IH].
    destruct l as [|z l]; simpl in *.
    + now apply leb_total.
    + destruct (leb x z); [now apply leb_total | exact Hy].
Qed.

Lemma sorted_sort_by (l : list A) : sorted leb (sort_by leb l).
Proof. induction l; simpl; [exact I|]. now apply sorted_insert_by. Qed.
End Sorting.

Section SortPositions.
Variable A : Type.
Variable leb : A -> A -> bool.
Variable d : A.

Lemma sorted_combine (keys : list A) :
  sorted leb keys -> forall (ps : list nat), sorted (key_leb leb) (combine keys ps).
Proof.
  induction keys as [|k keys IH]; simpl; [auto|].
  intros [Hk Hs] [|p ps]; simpl; [exact I|].
  split; [|now apply IH].
  destruct keys as [|k' keys]; simpl; [exact I|].
  destruct ps; simpl; [exact I | exact Hk].
Qed.

Lemma sorted_map_fst (l : list (A * nat)) :
  sorted (key_leb leb) l -> sorted leb (map fst l).
Proof.
  induction l as [|x l IH]; simpl; [auto|].
  intros [Hx Hl]. split; [|auto].
  destruct l; simpl; [exact I | exact Hx].
Qed.

Lemma map_snd_combine (B : Type) (l : list A) :
  forall l' : list B, length l = length l' -> map snd (combine l l') = l'.
Proof.
  induction l as [|x l IH]; intros [|y l'] H; simpl in *; try discriminate; auto.
  f_equal. apply IH. lia.
Qed.

Lemma sort_positions_sorted (keys : list A) :
  sorted leb keys -> sort_positions leb keys = seq 0 (length keys).
Proof.
  intros H. unfold sort_positions.
  rewrite (sort_by_sorted (key_leb leb) _ (sorted_combine keys H _)).
  apply map_snd_combine. now rewrite length_seq.
Qed.

Lemma length_sort_positions (keys : list A) :
  length (sort_positions leb keys) = length keys.
Proof.
  unfold sort_positions.
  rewrite length_map, length_sort_by, length_combine, length_seq. lia.
Qed.

Lemma combine_seq_nth (keys : list A) :
  forall start,
    Forall (fun kp => nth (snd kp - start) keys d = fst kp
                      /\ (start <= snd kp < start + length keys)%nat)
           (combine keys (seq start (length keys))).
Proof.
  induction keys as [|k keys IH]; intros start; simpl; constructor.
  - simpl. replace (start - start)%nat with 0%nat by lia. split; [reflexivity | lia].
  - eapply Forall_impl; [|apply (IH (S start))].
    intros [k' p] [Hn Hr]; simpl in *. split; [|lia].
    destruct (p - start)%nat as [|m] eqn:E; [lia|].
    replace m with (p - S start)%nat by lia. exact Hn.
Qed.

Lemma sort_positions_spec (keys : list A) :
  Forall (fun kp => nth (snd kp) keys d = fst kp /\ (snd kp < length keys)%nat)
         (sort_by (key_leb leb) (combine keys (seq 0 (length keys)))).
Proof.
  apply Forall_sort_by.
  eapply Forall_impl; [|apply (combine_seq_nth keys 0)].
  intros [k p] [Hn Hr]; simpl in *.
  rewrite Nat.sub_0_r in Hn. split; [exact Hn | lia].
Qed.

Lemma sort_positions_range (keys : list A) :
  Forall (fun p => (p < length keys)%nat) (sort_positions leb keys).
Proof.
  unfold sort_positions. apply Forall_map.
  eapply Forall_impl; [|apply sort_positions_spec]. now intros kp [_ H].
Qed.

Lemma take_rows_sort_positions (keys : list A) :
  take_rows d (sort_positions leb keys) keys
  = map fst (sort_by (key_leb leb) (combine keys (seq 0 (length keys)))).
Proof.
  unfold take_rows, sort_positions. rewrite map_map.
  apply map_ext_Forall.
  eapply Forall_impl; [|apply sort_positions_spec]. now intros kp [H _].
Qed.

Hypothesis leb_total : forall x y, leb x y = false -> leb y x = true.

Lemma sorted_take_rows_sort_positions (keys : list A) :
  sorted leb (take_rows d (sort_positions leb keys) keys).
Proof.
  rewrite take_rows_sort_positions. apply sorted_map_fst.
  apply sorted_sort_by. intros x y. apply leb_total.
Qed.
End SortPositions.

Lemma date_leb_total (a b : date) : date_leb a b = false -> date_leb b a = true.
Proof.
  unfold date_leb. destruct a as [ya ma da], b as [yb mb db]; simpl.
  rewrite !orb_false_iff, !andb_false_iff, !orb_false_iff, !andb_false_iff.
  rewrite !orb_true_iff, !andb_true_iff, !orb_true_iff, !andb_true_iff.
  rewrite !Z.ltb_ge, !Z.eqb_neq, !Z.leb_gt, !Z.ltb_lt, !Z.eqb_eq, !Z.leb_le.
  lia.
Qed.

Lemma Zleb_total (a b : Z) : Z.leb a b = false -> Z.leb b a = true.
Proof. rewrite Z.leb_gt, Z.leb_le. lia. Qed.
(** ** Frames: columns by name *)

Lemma lookup_assign_same (name : string) (c : column) (cols : list (string * column)) :
  lookup_col name (assign_col name c cols) = Some c.
Proof.
  induction cols as [|[n c0] cols IH]; simpl.
  - now rewrite String.eqb_refl.
  - destruct (String.eqb name n) eqn:E; simpl; rewrite E; auto.
Qed.

Lemma lookup_assign_other (name name' : string) (c : column) (cols : list (string * column)) :
  name' <> name ->
  lookup_col name' (assign_col name c cols) = lookup_col name' cols.
Proof.
  intros Hne. induction cols as [|[n c0] cols IH]; simpl.
  - apply String.eqb_neq in Hne. now rewrite Hne.
  - destruct (String.eqb name n) eqn:E; simpl.
    + apply String.eqb_eq in E; subst n.
      apply String.eqb_neq in Hne. now rewrite Hne.
    + now rewrite IH.
Qed.

Lemma assign_same_id (name : string) (c : column) (cols : list (string * column)) :
  lookup_col name cols = Some c -> assign_col name c cols = cols.
Proof.
  induction cols as [|[n c0] cols IH]; simpl; [discriminate|].
  destruct (String.eqb name n) eqn:E.
  - now intros [= ->].
  - intros H. now rewrite IH.
Qed.

Lemma lookup_map_cols (f : column -> column) (name : string) (cols : list (string * column)) :
  lookup_col name (map_cols f cols) = option_map f (lookup_col name cols).
Proof.
  induction cols as [|[n c0] cols IH]; simpl; [reflexivity|].
  destruct (String.eqb name n); auto.
Qed.

Lemma map_cols_id (f : column -> column) (cols : list (string * column)) :
  Forall (fun nc => f (snd nc) = snd nc) cols -> map_cols f cols = cols.
Proof.
  induction 1 as [|[n c] cols H _ IH]; simpl in *; [reflexivity|].
  now rewrite H, IH.
Qed.

Lemma lookup_col_In (name : string) (c : column) (cols : list (string * column)) :
  lookup_col name cols = Some c -> In (name, c) cols.
Proof.
  induction cols as [|[n c0] cols IH]; simpl; [discriminate|].
  destruct (String.eqb name n) eqn:E.
  - apply String.eqb_eq in E. intros [= ->]. left. now subst.
  - auto.
Qed.

Lemma Forall_assign_col (P : string * column -> Prop) (name : string) (c : column)
      (cols : list (string * column)) :
  (forall n, P (n, c)) -> Forall P cols -> Forall P (assign_col name c cols).
Proof.
  intros Hc. induction 1 as [|[n c0] cols H0 Hcols IH]; simpl.
  - repeat constructor. apply Hc.
  - destruct (String.eqb name n); constructor; auto.
Qed.

Lemma get_set_same (name : string) (c : column) (df : DataFrame) :
  get_col name (set_col name c df) = Some c.
Proof. apply lookup_assign_same. Qed.

Lemma get_set_other (name name' : string) (c : column) (df : DataFrame) :
  name' <> name -> get_col name' (set_col name c df) = get_col name' df.
Proof. apply lookup_assign_other. Qed.

Lemma has_col_set_col (name name' : string) (c : column) (df : DataFrame) :
  has_col name' (set_col name c df) = String.eqb name' name || has_col name' df.
Proof.
  unfold has_col. destruct (String.eqb name' name) eqn:E.
  - apply String.eqb_eq in E; subst. now rewrite get_set_same.
  - apply String.eqb_neq in E. now rewrite get_set_other.
Qed.

Lemma set_col_same_id (name : string) (c : column) (df : DataFrame) :
  get_col name df = Some c -> set_col name c df = df.
Proof.
  intros H. unfold set_col. rewrite (assign_same_id _ _ H). now destruct df.
Qed.

Lemma well_formed_iff (df : DataFrame) :
  well_formedb df = true <-> well_formed df.
Proof.
  unfold well_formedb, well_formed. rewrite forallb_forall, Forall_forall.
  split; intros H nc Hin; specialize (H nc Hin); now apply Nat.eqb_eq.
Qed.

Lemma well_formed_set_col (name : string) (c : column) (df : DataFrame) :
  well_formed df -> col_len c = len df -> well_formed (set_col name c df).
Proof.
  intros Hwf Hc. unfold well_formed in *. simpl.
  apply Forall_assign_col; auto.
Qed.

Lemma well_formed_get_col (name : string) (c : column) (df : DataFrame) :
  well_formed df -> get_col name df = Some c -> col_len c = len df.
Proof.
  intros Hwf H. apply lookup_col_In in H.
  unfold well_formed in Hwf. rewrite Forall_forall in Hwf.
  apply (Hwf _ H).
Qed.

(** ** Columns without gaps *)


Lemma col_len_fill (c : column) : col_len (col_fill c) = col_len c.
Proof.
  destruct c; simpl; unfold ffill; now rewrite length_bfill, length_ffill_from.
Qed.

Lemma col_fill_uniform (c : column) : col_uniform (col_fill c).
Proof. destruct c; simpl; apply fill_uniform. Qed.

Lemma col_fill_fixed (c : column) : col_uniform c -> col_fill c = c.
Proof. destruct c; simpl; intros H; f_equal; now apply fill_fixed. Qed.

Lemma col_keep_all_na (mask : list bool) (c : column) :
  col_all_na c -> col_all_na (col_keep mask c).
Proof. destruct c; simpl; intros H; now apply Forall_keep_rows. Qed.

Lemma col_keep_no_na (mask : list bool) (c : column) :
  col_no_na c -> col_no_na (col_keep mask c).
Proof. destruct c; simpl; intros H; now apply Forall_keep_rows. Qed.

Lemma col_take_all_na (ps : list nat) (c : column) :
  Forall (fun p => (p < col_len c)%nat) ps ->
  col_all_na c -> col_all_na (col_take ps c).
Proof. destruct c; simpl; intros Hp H; now apply Forall_take_rows. Qed.

Lemma col_take_no_na (ps : list nat) (c : column) :
  Forall (fun p => (p < col_len c)%nat) ps ->
  col_no_na c -> col_no_na (col_take ps c).
Proof. destruct c; simpl; intros Hp H; now apply Forall_take_rows. Qed.

Lemma col_len_take (ps : list nat) (c : column) :
  col_len (col_take ps c) = length ps.
Proof. destruct c; simpl; unfold take_rows; now rewrite length_map. Qed.

Lemma col_take_seq (c : column) : col_take (seq 0 (col_len c)) c = c.
Proof. destruct c; simpl; now rewrite take_rows_seq. Qed.

Lemma col_notna_no_na (c : column) (i : nat) :
  col_uniform c -> col_notna_at c i = true -> col_no_na c.
Proof.
  intros [H|H] Hi; [|exact H]. exfalso.
  destruct c as [vs|vs]; simpl in *; unfold all_none in H;
    rewrite Forall_forall in H;
    (destruct (Nat.lt_ge_cases i (length vs)) as [Hlt|Hge];
     [ rewrite (H (nth i vs None)) in Hi by (now apply nth_In); discriminate
     | rewrite nth_overflow in Hi by exact Hge; discriminate ]).
Qed.

Lemma col_no_na_notna (c : column) (i : nat) :
  col_no_na c -> (i < col_len c)%nat -> col_notna_at c i = true.
Proof.
  destruct c as [vs|vs]; simpl; unfold all_some; rewrite Forall_forall;
    intros H Hi; apply H; now apply nth_In.
Qed.
(** ** Cleaner: what each stage establishes *)

Lemma fill_columns_fold (df : DataFrame) :
  fill_columns df = fold_left fill_step ohlcv_cols df.
Proof. reflexivity. Qed.

Lemma index_fill_step (d : DataFrame) (col : string) :
  index (fill_step d col) = index d.
Proof. unfold fill_step. now destruct (get_col col d). Qed.

Lemma well_formed_fill_step (d : DataFrame) (col : string) :
  well_formed d -> well_formed (fill_step d col).
Proof.
  intros H. unfold fill_step. destruct (get_col col d) as [c|] eqn:E; [|exact H].
  apply well_formed_set_col; [exact H|].
  rewrite col_len_fill. now apply well_formed_get_col with (name := col).
Qed.

Lemma get_col_fill_step (d : DataFrame) (col name : string) :
  get_col name (fill_step d col)
  = if String.eqb name col then option_map col_fill (get_col name d) else get_col name d.
Proof.
  unfold fill_step. destruct (String.eqb name col) eqn:E.
  - apply String.eqb_eq in E; subst name.
    destruct (get_col col d) as [c|] eqn:Ec; simpl.
    + apply get_set_same.
    + exact Ec.
  - apply String.eqb_neq in E.
    destruct (get_col col d) as [c|]; [now apply get_set_other | reflexivity].
Qed.

Lemma get_col_fold_fill (cols : list string) :
  NoDup cols ->
  forall (df : DataFrame) (name : string),
    get_col name (fold_left fill_step cols df)
    = if existsb (String.eqb name) cols
      then option_map col_fill (get_col name df)
      else get_col name df.
Proof.
  induction 1 as [|col cols Hnotin Hnd IH]; intros df name; simpl; [reflexivity|].
  rewrite IH, get_col_fill_step.
  destruct (String.eqb name col) eqn:E; simpl; [|reflexivity].
  apply String.eqb_eq in E; subst name.
  destruct (existsb (String.eqb col) cols) eqn:Ex; [|reflexivity].
  exfalso. apply Hnotin. apply existsb_exists in Ex.
  destruct Ex as (x & Hin & Hx). apply String.eqb_eq in Hx. now subst.
Qed.

Lemma ohlcv_cols_NoDup : NoDup ohlcv_cols.
Proof.
  unfold ohlcv_cols.
  repeat (constructor; [simpl; intuition discriminate|]). constructor.
Qed.

Lemma In_ohlcv_existsb (name : string) :
  In name ohlcv_cols -> existsb (String.eqb name) ohlcv_cols = true.
Proof.
  intros H. apply existsb_exists. exists name. split; [exact H | apply String.eqb_refl].
Qed.

Lemma index_fill_columns (df : DataFrame) : index (fill_columns df) = index df.
Proof.
  rewrite fill_columns_fold. generalize ohlcv_cols as cols. intros cols. revert df.
  induction cols as [|c cols IH]; intros df; simpl; [reflexivity|].
  now rewrite IH, index_fill_step.
Qed.

Lemma well_formed_fill_columns (df : DataFrame) :
  well_formed df -> well_formed (fill_columns df).
Proof.
  rewrite fill_columns_fold. generalize ohlcv_cols as cols. intros cols. revert df.
  induction cols as [|c cols IH]; intros df H; simpl; [exact H|].
  apply IH. now apply well_formed_fill_step.
Qed.

Lemma has_col_fill_columns (name : string) (df : DataFrame) :
  has_col name (fill_columns df) = has_col name df.
Proof.
  unfold has_col. rewrite fill_columns_fold, (get_col_fold_fill ohlcv_cols_NoDup).
  destruct (existsb (String.eqb name) ohlcv_cols); [|reflexivity].
  now destruct (get_col name df).
Qed.

Lemma filled_fill_columns (df : DataFrame) : filled (fill_columns df).
Proof.
  intros name c Hin Hget.
  rewrite fill_columns_fold, (get_col_fold_fill ohlcv_cols_NoDup) in Hget.
  rewrite (In_ohlcv_existsb Hin) in Hget.
  destruct (get_col name df) as [c0|]; simpl in Hget; [|discriminate].
  injection Hget as <-. apply col_fill_uniform.
Qed.

(** A frame without gaps is left as it is by the fill loop. *)
Lemma fill_columns_fixed (df : DataFrame) : filled df -> fill_columns df = df.
Proof.
  intros H. rewrite fill_columns_fold. unfold filled in H.
  revert H. generalize ohlcv_cols as cols. intros cols.
  induction cols as [|col cols IH]; intros H; simpl; [reflexivity|].
  assert (Hstep : fill_step df col = df).
  { unfold fill_step. destruct (get_col col df) as [c|] eqn:E; [|reflexivity].
    rewrite (col_fill_fixed (H col c (or_introl eq_refl) E)).
    now apply set_col_same_id. }
  rewrite Hstep. apply IH. intros name c Hin. apply H. now right.
Qed.

(** *** Row drop *)

Lemma dropna_all_mask (subset : list string) (df : DataFrame) :
  dropna_all subset df
  = {| index := index_keep (row_mask subset df) (index df);
       columns := map_cols (col_keep (row_mask subset df)) (columns df) |}.
Proof. reflexivity. Qed.

Lemma length_row_mask (subset : list string) (df : DataFrame) :
  length (row_mask subset df) = len df.
Proof. unfold row_mask. now rewrite length_map, length_seq. Qed.

Lemma index_len_keep (mask : list bool) (ix : index_t) :
  length mask = index_len ix ->
  index_len (index_keep mask ix) = length (filter (fun b => b) mask).
Proof. destruct ix; simpl; apply length_keep_rows. Qed.

Lemma col_len_keep (mask : list bool) (c : column) :
  length mask = col_len c ->
  col_len (col_keep mask c) = length (filter (fun b => b) mask).
Proof. destruct c; simpl; apply length_keep_rows. Qed.

Lemma get_col_dropna (subset : list string) (name : string) (df : DataFrame) :
  get_col name (dropna_all subset df)
  = option_map (col_keep (row_mask subset df)) (get_col name df).
Proof. unfold get_col. rewrite dropna_all_mask. simpl. apply lookup_map_cols. Qed.

Lemma len_dropna (subset : list string) (df : DataFrame) :
  len (dropna_all subset df) = length (filter (fun b => b) (row_mask subset df)).
Proof.
  unfold len. rewrite dropna_all_mask. simpl.
  apply index_len_keep. apply length_row_mask.
Qed.

Lemma well_formed_dropna (subset : list string) (df : DataFrame) :
  well_formed df -> well_formed (dropna_all subset df).
Proof.
  intros H. unfold well_formed. rewrite len_dropna.
  rewrite dropna_all_mask. simpl. unfold map_cols. apply Forall_map.
  eapply Forall_impl; [|exact H]. intros [n c] Hc; simpl in *.
  apply col_len_keep. now rewrite length_row_mask.
Qed.

Lemma filled_dropna (subset : list string) (df : DataFrame) :
  filled df -> filled (dropna_all subset df).
Proof.
  intros H name c Hin Hget. rewrite get_col_dropna in Hget.
  destruct (get_col name df) as [c0|] eqn:E; simpl in Hget; [|discriminate].
  injection Hget as <-.
  destruct (H name c0 Hin E) as [Hna|Hno]; [left | right].
  - now apply col_keep_all_na.
  - now apply col_keep_no_na.
Qed.

Lemma filter_nonempty_nth (mask : list bool) :
  (0 < length (filter (fun b => b) mask))%nat -> exists i, nth i mask false = true.
Proof.
  induction mask as [|b mask IH]; simpl; [lia|].
  destruct b.
  - intros _. now exists 0%nat.
  - intros H. destruct (IH H) as [i Hi]. now exists (S i).
Qed.

Lemma row_mask_nth (subset : list string) (df : DataFrame) (i : nat) :
  nth i (row_mask subset df) false = true ->
  exists name c, In name subset /\ get_col name df = Some c /\ col_notna_at c i = true.
Proof.
  unfold row_mask. intros H.
  destruct (Nat.lt_ge_cases i (len df)) as [Hlt|Hge].
  - rewrite (nth_indep _ false (existsb (fun name =>
                    match get_col name df with
                    | Some c => col_notna_at c 0
                    | None => false
                    end) subset)) in H by now rewrite length_map, length_seq.
    rewrite (map_nth (fun i => existsb (fun name =>
                    match get_col name df with
                    | Some c => col_notna_at c i
                    | None => false
                    end) subset)) in H.
    rewrite seq_nth in H by exact Hlt. simpl in H.
    apply existsb_exists in H. destruct H as (name & Hin & Hn).
    destruct (get_col name df) as [c|] eqn:E; [|discriminate].
    now exists name, c.
  - rewrite nth_overflow in H by (now rewrite length_map, length_seq). discriminate.
Qed.

Lemma In_present_ohlcv (name : string) (df : DataFrame) :
  In name (present_ohlcv df) <-> In name ohlcv_cols /\ has_col name df = true.
Proof. unfold present_ohlcv. apply filter_In. Qed.

(** After the row drop, a frame that still has rows has a column with a
    value in every row. *)
Lemma has_full_col_dropna (df : DataFrame) :
  filled df -> (0 < len (dropna_all (present_ohlcv df) df))%nat ->
  has_full_col (dropna_all (present_ohlcv df) df).
Proof.
  intros Hf Hlen. rewrite len_dropna in Hlen.
  destruct (filter_nonempty_nth _ Hlen) as [i Hi].
  destruct (row_mask_nth _ _ _ Hi) as (name & c & Hin & Hget & Hna).
  apply In_present_ohlcv in Hin. destruct Hin as [Hin _].
  exists name, (col_keep (row_mask (present_ohlcv df) df) c).
  split; [exact Hin|]. split.
  - rewrite get_col_dropna, Hget. reflexivity.
  - apply col_keep_no_na. apply (@col_notna_no_na c i); [|exact Hna].
    now apply (Hf name).
Qed.

Lemma index_keep_all (mask : list bool) (ix : index_t) :
  length mask = index_len ix -> Forall (fun b => b = true) mask ->
  index_keep mask ix = ix.
Proof. destruct ix; simpl; intros; f_equal; now apply keep_rows_all. Qed.

Lemma col_keep_all (mask : list bool) (c : column) :
  length mask = col_len c -> Forall (fun b => b = true) mask ->
  col_keep mask c = c.
Proof. destruct c; simpl; intros; f_equal; now apply keep_rows_all. Qed.

(** A frame with a complete column loses no row. *)
Lemma dropna_fixed (df : DataFrame) :
  well_formed df -> has_full_col df -> dropna_all (present_ohlcv df) df = df.
Proof.
  intros Hwf (name & c & Hin & Hget & Hno).
  assert (Hmask : Forall (fun b => b = true) (row_mask (present_ohlcv df) df)).
  { unfold row_mask. apply Forall_map. apply Forall_forall. intros i Hi.
    apply in_seq in Hi. apply existsb_exists. exists name. split.
    - apply In_present_ohlcv. split; [exact Hin|]. unfold has_col. now rewrite Hget.
    - rewrite Hget. apply col_no_na_notna; [exact Hno|].
      rewrite (well_formed_get_col _ Hwf Hget). lia. }
  rewrite dropna_all_mask.
  rewrite index_keep_all; [| apply length_row_mask | exact Hmask].
  rewrite map_cols_id; [now destruct df|].
  eapply Forall_impl; [|exact Hwf]. intros [n c0] Hc; simpl in *.
  apply col_keep_all; [|exact Hmask]. now rewrite length_row_mask.
Qed.
(** *** Clipping *)

Lemma Qlt_bool_iff (a b : Q) : Qlt_bool a b = true <-> a < b.
Proof.
  unfold Qlt_bool. rewrite negb_true_iff. split; intros H.
  - apply Qnot_le_lt. intros Hle. apply Qle_bool_iff in Hle. congruence.
  - destruct (Qle_bool b a) eqn:E; [|reflexivity].
    apply Qle_bool_iff in E. exfalso. now apply (Qlt_not_le a b).
Qed.

Lemma Qlt_bool_false_iff (a b : Q) : Qlt_bool a b = false <-> b <= a.
Proof.
  unfold Qlt_bool. rewrite negb_false_iff. apply Qle_bool_iff.
Qed.

Lemma fence_ordered (xs : list cell) (lower upper : Q) :
  fence xs = Some (lower, upper) -> lower < upper.
Proof.
  unfold fence.
  destruct (quantile (1#4) xs) as [q1|]; [|discriminate].
  destruct (quantile (3#4) xs) as [q3|]; [|discriminate].
  destruct (Qlt_bool 0 (q3 - q1)) eqn:E; [|discriminate].
  intros [= <- <-]. apply Qlt_bool_iff in E. lra.
Qed.

Lemma length_np_where (cond : cell -> bool) (v : cell) (xs : list cell) :
  length (np_where cond v xs) = length xs.
Proof. unfold np_where. apply length_map. Qed.

Lemma length_clip_values (xs : list cell) : length (clip_values xs) = length xs.
Proof.
  unfold clip_values. destruct (fence xs) as [[lo hi]|]; [|reflexivity].
  now rewrite !length_np_where.
Qed.

Lemma clip_values_map (xs : list cell) (lower upper : Q) :
  fence xs = Some (lower, upper) ->
  clip_values xs = map (clip_cell lower upper) xs.
Proof.
  intros H. unfold clip_values, np_where. rewrite H. now rewrite map_map.
Qed.

Lemma clip_cell_some (lower upper : Q) (x : cell) :
  is_some (clip_cell lower upper x) = is_some x.
Proof.
  unfold clip_cell. destruct x as [q|]; simpl; [|reflexivity].
  destruct (Qlt_bool q lower); simpl.
  - now destruct (Qlt_bool upper lower).
  - now destruct (Qlt_bool upper q).
Qed.

Lemma clip_cell_in_range (lower upper : Q) (x : cell) :
  lower < upper -> in_range lower upper (clip_cell lower upper x).
Proof.
  intros Hlu. unfold clip_cell. destruct x as [q|]; simpl; [|exact I].
  destruct (Qlt_bool q lower) eqn:E1; simpl.
  - destruct (Qlt_bool upper lower) eqn:E2; simpl.
    + apply Qlt_bool_iff in E2. lra.
    + lra.
  - apply Qlt_bool_false_iff in E1.
    destruct (Qlt_bool upper q) eqn:E2; simpl.
    + lra.
    + apply Qlt_bool_false_iff in E2. lra.
Qed.

Lemma clip_cell_fixed (lower upper : Q) (x : cell) :
  in_range lower upper x -> clip_cell lower upper x = x.
Proof.
  unfold clip_cell. destruct x as [q|]; simpl; [|reflexivity].
  intros [H1 H2].
  apply Qlt_bool_false_iff in H1. rewrite H1. simpl.
  apply Qlt_bool_false_iff in H2. now rewrite H2.
Qed.

Lemma clip_values_all_some (xs : list cell) : all_some xs -> all_some (clip_values xs).
Proof.
  intros H. destruct (fence xs) as [[lo hi]|] eqn:E.
  - rewrite (clip_values_map _ E). apply Forall_map.
    eapply Forall_impl; [|exact H]. intros x Hx. simpl. now rewrite clip_cell_some.
  - unfold clip_values. now rewrite E.
Qed.

Lemma clip_values_all_none (xs : list cell) : all_none xs -> all_none (clip_values xs).
Proof.
  intros H. destruct (fence xs) as [[lo hi]|] eqn:E.
  - rewrite (clip_values_map _ E). apply Forall_map.
    eapply Forall_impl; [|exact H]. intros x Hx. simpl in *. now rewrite Hx.
  - unfold clip_values. now rewrite E.
Qed.

Lemma clip_values_in_range (xs : list cell) (lower upper : Q) :
  fence xs = Some (lower, upper) ->
  Forall (in_range lower upper) (clip_values xs).
Proof.
  intros E. rewrite (clip_values_map _ E). apply Forall_map.
  apply Forall_forall. intros x _. apply clip_cell_in_range.
  now apply (fence_ordered xs).
Qed.

Lemma clip_values_fixed (xs : list cell) : inside_fence xs -> clip_values xs = xs.
Proof.
  unfold inside_fence. intros H. destruct (fence xs) as [[lo hi]|] eqn:E.
  - rewrite (clip_values_map _ E).
    rewrite <- (map_id xs) at 2. apply map_ext_Forall.
    eapply Forall_impl; [|exact H]. intros x Hx. now apply clip_cell_fixed.
  - unfold clip_values. now rewrite E.
Qed.

Lemma clip_outliers_cases (col : string) (df df' : DataFrame) :
  clip_outliers col df = Ret df' ->
  (df' = df /\ (get_col col df = None \/ len df = 0%nat))
  \/ exists xs, get_col col df = Some (NumCol xs)
                /\ df' = set_col col (NumCol (clip_values xs)) df.
Proof.
  unfold clip_outliers, has_col.
  destruct (get_col col df) as [[xs|xs]|] eqn:E; simpl.
  - destruct (0 <? len df)%nat eqn:El.
    + intros [= <-]. right. now exists xs.
    + intros [= <-]. left. split; [reflexivity|]. right.
      apply Nat.ltb_ge in El. lia.
  - destruct (0 <? len df)%nat eqn:El; [discriminate|].
    intros [= <-]. left. split; [reflexivity|]. right.
    apply Nat.ltb_ge in El. lia.
  - intros [= <-]. left. auto.
Qed.

Lemma clip_outliers_numeric (col : string) (df : DataFrame) :
  numeric_or_absent col df -> exists df', clip_outliers col df = Ret df'.
Proof.
  unfold numeric_or_absent, clip_outliers, has_col.
  destruct (get_col col df) as [[xs|xs]|]; simpl; intros H; try contradiction;
    destruct (0 <? len df)%nat; eauto.
Qed.

Section ClipStage.
Variables (col : string) (df df' : DataFrame).
Hypothesis Hclip : clip_outliers col df = Ret df'.

Lemma index_clip_outliers : index df' = index df.
Proof.
  destruct (clip_outliers_cases _ _ Hclip) as [[-> _]|(xs & _ & ->)]; reflexivity.
Qed.

Lemma len_clip_outliers : len df' = len df.
Proof. unfold len. now rewrite index_clip_outliers. Qed.

Lemma well_formed_clip_outliers : well_formed df -> well_formed df'.
Proof.
  intros H. destruct (clip_outliers_cases _ _ Hclip) as [[-> _]|(xs & Hget & ->)];
    [exact H|].
  apply well_formed_set_col; [exact H|]. simpl.
  rewrite length_clip_values. apply (well_formed_get_col _ H Hget).
Qed.

Lemma get_col_clip_outliers_other (name : string) :
  name <> col -> get_col name df' = get_col name df.
Proof.
  intros Hne.
  destruct (clip_outliers_cases _ _ Hclip) as [[-> _]|(xs & Hget & ->)];
    [reflexivity|]. now apply get_set_other.
Qed.

Lemma get_col_clip_outliers_na (name : string) (c' : column) :
  get_col name df' = Some c' ->
  exists c, get_col name df = Some c
            /\ (col_all_na c -> col_all_na c')
            /\ (col_no_na c -> col_no_na c').
Proof.
  intros H'.
  destruct (clip_outliers_cases _ _ Hclip) as [[-> _]|(xs & Hget & ->)].
  - exists c'. auto.
  - destruct (String.eqb name col) eqn:E.
    + apply String.eqb_eq in E; subst name. rewrite get_set_same in H'.
      injection H' as <-. exists (NumCol xs). split; [exact Hget|]. simpl.
      split; [apply clip_values_all_none | apply clip_values_all_some].
    + apply String.eqb_neq in E. rewrite get_set_other in H' by exact E.
      exists c'. auto.
Qed.

Lemma filled_clip_outliers : filled df -> filled df'.
Proof.
  intros Hf name c' Hin H'.
  destruct (get_col_clip_outliers_na _ H') as (c & Hget & Hna & Hno).
  destruct (Hf name c Hin Hget); [left | right]; auto.
Qed.

Lemma has_full_col_clip_outliers : has_full_col df -> has_full_col df'.
Proof.
  intros (name & c & Hin & Hget & Hno).
  destruct (clip_outliers_cases _ _ Hclip) as [[-> _]|(xs & Hx & ->)].
  - now exists name, c.
  - destruct (String.eqb name col) eqn:E.
    + apply String.eqb_eq in E; subst name.
      exists col, (NumCol (clip_values xs)). split; [exact Hin|].
      split; [apply get_set_same|].
      rewrite Hx in Hget. injection Hget as <-. simpl in *.
      now apply clip_values_all_some.
    + apply String.eqb_neq in E. exists name, c. split; [exact Hin|].
      split; [|exact Hno]. now rewrite get_set_other.
Qed.

Lemma numeric_clip_outliers (name : string) :
  numeric_or_absent name df -> numeric_or_absent name df'.
Proof.
  unfold numeric_or_absent.
  destruct (clip_outliers_cases _ _ Hclip) as [[-> _]|(xs & Hx & ->)]; [auto|].
  destruct (String.eqb name col) eqn:E.
  - apply String.eqb_eq in E; subst name. now rewrite get_set_same.
  - apply String.eqb_neq in E. now rewrite get_set_other.
Qed.
End ClipStage.

Lemma clip_outliers_ran_numeric (col : string) (df df' : DataFrame) :
  clip_outliers col df = Ret df' -> (0 < len df)%nat -> numeric_or_absent col df'.
Proof.
  intros Hclip Hlen. unfold numeric_or_absent.
  destruct (clip_outliers_cases _ _ Hclip) as [[-> [Hn|Hz]]|(xs & Hx & ->)].
  - now rewrite Hn.
  - lia.
  - now rewrite get_set_same.
Qed.

(** Clipping changes nothing in a column that lies inside its fence. *)
Lemma clip_outliers_fixed (col : string) (df : DataFrame) :
  numeric_or_absent col df ->
  (forall xs, get_col col df = Some (NumCol xs) -> inside_fence xs) ->
  clip_outliers col df = Ret df.
Proof.
  unfold numeric_or_absent, clip_outliers, has_col. intros Hnum Hin.
  destruct (get_col col df) as [[xs|xs]|] eqn:E; simpl; try contradiction;
    [|reflexivity].
  destruct (0 <? len df)%nat; [|reflexivity].
  rewrite clip_values_fixed by (now apply Hin).
  now rewrite set_col_same_id by exact E.
Qed.

(** *** Sorting by the index *)

Lemma length_index_positions (df : DataFrame) :
  length (index_positions df) = len df.
Proof.
  unfold index_positions, len. destruct (index df); simpl;
    apply length_sort_positions.
Qed.

Lemma index_positions_range (df : DataFrame) :
  Forall (fun p => (p < len df)%nat) (index_positions df).
Proof.
  unfold index_positions, len. destruct (index df) as [ds|ks]; simpl.
  - apply (sort_positions_range date_leb {| year := 0; month := 0; day := 0 |}).
  - apply (sort_positions_range Z.leb 0%Z).
Qed.

Lemma columns_sort_index (df : DataFrame) :
  columns (sort_index df) = map_cols (col_take (index_positions df)) (columns df).
Proof. unfold sort_index, index_positions. now destruct (index df). Qed.

Lemma len_sort_index (df : DataFrame) : len (sort_index df) = len df.
Proof.
  unfold sort_index, len. destruct (index df); simpl; unfold take_rows;
    rewrite length_map; apply length_sort_positions.
Qed.

Lemma get_col_sort_index (name : string) (df : DataFrame) :
  get_col name (sort_index df)
  = option_map (col_take (index_positions df)) (get_col name df).
Proof. unfold get_col. rewrite columns_sort_index. apply lookup_map_cols. Qed.

Lemma well_formed_sort_index (df : DataFrame) : well_formed (sort_index df).
Proof.
  unfold well_formed. rewrite len_sort_index, columns_sort_index.
  unfold map_cols. apply Forall_map. apply Forall_forall. intros [n c] _. simpl.
  rewrite col_len_take. apply length_index_positions.
Qed.

Lemma index_sorted_sort_index (df : DataFrame) : index_sorted (sort_index df).
Proof.
  unfold index_sorted, sort_index. destruct (index df) as [ds|ks]; simpl.
  - apply sorted_take_rows_sort_positions. apply date_leb_total.
  - apply sorted_take_rows_sort_positions. apply Zleb_total.
Qed.

Lemma sort_index_fixed (df : DataFrame) :
  well_formed df -> index_sorted df -> sort_index df = df.
Proof.
  intros Hwf Hs.
  assert (Hp : index_positions df = seq 0 (len df)).
  { unfold index_positions, len. unfold index_sorted in Hs.
    destruct (index df); simpl; now apply sort_positions_sorted. }
  assert (Hc : map_cols (col_take (index_positions df)) (columns df) = columns df).
  { apply map_cols_id. eapply Forall_impl; [|exact Hwf].
    intros [n c] Hlen; simpl in *. rewrite Hp, <- Hlen. apply col_take_seq. }
  unfold index_positions in Hc, Hp. unfold sort_index.
  unfold index_sorted in Hs. unfold len in Hp.
  destruct df as [ix cols]; simpl in *.
  destruct ix as [ds|ks]; simpl in *; rewrite Hc; rewrite Hp;
    now rewrite take_rows_seq.
Qed.

Lemma filled_sort_index (df : DataFrame) :
  well_formed df -> filled df -> filled (sort_index df).
Proof.
  intros Hwf Hf name c' Hin H'. rewrite get_col_sort_index in H'.
  destruct (get_col name df) as [c|] eqn:E; simpl in H'; [|discriminate].
  injection H' as <-.
  assert (Hr : Forall (fun p => (p < col_len c)%nat) (index_positions df)).
  { rewrite (well_formed_get_col _ Hwf E). apply index_positions_range. }
  destruct (Hf name c Hin E); [left | right].
  - now apply col_take_all_na.
  - now apply col_take_no_na.
Qed.

Lemma has_full_col_sort_index (df : DataFrame) :
  well_formed df -> has_full_col df -> has_full_col (sort_index df).
Proof.
  intros Hwf (name & c & Hin & Hget & Hno).
  exists name, (col_take (index_positions df) c). split; [exact Hin|]. split.
  - now rewrite get_col_sort_index, Hget.
  - apply col_take_no_na; [|exact Hno].
    rewrite (well_formed_get_col _ Hwf Hget). apply index_positions_range.
Qed.

Lemma numeric_sort_index (name : string) (df : DataFrame) :
  numeric_or_absent name df -> numeric_or_absent name (sort_index df).
Proof.
  unfold numeric_or_absent. rewrite get_col_sort_index.
  now destruct (get_col name df) as [[|]|].
Qed.
(** *** The cleaned frame *)

Lemma fill_and_drop_eq (df : DataFrame) :
  fill_and_drop df = dropna_all (present_ohlcv (fill_columns df)) (fill_columns df).
Proof. reflexivity. Qed.

Lemma clean_data_unfold (df : DataFrame) :
  empty df = false ->
  clean_data df
  = (let! d1 := clip_outliers "close" (fill_and_drop df) in
     let! d2 := clip_outliers "volume" d1 in
     Ret (sort_index d2)).
Proof. intros H. unfold clean_data. now rewrite H. Qed.

Lemma well_formed_fill_and_drop (df : DataFrame) :
  well_formed df -> well_formed (fill_and_drop df).
Proof.
  intros H. rewrite fill_and_drop_eq.
  now apply well_formed_dropna, well_formed_fill_columns.
Qed.

Lemma filled_fill_and_drop (df : DataFrame) : filled (fill_and_drop df).
Proof. rewrite fill_and_drop_eq. apply filled_dropna, filled_fill_columns. Qed.

Lemma has_full_col_fill_and_drop (df : DataFrame) :
  (0 < len (fill_and_drop df))%nat -> has_full_col (fill_and_drop df).
Proof.
  rewrite fill_and_drop_eq. apply has_full_col_dropna, filled_fill_columns.
Qed.

Lemma empty_of_len (df : DataFrame) : len df = 0%nat -> empty df = true.
Proof. intros H. unfold empty. now rewrite H. Qed.

Lemma len_of_nonempty (df : DataFrame) : empty df = false -> (0 < len df)%nat.
Proof.
  unfold empty. rewrite orb_false_iff. intros [H _].
  apply Nat.eqb_neq in H. lia.
Qed.

(** What [clean_data] returns is empty or cleaned. *)
Lemma clean_data_cleaned (df c : DataFrame) :
  well_formed df -> clean_data df = Ret c -> empty c = true \/ cleaned c.
Proof.
  intros Hwf Hc. destruct (empty df) eqn:He.
  - unfold clean_data in Hc. rewrite He in Hc. injection Hc as <-. now left.
  - rewrite (clean_data_unfold _ He) in Hc.
    destruct (clip_outliers "close" (fill_and_drop df)) as [d1|] eqn:E1;
      simpl in Hc; [|discriminate].
    destruct (clip_outliers "volume" d1) as [d2|] eqn:E2;
      simpl in Hc; [|discriminate].
    injection Hc as <-.
    assert (Hl1 : len d1 = len (fill_and_drop df)) by apply (@len_clip_outliers _ _ _ E1).
    assert (Hl2 : len d2 = len d1) by apply (@len_clip_outliers _ _ _ E2).
    assert (Hw1 : well_formed d1)
      by (apply (@well_formed_clip_outliers _ _ _ E1); now apply well_formed_fill_and_drop).
    assert (Hw2 : well_formed d2) by now apply (@well_formed_clip_outliers _ _ _ E2).
    destruct (Nat.eq_0_gt_0_cases (len (fill_and_drop df))) as [Hz|Hpos].
    + left. apply empty_of_len. rewrite len_sort_index. lia.
    + right. constructor.
      * apply well_formed_sort_index.
      * apply filled_sort_index; [exact Hw2|].
        apply (@filled_clip_outliers _ _ _ E2), (@filled_clip_outliers _ _ _ E1).
        apply filled_fill_and_drop.
      * apply has_full_col_sort_index; [exact Hw2|].
        apply (@has_full_col_clip_outliers _ _ _ E2), (@has_full_col_clip_outliers _ _ _ E1).
        now apply has_full_col_fill_and_drop.
      * apply index_sorted_sort_index.
      * apply numeric_sort_index, (@numeric_clip_outliers _ _ _ E2).
        now apply (clip_outliers_ran_numeric _ _ E1).
      * apply numeric_sort_index.
        apply (clip_outliers_ran_numeric _ _ E2). lia.
Qed.

Lemma index_sorted_ext (a b : DataFrame) :
  index a = index b -> index_sorted b -> index_sorted a.
Proof. unfold index_sorted. now intros ->. Qed.

Lemma index_positions_ext (a b : DataFrame) :
  index a = index b -> index_positions a = index_positions b.
Proof. unfold index_positions. now intros ->. Qed.

(** On a cleaned frame the fill loop, the row drop and the sort change
    nothing: a second pass only clips. *)
Lemma clean_data_again (c : DataFrame) :
  cleaned c -> empty c = false ->
  clean_data c
  = (let! c1 := clip_outliers "close" c in clip_outliers "volume" c1).
Proof.
  intros [Hwf Hf Hfull Hs Hnc Hnv] He.
  rewrite (clean_data_unfold _ He), fill_and_drop_eq.
  rewrite (fill_columns_fixed Hf), (dropna_fixed Hwf Hfull).
  destruct (clip_outliers "close" c) as [c1|] eqn:E1; simpl; [|reflexivity].
  destruct (clip_outliers "volume" c1) as [c2|] eqn:E2; simpl; [|reflexivity].
  f_equal. apply sort_index_fixed.
  - apply (@well_formed_clip_outliers _ _ _ E2), (@well_formed_clip_outliers _ _ _ E1), Hwf.
  - apply (index_sorted_ext c2 c); [|exact Hs].
    now rewrite (@index_clip_outliers _ _ _ E2), (@index_clip_outliers _ _ _ E1).
Qed.

(** C1 (as amended): a second pass of [clean_data] over its own output
    returns the identical frame whenever the close and volume columns of
    that output lie inside the fences recomputed from them (or have no
    positive IQR); the fill loop, the row drop and the sort never change a
    cleaned frame, only the clipping with recomputed quartiles can. *)
Theorem clean_data_idempotent_inside_fence (df c : DataFrame) :
  well_formed df ->
  clean_data df = Ret c ->
  (forall col xs, In col ["close"; "volume"] ->
                  get_col col c = Some (NumCol xs) -> inside_fence xs) ->
  clean_data c = Ret c.
Proof.
  intros Hwf Hc Hin.
  destruct (empty c) eqn:He.
  - unfold clean_data. now rewrite He.
  - destruct (clean_data_cleaned Hwf Hc) as [Hemp|Hcl]; [congruence|].
    rewrite (clean_data_again Hcl He).
    rewrite clip_outliers_fixed; simpl.
    + apply clip_outliers_fixed; [apply Hcl|].
      intros xs. apply Hin. simpl; auto.
    + apply Hcl.
    + intros xs. apply Hin. simpl; auto.
Qed.

Lemma in_range_intro (lower upper q : Q) :
  Qle_bool lower q = true -> Qle_bool q upper = true -> in_range lower upper (Some q).
Proof. intros H1 H2. split; now apply Qle_bool_iff. Qed.

Lemma clean_data_idempotent_inside_fence_witness :
  exists c, clean_data ragged_frame = Ret c /\ clean_data c = Ret c.
Proof.
  eexists. split.
  - vm_compute. reflexivity.
  - apply (@clean_data_idempotent_inside_fence ragged_frame).
    + apply well_formed_iff. vm_compute. reflexivity.
    + vm_compute. reflexivity.
    + intros col xs [<-|[<-|[]]] H; vm_compute in H; injection H as <-;
        unfold inside_fence;
        match goal with
        | |- match ?f with _ => _ end =>
            let v := eval vm_compute in f in change f with v
        end; cbv beta iota;
        repeat (constructor; [apply in_range_intro; vm_compute; reflexivity|]);
        constructor.
Defined.

(** C1 (as stated) fails: cleaning [0; 100; 100; 100] clips the low close
    to 75/2; the quartiles of the clipped series give a narrower fence, and
    a second pass moves the same value to 975/16. *)
Lemma clean_data_not_idempotent :
  exists once twice ys ys',
    clean_data skewed_frame = Ret once
    /\ clean_data once = Ret twice
    /\ num_values "close" once = Some ys
    /\ num_values "close" twice = Some ys'
    /\ cells_eqb ys [Some (75#2); Some 100; Some 100; Some 100] = true
    /\ cells_eqb ys' [Some (975#16); Some 100; Some 100; Some 100] = true
    /\ cells_eqb ys' ys = false.
Proof.
  do 4 eexists. split; [vm_compute; reflexivity|].
  split; [vm_compute; reflexivity|].
  split; [vm_compute; reflexivity|].
  split; [vm_compute; reflexivity|].
  repeat split; vm_compute; reflexivity.
Qed.
(** *** The clipping bound *)

Lemma valid_all_none (xs : list cell) : all_none xs -> valid xs = [].
Proof.
  induction 1 as [|x xs Hx _ IH]; simpl; [reflexivity|]. now rewrite Hx.
Qed.

Lemma quantile_all_none (q : Q) (xs : list cell) :
  all_none xs -> quantile q xs = None.
Proof. intros H. unfold quantile. now rewrite (valid_all_none H). Qed.

Lemma numeric_fill_columns (col : string) (df : DataFrame) :
  numeric_or_absent col df -> numeric_or_absent col (fill_columns df).
Proof.
  unfold numeric_or_absent.
  rewrite fill_columns_fold, (get_col_fold_fill ohlcv_cols_NoDup).
  destruct (existsb (String.eqb col) ohlcv_cols);
    now destruct (get_col col df) as [[|]|].
Qed.

Lemma numeric_dropna (subset : list string) (col : string) (df : DataFrame) :
  numeric_or_absent col df -> numeric_or_absent col (dropna_all subset df).
Proof.
  unfold numeric_or_absent. rewrite get_col_dropna.
  now destruct (get_col col df) as [[|]|].
Qed.

Lemma numeric_fill_and_drop (col : string) (df : DataFrame) :
  numeric_or_absent col df -> numeric_or_absent col (fill_and_drop df).
Proof.
  intros H. rewrite fill_and_drop_eq. now apply numeric_dropna, numeric_fill_columns.
Qed.

Lemma num_values_get (col : string) (df : DataFrame) (xs : list cell) :
  num_values col df = Some xs <-> get_col col df = Some (NumCol xs).
Proof.
  unfold num_values. destruct (get_col col df) as [[ys|ys]|]; split; congruence.
Qed.

Lemma clip_outliers_get_same (col : string) (df df' : DataFrame) (xs : list cell) :
  clip_outliers col df = Ret df' -> (0 < len df)%nat ->
  get_col col df = Some (NumCol xs) ->
  get_col col df' = Some (NumCol (clip_values xs)).
Proof.
  intros Hclip Hlen Hget.
  destruct (clip_outliers_cases _ _ Hclip) as [[-> [Hn|Hz]]|(ys & Hy & ->)].
  - congruence.
  - lia.
  - rewrite Hy in Hget. injection Hget as <-. apply get_set_same.
Qed.

Lemma fence_positive (xs : list cell) (Q1 Q3 : Q) :
  quantile (1#4) xs = Some Q1 -> quantile (3#4) xs = Some Q3 -> 0 < Q3 - Q1 ->
  fence xs = Some (Q1 - (3#2) * (Q3 - Q1), Q3 + (3#2) * (Q3 - Q1)).
Proof.
  intros H1 H3 Hpos. unfold fence. rewrite H1, H3.
  apply Qlt_bool_iff in Hpos. now rewrite Hpos.
Qed.

Lemma fence_degenerate (xs : list cell) (Q1 Q3 : Q) :
  quantile (1#4) xs = Some Q1 -> quantile (3#4) xs = Some Q3 -> Q3 - Q1 == 0 ->
  fence xs = None.
Proof.
  intros H1 H3 Hz. unfold fence. rewrite H1, H3.
  assert (H : Qlt_bool 0 (Q3 - Q1) = false) by (apply Qlt_bool_false_iff; lra).
  now rewrite H.
Qed.

(** The two clipped columns of the result, in terms of the frame at the
    start of the clipping step. *)
Lemma clean_data_clipped_column (df : DataFrame) :
  well_formed df -> empty df = false ->
  numeric_or_absent "close" df -> numeric_or_absent "volume" df ->
  exists out,
    clean_data df = Ret out
    /\ forall col xs,
        In col ["close"; "volume"] ->
        get_col col (fill_and_drop df) = Some (NumCol xs) ->
        (0 < len (fill_and_drop df))%nat ->
        get_col col out
        = Some (NumCol (take_rows None (index_positions (fill_and_drop df))
                                  (clip_values xs))).
Proof.
  intros Hwf He Hnc Hnv. rewrite (clean_data_unfold _ He).
  set (d0 := fill_and_drop df).
  destruct (clip_outliers_numeric "close" d0 (numeric_fill_and_drop _ _ Hnc))
    as [d1 E1].
  assert (Hnv1 : numeric_or_absent "volume" d1).
  { apply (@numeric_clip_outliers _ _ _ E1). now apply numeric_fill_and_drop. }
  destruct (clip_outliers_numeric "volume" d1 Hnv1) as [d2 E2].
  exists (sort_index d2). rewrite E1; simpl. rewrite E2; simpl.
  split; [reflexivity|].
  assert (Hix : index d2 = index d0)
    by now rewrite (@index_clip_outliers _ _ _ E2), (@index_clip_outliers _ _ _ E1).
  assert (Hl1 : len d1 = len d0) by apply (@len_clip_outliers _ _ _ E1).
  intros col xs Hcol Hget Hpos.
  rewrite get_col_sort_index, (index_positions_ext d2 d0 Hix).
  destruct Hcol as [<-|[<-|[]]].
  - rewrite (@get_col_clip_outliers_other _ _ _ E2) by discriminate.
    now rewrite (@clip_outliers_get_same _ _ _ _ E1 Hpos Hget).
  - rewrite <- (@get_col_clip_outliers_other _ _ _ E1 "volume") in Hget by discriminate.
    rewrite (@clip_outliers_get_same _ _ _ xs E2); [reflexivity | lia | exact Hget].
Qed.

(** C3 (as amended): for a non-empty series with numeric close and volume,
    [clean_data] returns, and for each of the two columns, with Q1 and Q3 the
    quartiles of the column at the start of the clipping step: when the IQR
    is positive every value of the result is a number inside
    [Q1 - 1.5 IQR, Q3 + 1.5 IQR]; when the IQR is zero the clipping step
    leaves the column as it was (and then nothing bounds its values). *)
Theorem clean_data_clipping_bound (df : DataFrame) :
  well_formed df -> empty df = false ->
  numeric_or_absent "close" df -> numeric_or_absent "volume" df ->
  exists out,
    clean_data df = Ret out
    /\ forall col xs Q1 Q3,
        In col ["close"; "volume"] ->
        num_values col (fill_and_drop df) = Some xs ->
        quantile (1#4) xs = Some Q1 ->
        quantile (3#4) xs = Some Q3 ->
        (0 < Q3 - Q1 ->
         exists ys,
           num_values col out = Some ys
           /\ Forall (fun y => exists v, y = Some v
                                         /\ Q1 - (3#2) * (Q3 - Q1) <= v
                                         /\ v <= Q3 + (3#2) * (Q3 - Q1)) ys)
        /\ (Q3 - Q1 == 0 ->
            get_col col out = get_col col (sort_index (fill_and_drop df))).
Proof.
  intros Hwf He Hnc Hnv.
  destruct (clean_data_clipped_column Hwf He Hnc Hnv) as (out & Hout & Hcols).
  exists out. split; [exact Hout|].
  intros col xs Q1 Q3 Hcol Hnum H1 H3.
  apply num_values_get in Hnum.
  assert (Hw0 : well_formed (fill_and_drop df)) by now apply well_formed_fill_and_drop.
  assert (Hlen : length xs = len (fill_and_drop df))
    by (change (col_len (NumCol xs) = len (fill_and_drop df));
        eapply well_formed_get_col; eauto).
  assert (Hsome : all_some xs).
  { assert (Hin : In col ohlcv_cols)
      by (destruct Hcol as [<-|[<-|[]]]; simpl; tauto).
    destruct (filled_fill_and_drop df Hin Hnum) as [Hna|Hno]; [|exact Hno].
    simpl in Hna. rewrite (quantile_all_none _ Hna) in H1. discriminate. }
  assert (Hpos : (0 < len (fill_and_drop df))%nat).
  { rewrite <- Hlen. destruct xs; [discriminate H1 | simpl; lia]. }
  specialize (Hcols col xs Hcol Hnum Hpos).
  assert (Hrange : Forall (fun p => (p < length (clip_values xs))%nat)
                          (index_positions (fill_and_drop df))).
  { rewrite length_clip_values, Hlen. apply index_positions_range. }
  split.
  - intros Hiqr. eexists. split; [apply num_values_get; exact Hcols|].
    apply Forall_take_rows; [|exact Hrange].
    pose proof (clip_values_in_range xs (fence_positive _ H1 H3 Hiqr)) as Hin.
    pose proof (clip_values_all_some Hsome) as Hs.
    unfold all_some in Hs. rewrite Forall_forall in *.
    intros y Hy. specialize (Hin y Hy). specialize (Hs y Hy).
    destruct y as [v|]; [|discriminate]. exists v. simpl in Hin. tauto.
  - intros Hz. rewrite Hcols, get_col_sort_index, Hnum. simpl.
    unfold clip_values. now rewrite (fence_degenerate _ H1 H3 Hz).
Qed.

Lemma clean_data_clipping_bound_witness :
  exists out,
    clean_data ragged_frame = Ret out
    /\ forall col xs Q1 Q3,
        In col ["close"; "volume"] ->
        num_values col (fill_and_drop ragged_frame) = Some xs ->
        quantile (1#4) xs = Some Q1 ->
        quantile (3#4) xs = Some Q3 ->
        (0 < Q3 - Q1 ->
         exists ys,
           num_values col out = Some ys
           /\ Forall (fun y => exists v, y = Some v
                                         /\ Q1 - (3#2) * (Q3 - Q1) <= v
                                         /\ v <= Q3 + (3#2) * (Q3 - Q1)) ys)
        /\ (Q3 - Q1 == 0 ->
            get_col col out = get_col col (sort_index (fill_and_drop ragged_frame))).
Proof.
  apply (@clean_data_clipping_bound ragged_frame).
  - apply well_formed_iff. vm_compute. reflexivity.
  - vm_compute. reflexivity.
  - vm_compute. exact I.
  - vm_compute. exact I.
Defined.

(** C3 (as stated) fails: in [1;1;1;1;1;1;1;100] both quartiles are 1, the
    IQR is 0, the clipping step is skipped, and the close of 100 stays
    outside [Q1 - 1.5 IQR, Q3 + 1.5 IQR] = [1, 1]. *)
Lemma clipping_bound_fails_zero_iqr :
  exists out xs ys Q1 Q3,
    clean_data flat_frame = Ret out
    /\ num_values "close" (fill_and_drop flat_frame) = Some xs
    /\ quantile (1#4) xs = Some Q1
    /\ quantile (3#4) xs = Some Q3
    /\ Q1 == 1 /\ Q3 == 1
    /\ num_values "close" out = Some ys
    /\ In (Some 100) ys
    /\ ~ (100 <= Q3 + (3#2) * (Q3 - Q1)).
Proof.
  do 5 eexists. split; [vm_compute; reflexivity|].
  split; [vm_compute; reflexivity|].
  split; [vm_compute; reflexivity|].
  split; [vm_compute; reflexivity|].
  split; [reflexivity|]. split; [reflexivity|].
  split; [vm_compute; reflexivity|].
  split; [simpl; tauto|].
  intros H. apply Qle_bool_iff in H. vm_compute in H. discriminate.
Qed.
(** ** Feature engineer: indicator gating *)

Ltac col_lookup :=
  try unfold has_col;
  repeat first [ rewrite get_set_same
               | rewrite get_set_other by discriminate ].

Ltac gating_finish :=
  split; [| split; [| split]];
  [ intros name m Hin; simpl in Hin;
    repeat (destruct Hin as [Hin|Hin];
            [injection Hin as <- <-; split; intros Hm; try lia;
             col_lookup; reflexivity|]);
    contradiction
  | col_lookup; reflexivity
  | intros H;
    cbn [is_some] in H;
    first [discriminate H | col_lookup; reflexivity]
  | intros H;
    cbn [is_some] in H;
    first [discriminate H | col_lookup; reflexivity] ].

Lemma numeric_present (name : string) (df : DataFrame) :
  has_col name df = true -> numeric_or_absent name df ->
  exists xs, get_col name df = Some (NumCol xs).
Proof.
  unfold has_col, numeric_or_absent.
  destruct (get_col name df) as [[xs|xs]|]; simpl; try discriminate; try tauto.
  eauto.
Qed.

(** Which columns [transform_data] writes, gate by gate. *)
Lemma transform_data_gates (sqrtQ : Q -> Q) (df : DataFrame) :
  empty df = false ->
  has_col "close" df = true ->
  numeric_or_absent "close" df ->
  numeric_or_absent "open" df ->
  exists out,
    transform_data sqrtQ df = Ret out
    /\ (forall name m,
           In (name, m) gated_indicators ->
           ((m <= len df)%nat -> has_col name out = true)
           /\ ((len df < m)%nat -> get_col name out = get_col name df))
    /\ has_col "Daily_Return" out = true
    /\ (has_col "open" df = true -> has_col "Close_Open_Diff" out = true)
    /\ (has_col "open" df = false ->
        get_col "Close_Open_Diff" out = get_col "Close_Open_Diff" df).
Proof.
  intros He Hc Hnc Hno.
  destruct (numeric_present _ _ Hc Hnc) as [close Hclose].
  unfold transform_data. rewrite He, Hc.
  set (b10 := (10 <=? len df)%nat). set (b50 := (50 <=? len df)%nat).
  set (b20 := (20 <=? len df)%nat). set (b14 := (14 <=? len df)%nat).
  cbn [negb]. unfold numeric at 1. rewrite Hclose. cbn [obind].
  assert (Hopen : (exists op, get_col "open" df = Some (NumCol op))
                  \/ get_col "open" df = None).
  { unfold numeric_or_absent in Hno.
    destruct (get_col "open" df) as [[op|op]|]; [left; eauto | contradiction | now right]. }
  subst b10 b50 b20 b14.
  destruct (Nat.leb_spec 10 (len df)) as [E10|E10];
  destruct (Nat.leb_spec 50 (len df)) as [E50|E50];
  destruct (Nat.leb_spec 20 (len df)) as [E20|E20];
  destruct (Nat.leb_spec 14 (len df)) as [E14|E14];
  try lia;
  (destruct Hopen as [[op Hop]|Hop];
   unfold numeric; col_lookup; rewrite Hop; cbn [is_some obind];
   eexists; (split; [reflexivity|]); gating_finish).
Qed.

(** C2: on a non-empty series with a (numeric) close column of length L,
    [transform_data] returns and has written SMA_50, EMA_50, the four
    Bollinger columns, RSI and Volatility_20D exactly when L reaches the
    indicator's minimum length (50, 50, 20, 14, 20): the column is there
    when L reaches it, and below it the column is not written at all, so a
    series that did not carry it still does not.  Daily_Return is always
    written, Close_Open_Diff exactly when there is an open column. *)
Theorem transform_data_indicator_gating (sqrtQ : Q -> Q) (df : DataFrame) :
  empty df = false ->
  has_col "close" df = true ->
  numeric_or_absent "close" df ->
  numeric_or_absent "open" df ->
  exists out,
    transform_data sqrtQ df = Ret out
    /\ (forall name m,
           In (name, m) gated_indicators ->
           ((m <= len df)%nat -> has_col name out = true)
           /\ ((len df < m)%nat -> get_col name out = get_col name df)
           /\ (has_col name df = false -> has_col name out = (m <=? len df)%nat))
    /\ has_col "Daily_Return" out = true
    /\ (has_col "open" df = true -> has_col "Close_Open_Diff" out = true)
    /\ (has_col "open" df = false ->
        get_col "Close_Open_Diff" out = get_col "Close_Open_Diff" df).
Proof.
  intros He Hc Hnc Hno.
  destruct (@transform_data_gates sqrtQ df He Hc Hnc Hno)
    as (out & Hout & Hgates & Hret & Hopen & Hnoopen).
  exists out. split; [exact Hout|]. split; [|tauto].
  intros name m Hin. destruct (Hgates name m Hin) as [Hge Hlt].
  split; [exact Hge|]. split; [exact Hlt|].
  intros Habsent. destruct (Nat.leb_spec m (len df)) as [Hle|Hgt].
  - now apply Hge.
  - unfold has_col in *. now rewrite (Hlt Hgt).
Qed.

Lemma transform_data_indicator_gating_witness :
  exists out,
    transform_data approx_sqrt (zigzag_frame 60) = Ret out
    /\ (forall name m,
           In (name, m) gated_indicators ->
           ((m <= len (zigzag_frame 60))%nat -> has_col name out = true)
           /\ ((len (zigzag_frame 60) < m)%nat ->
               get_col name out = get_col name (zigzag_frame 60))
           /\ (has_col name (zigzag_frame 60) = false ->
               has_col name out = (m <=? len (zigzag_frame 60))%nat))
    /\ has_col "Daily_Return" out = true
    /\ (has_col "open" (zigzag_frame 60) = true ->
        has_col "Close_Open_Diff" out = true)
    /\ (has_col "open" (zigzag_frame 60) = false ->
        get_col "Close_Open_Diff" out = get_col "Close_Open_Diff" (zigzag_frame 60)).
Proof.
  apply (@transform_data_indicator_gating approx_sqrt (zigzag_frame 60)).
  - vm_compute. reflexivity.
  - vm_compute. reflexivity.
  - vm_compute. exact I.
  - vm_compute. exact I.
Defined.
(** ** Feature engineer: the relative strength index *)

Lemma firstn_skipn_seq (A : Type) (d : A) (xs : list A) :
  forall start count,
    (start + count <= length xs)%nat ->
    firstn count (skipn start xs) = map (fun j => nth j xs d) (seq start count).
Proof.
  induction xs as [|x xs IH]; intros start count H; simpl in H.
  - assert (start = 0%nat) by lia. assert (count = 0%nat) by lia. now subst.
  - destruct start as [|start].
    + simpl skipn. destruct count as [|count]; [reflexivity|].
      simpl. f_equal. rewrite <- seq_shift, map_map.
      rewrite <- (IH 0%nat count) by lia. reflexivity.
    + simpl skipn. rewrite (IH start count) by lia.
      rewrite <- seq_shift, map_map. reflexivity.
Qed.

Lemma window_seq (A : Type) (d : A) (w i : nat) (xs : list A) :
  (i < length xs)%nat ->
  window w i xs
  = map (fun j => nth j xs d) (seq (S i - w) (S i - (S i - w))).
Proof. intros H. unfold window. apply firstn_skipn_seq. lia. Qed.

Lemma nth_map_in (A B : Type) (f : A -> B) (d : A) (d' : B) (xs : list A) (i : nat) :
  (i < length xs)%nat -> nth i (map f xs) d' = f (nth i xs d).
Proof.
  intros H. rewrite (nth_indep _ d' (f d)) by now rewrite length_map.
  apply map_nth.
Qed.

Lemma nth_rolling (A B : Type) (w : nat) (agg : list A -> B) (d : B) (xs : list A) (i : nat) :
  (i < length xs)%nat -> nth i (rolling w agg xs) d = agg (window w i xs).
Proof.
  intros H. unfold rolling.
  rewrite (nth_map_in _ 0%nat) by now rewrite length_seq.
  now rewrite seq_nth.
Qed.

Lemma length_rolling (A B : Type) (w : nat) (agg : list A -> B) (xs : list A) :
  length (rolling w agg xs) = length xs.
Proof. unfold rolling. now rewrite length_map, length_seq. Qed.

Lemma length_zip_with (A B C : Type) (f : A -> B -> C) (xs : list A) :
  forall ys, length (zip_with f xs ys) = Nat.min (length xs) (length ys).
Proof. induction xs as [|x xs IH]; intros [|y ys]; simpl; auto. Qed.

Lemma nth_zip_with (A B C : Type) (f : A -> B -> C) (dx : A) (dy : B) (d : C)
      (xs : list A) :
  forall ys i, (i < length xs)%nat -> (i < length ys)%nat ->
               nth i (zip_with f xs ys) d = f (nth i xs dx) (nth i ys dy).
Proof.
  induction xs as [|x xs IH]; intros [|y ys] [|i] Hx Hy; simpl in *; try lia; auto.
  apply IH; lia.
Qed.

Lemma length_diff (xs : list cell) : length (diff xs) = length xs.
Proof.
  destruct xs as [|x xs]; simpl; [reflexivity|].
  rewrite length_zip_with. simpl. lia.
Qed.

Lemma nth_diff (close : list cell) (j : nat) :
  (j < length close)%nat -> nth j (diff close) None = spec_delta close j.
Proof.
  intros H. destruct close as [|x xs]; simpl in H; [lia|].
  destruct j as [|k]; simpl; [reflexivity|].
  rewrite (nth_zip_with cell_sub None None) by (simpl; lia).
  reflexivity.
Qed.

Lemma length_where (cond : cell -> bool) (other : cell) (xs : list cell) :
  length (where_ cond other xs) = length xs.
Proof. unfold where_. apply length_map. Qed.

Lemma nth_gain_series (close : list cell) (j : nat) :
  (j < length close)%nat ->
  nth j (where_ (fun d => cell_gt d 0) (Some 0) (diff close)) None
  = Some (spec_gain_term close j).
Proof.
  intros H. unfold where_.
  rewrite (nth_map_in _ None) by now rewrite length_diff.
  rewrite (nth_diff _ H). unfold spec_gain_term.
  destruct (spec_delta close j) as [d|]; simpl; [|reflexivity].
  now destruct (Qlt_bool 0 d).
Qed.

Lemma nth_loss_series (close : list cell) (j : nat) :
  (j < length close)%nat ->
  nth j (map cell_opp (where_ (fun d => cell_lt d 0) (Some 0) (diff close))) None
  = Some (spec_loss_term close j).
Proof.
  intros H. unfold where_. rewrite map_map.
  rewrite (nth_map_in _ None) by now rewrite length_diff.
  rewrite (nth_diff _ H). unfold spec_loss_term.
  destruct (spec_delta close j) as [d|]; simpl; [|reflexivity].
  now destruct (Qlt_bool d 0).
Qed.

Lemma valid_map_some (A : Type) (term : A -> Q) (l : list A) :
  valid (map (fun j => Some (term j)) l) = map term l.
Proof. induction l as [|a l IH]; simpl; [reflexivity|]. now rewrite IH. Qed.

(** The rolling mean of a series without gaps is the mean over the
    trailing window, position by position. *)
Lemma rolling_mean_terms (term : nat -> Q) (xs : list cell) (i : nat) :
  (i < length xs)%nat ->
  (forall j, (j < length xs)%nat -> nth j xs None = Some (term j)) ->
  nth i (rolling 14 mean xs) None = Some (spec_rolling_mean term i).
Proof.
  intros Hi Hterm. rewrite nth_rolling by exact Hi.
  rewrite (window_seq None) by exact Hi.
  assert (Hw : map (fun j => nth j xs None) (seq (S i - 14) (S i - (S i - 14)))
               = map (fun j => Some (term j)) (seq (S i - 14) (S i - (S i - 14)))).
  { apply map_ext_in. intros j Hj. apply in_seq in Hj. apply Hterm. lia. }
  rewrite Hw. unfold mean. rewrite valid_map_some.
  unfold spec_rolling_mean.
  destruct (S i - (S i - 14))%nat as [|c] eqn:Ec; [lia|].
  rewrite length_map, length_seq. reflexivity.
Qed.

Lemma Qsum_nonneg (qs : list Q) : Forall (fun q => 0 <= q) qs -> 0 <= Qsum qs.
Proof.
  induction 1 as [|q qs Hq _ IH]; simpl; [apply Qle_refl|].
  change 0 with (0 + 0). now apply Qplus_le_compat.
Qed.

Lemma Qofnat_pos (n : nat) : (0 < n)%nat -> 0 < Qofnat n.
Proof.
  intros H. unfold Qofnat, Qlt, inject_Z. simpl. lia.
Qed.

Lemma Qdiv_nonneg (a b : Q) : 0 <= a -> 0 < b -> 0 <= a / b.
Proof.
  intros Ha Hb. apply Qle_shift_div_l; [exact Hb|]. lra.
Qed.

Lemma spec_gain_term_nonneg (close : list cell) (j : nat) :
  0 <= spec_gain_term close j.
Proof.
  unfold spec_gain_term. destruct (spec_delta close j) as [d|]; [|apply Qle_refl].
  destruct (Qlt_bool 0 d) eqn:E; [|apply Qle_refl].
  apply Qlt_bool_iff in E. lra.
Qed.

Lemma spec_loss_term_nonneg (close : list cell) (j : nat) :
  0 <= spec_loss_term close j.
Proof.
  unfold spec_loss_term. destruct (spec_delta close j) as [d|]; [|apply Qle_refl].
  destruct (Qlt_bool d 0) eqn:E; [|apply Qle_refl].
  apply Qlt_bool_iff in E. lra.
Qed.

Lemma spec_rolling_mean_nonneg (term : nat -> Q) (i : nat) :
  (forall j, 0 <= term j) -> 0 <= spec_rolling_mean term i.
Proof.
  intros H. unfold spec_rolling_mean. apply Qdiv_nonneg.
  - apply Qsum_nonneg. apply Forall_map. apply Forall_forall. intros j _. apply H.
  - apply Qofnat_pos. lia.
Qed.

Lemma length_rsi (close : list cell) : length (rsi close) = length close.
Proof.
  unfold rsi. rewrite length_map, length_zip_with, length_where, !length_rolling.
  rewrite length_map, !length_where, length_diff. lia.
Qed.

(** The RSI series of the code agrees with the RSI of the specification at
    every observation. *)
Lemma rsi_spec (close : list cell) (i : nat) :
  (i < length close)%nat -> nth i (rsi close) None = spec_rsi close i.
Proof.
  intros Hi. unfold rsi.
  set (G := where_ (fun d => cell_gt d 0) (Some 0) (diff close)).
  set (L := map cell_opp (where_ (fun d => cell_lt d 0) (Some 0) (diff close))).
  assert (HG : length G = length close)
    by (unfold G; now rewrite length_where, length_diff).
  assert (HL : length L = length close)
    by (unfold L; now rewrite length_map, length_where, length_diff).
  rewrite (nth_map_in _ None)
    by (rewrite length_zip_with, length_where, !length_rolling; lia).
  rewrite (nth_zip_with cell_div None None)
    by (rewrite ?length_where, length_rolling; lia).
  unfold where_ at 1.
  rewrite (nth_map_in _ None) by (rewrite length_rolling; lia).
  rewrite (rolling_mean_terms (spec_gain_term close))
    by (rewrite ?HG; auto; intros j Hj; apply nth_gain_series; lia).
  rewrite (rolling_mean_terms (spec_loss_term close))
    by (rewrite ?HL; auto; intros j Hj; apply nth_loss_series; lia).
  unfold spec_rsi.
  pose proof (spec_rolling_mean_nonneg (spec_gain_term close) i
                (spec_gain_term_nonneg close)) as Hg.
  pose proof (spec_rolling_mean_nonneg (spec_loss_term close) i
                (spec_loss_term_nonneg close)) as Hl.
  set (gain := spec_rolling_mean (spec_gain_term close) i) in *.
  set (loss := spec_rolling_mean (spec_loss_term close) i) in *.
  simpl cell_ne. destruct (Qeq_bool loss 0) eqn:E; simpl; [reflexivity|].
  rewrite E.
  assert (Hpos : 0 < loss).
  { apply Qeq_bool_neq in E. apply Qle_lteq in Hl. destruct Hl as [Hl|Hl]; [exact Hl|].
    exfalso. apply E. now symmetry. }
  assert (Hr : 0 <= gain / loss) by now apply Qdiv_nonneg.
  assert (Hd : Qeq_bool (1 + gain / loss) 0 = false).
  { destruct (Qeq_bool (1 + gain / loss) 0) eqn:E1; [|reflexivity].
    apply Qeq_bool_eq in E1. lra. }
  simpl. rewrite Hd. reflexivity.
Qed.
Lemma nonempty_of_column (name : string) (c : column) (df : DataFrame) :
  get_col name df = Some c -> (0 < len df)%nat -> empty df = false.
Proof.
  intros Hget Hlen. unfold empty. apply orb_false_iff. split.
  - apply Nat.eqb_neq. lia.
  - unfold get_col in Hget. destruct (columns df); [discriminate | reflexivity].
Qed.

Lemma transform_data_rsi_column (sqrtQ : Q -> Q) (df : DataFrame) (close : list cell) :
  get_col "close" df = Some (NumCol close) ->
  numeric_or_absent "open" df ->
  (14 <= len df)%nat ->
  exists out,
    transform_data sqrtQ df = Ret out
    /\ get_col "RSI" out = Some (NumCol (rsi close)).
Proof.
  intros Hclose Hno Hlen.
  assert (He : empty df = false) by (eapply nonempty_of_column; [exact Hclose | lia]).
  assert (Hc : has_col "close" df = true) by (unfold has_col; now rewrite Hclose).
  unfold transform_data. rewrite He, Hc.
  set (b10 := (10 <=? len df)%nat). set (b50 := (50 <=? len df)%nat).
  set (b20 := (20 <=? len df)%nat).
  replace (14 <=? len df)%nat with true by (symmetry; now apply Nat.leb_le).
  cbn [negb]. unfold numeric at 1. rewrite Hclose. cbn [obind].
  assert (Hopen : (exists op, get_col "open" df = Some (NumCol op))
                  \/ get_col "open" df = None).
  { unfold numeric_or_absent in Hno.
    destruct (get_col "open" df) as [[op|op]|]; [left; eauto | contradiction | now right]. }
  destruct b10, b50, b20;
    (destruct Hopen as [[op Hop]|Hop];
     unfold numeric; col_lookup; rewrite Hop; cbn [is_some obind];
     eexists; (split; [reflexivity|]); col_lookup; reflexivity).
Qed.

(** C4: on a series of at least 14 rows with a close column,
    [transform_data] returns with an RSI column that holds, at every
    observation, 100 - 100 / (1 + gain / loss), where gain is the mean over
    the trailing window of up to 14 observations of the positive one-step
    close deltas and loss that of the negated negative deltas; where loss
    is zero the RSI is the missing marker. *)
Theorem transform_data_rsi_definition (sqrtQ : Q -> Q) (df : DataFrame) (close : list cell) :
  get_col "close" df = Some (NumCol close) ->
  numeric_or_absent "open" df ->
  (14 <= len df)%nat ->
  exists out rsi_col,
    transform_data sqrtQ df = Ret out
    /\ get_col "RSI" out = Some (NumCol rsi_col)
    /\ length rsi_col = length close
    /\ forall i, (i < length close)%nat ->
         let gain := spec_rolling_mean (spec_gain_term close) i in
         let loss := spec_rolling_mean (spec_loss_term close) i in
         (loss == 0 -> nth i rsi_col None = NaN)
         /\ (~ loss == 0 ->
             nth i rsi_col None = Some (100 - 100 / (1 + gain / loss))).
Proof.
  intros Hclose Hno Hlen.
  destruct (@transform_data_rsi_column sqrtQ df close Hclose Hno Hlen) as (out & Hout & Hrsi).
  exists out, (rsi close). split; [exact Hout|]. split; [exact Hrsi|].
  split; [apply length_rsi|].
  intros i Hi gain loss. rewrite rsi_spec by exact Hi. unfold spec_rsi.
  fold gain. fold loss. split; intros H.
  - apply Qeq_eq_bool in H. now rewrite H.
  - destruct (Qeq_bool loss 0) eqn:E; [|reflexivity].
    apply Qeq_bool_eq in E. contradiction.
Qed.

Lemma transform_data_rsi_definition_witness :
  exists out rsi_col,
    transform_data approx_sqrt (zigzag_frame 14) = Ret out
    /\ get_col "RSI" out = Some (NumCol rsi_col)
    /\ length rsi_col = 14%nat
    /\ nth 13 rsi_col None
       = Some (100 - 100 / (1 + spec_rolling_mean
                                  (spec_gain_term (map (zigzag_price 100%Z) (seq 0 14))) 13
                                / spec_rolling_mean
                                  (spec_loss_term (map (zigzag_price 100%Z) (seq 0 14))) 13)).
Proof.
  destruct (@transform_data_rsi_definition approx_sqrt (zigzag_frame 14)
              (map (zigzag_price 100%Z) (seq 0 14)))
    as (out & rsi_col & Hout & Hcol & Hlen & Hval).
  - reflexivity.
  - vm_compute. exact I.
  - vm_compute. lia.
  - exists out, rsi_col. split; [exact Hout|]. split; [exact Hcol|].
    split; [rewrite Hlen; reflexivity|].
    apply (Hval 13%nat).
    + vm_compute. lia.
    + intros H. apply Qeq_bool_iff in H. vm_compute in H. discriminate.
Defined.
(** ** Validator *)

Create HintDb frame.

Lemma read_only_fret (A : Type) (a : A) : read_only (fret a).
Proof. intros df. reflexivity. Qed.

Lemma read_only_fread (A : Type) (f : DataFrame -> A) : read_only (fread f).
Proof. intros df. reflexivity. Qed.

Lemma read_only_fcol (name : string) : read_only (fcol name).
Proof. intros df. reflexivity. Qed.

Lemma read_only_flift (A : Type) (o : outcome A) : read_only (flift o).
Proof. intros df. reflexivity. Qed.

Lemma read_only_assert (cond : bool) (msg : string) : read_only (assert_ cond msg).
Proof. apply read_only_flift. Qed.

Lemma read_only_fbind (A B : Type) (c : Frame A) (k : A -> Frame B) :
  read_only c -> (forall a, read_only (k a)) -> read_only (fbind c k).
Proof.
  intros Hc Hk df. unfold fbind. specialize (Hc df).
  destruct (c df) as [[a|e] df']; simpl in Hc; subst df'; [apply Hk | reflexivity].
Qed.

Lemma read_only_for_each (A : Type) (xs : list A) (body : A -> Frame unit) :
  (forall x, read_only (body x)) -> read_only (for_each xs body).
Proof.
  intros H. induction xs as [|x xs IH]; simpl.
  - apply read_only_fret.
  - apply read_only_fbind; auto.
Qed.

Lemma read_only_if (A : Type) (b : bool) (c1 c2 : Frame A) :
  read_only c1 -> read_only c2 -> read_only (if b then c1 else c2).
Proof. now destruct b. Qed.

#[local] Hint Resolve read_only_fret read_only_fread read_only_fcol read_only_flift
  read_only_assert read_only_fbind read_only_for_each read_only_if : frame.

Lemma read_only_validate_checks : read_only validate_checks.
Proof.
  unfold validate_checks.
  repeat first [ apply read_only_fbind; [|intros ?]
               | apply read_only_for_each; intros ?
               | apply read_only_if
               | apply read_only_fread
               | apply read_only_fcol
               | apply read_only_assert
               | apply read_only_flift
               | apply read_only_fret ].
Qed.

(** C6: [validate_pipeline] returns a boolean on every frame and leaves the
    frame as it was; whatever is raised inside the checks, a failed
    assertion or any other error, is caught and gives false. *)
Theorem validate_pipeline_total_and_pure (df : DataFrame) :
  (exists b, validate_pipeline df = (Ret b, df))
  /\ (forall e, fst (validate_checks df) = Raise e ->
                validate_pipeline df = (Ret false, df))
  /\ (fst (validate_checks df) = Ret tt -> validate_pipeline df = (Ret true, df)).
Proof.
  pose proof (read_only_validate_checks df) as Hro.
  unfold validate_pipeline.
  destruct (validate_checks df) as [[[]|e] df'] eqn:E; simpl in Hro; subst df'.
  - split; [now exists true|]. split; [discriminate | reflexivity].
  - split; [exists false; now destruct e|].
    split; [intros e' _; now destruct e | discriminate].
Qed.

Lemma validate_pipeline_total_and_pure_witness :
  validate_pipeline ragged_frame = (Ret false, ragged_frame).
Proof.
  destruct (validate_pipeline_total_and_pure ragged_frame) as (_ & H & _).
  eapply H. vm_compute. reflexivity.
Defined.

(** How the steps of a check sequence run. *)
Lemma run_fread (A B : Type) (f : DataFrame -> A) (k : A -> Frame B) (df : DataFrame) :
  fbind (fread f) k df = k (f df) df.
Proof. reflexivity. Qed.

Lemma run_assert (B : Type) (cond : bool) (msg : string) (k : unit -> Frame B)
      (df : DataFrame) :
  fbind (assert_ cond msg) k df
  = if cond then k tt df else (Raise (AssertionError msg), df).
Proof. now destruct cond. Qed.

Lemma run_fcol (B : Type) (name : string) (k : column -> Frame B) (df : DataFrame) :
  fbind (fcol name) k df
  = match get_col name df with
    | Some c => k c df
    | None => (Raise (KeyError name), df)
    end.
Proof. unfold fbind, fcol. now destruct (get_col name df). Qed.

Lemma run_flift (A B : Type) (o : outcome A) (k : A -> Frame B) (df : DataFrame) :
  fbind (flift o) k df
  = match o with
    | Ret a => k a df
    | Raise e => (Raise e, df)
    end.
Proof. unfold fbind, flift. now destruct o. Qed.

Lemma run_for_each (A : Type) (xs : list A) (body : A -> Frame unit)
      (df df' : DataFrame) :
  (forall x, read_only (body x)) ->
  for_each xs body df = (Ret tt, df') ->
  forall x, In x xs -> body x df = (Ret tt, df).
Proof.
  intros Hro. induction xs as [|y xs IH]; simpl; intros H x Hin; [contradiction|].
  unfold fbind in H. pose proof (Hro y df) as Hy.
  destruct (body y df) as [[[]|e] d1] eqn:E; simpl in Hy; subst d1; [|discriminate].
  destruct Hin as [<-|Hin]; [exact E | now apply IH].
Qed.

Lemma run_for_each_then (A B : Type) (xs : list A) (body : A -> Frame unit)
      (k : unit -> Frame B) (v : B) (df df' : DataFrame) :
  (forall x, read_only (body x)) ->
  fbind (for_each xs body) k df = (Ret v, df') ->
  (forall x, In x xs -> body x df = (Ret tt, df)) /\ k tt df = (Ret v, df').
Proof.
  intros Hro H. unfold fbind in H.
  pose proof (read_only_for_each xs body Hro df) as Hs.
  destruct (for_each xs body df) as [[[]|e] d1] eqn:E; simpl in Hs; subst d1;
    [|discriminate].
  split; [|exact H]. eapply run_for_each; eauto.
Qed.

Lemma all_positive_true (c : column) :
  all_positive c = Ret true ->
  exists xs, c = NumCol xs /\ Forall (fun x => exists q, x = Some q /\ 0 < q) xs.
Proof.
  destruct c as [xs|xs]; simpl; [|discriminate].
  intros [= H]. exists xs. split; [reflexivity|].
  rewrite forallb_forall in H. apply Forall_forall. intros x Hx.
  specialize (H x Hx). destruct x as [q|]; simpl in H; [|discriminate].
  exists q. split; [reflexivity|]. now apply Qlt_bool_iff.
Qed.

Lemma is_numeric_dtype_true (c : column) :
  is_numeric_dtype c = true -> exists xs, c = NumCol xs.
Proof. destruct c as [xs|xs]; simpl; [eauto | discriminate]. Qed.

(** C5: a frame that [validate_pipeline] accepts is non-empty, has the six
    essential columns with the five price/volume ones numeric, has a date
    index, has every close strictly positive, and has in close and in volume
    a fraction of missing entries strictly below 10%. *)
Theorem validate_pipeline_postcondition (df df' : DataFrame) :
  validate_pipeline df = (Ret true, df') ->
  empty df = false
  /\ (forall col, In col essential_cols -> has_col col df = true)
  /\ (forall col, In col numeric_cols ->
                  exists xs, get_col col df = Some (NumCol xs))
  /\ is_datetime_index df = true
  /\ (exists close, get_col "close" df = Some (NumCol close)
                    /\ Forall (fun x => exists q, x = Some q /\ 0 < q) close)
  /\ (forall col, In col ["close"; "volume"] ->
                  exists xs, get_col col df = Some (NumCol xs)
                             /\ Qofnat (nan_count xs) / Qofnat (len df) < 1#10).
Proof.
  intros H. unfold validate_pipeline in H.
  destruct (validate_checks df) as [[[]|e] df1] eqn:E;
    [clear H | destruct e; discriminate H].
  unfold validate_checks in E.
  rewrite run_fread, run_assert in E.
  destruct (empty df) eqn:He; [discriminate E|]. cbn [negb] in E.
  apply run_for_each_then in E; [|auto with frame]. destruct E as [Hess E].
  apply run_for_each_then in E;
    [|intros col; apply read_only_fbind; auto with frame;
      intros []; auto with frame].
  destruct E as [Hnum E].
  rewrite run_fread, run_assert in E.
  destruct (is_datetime_index df) eqn:Hdt; [|discriminate E].
  rewrite run_fcol in E.
  destruct (get_col "close" df) as [close|] eqn:Hclose; [|discriminate E].
  rewrite run_flift in E.
  destruct (all_positive close) as [positive|] eqn:Hpos; [|discriminate E].
  rewrite run_assert in E. destruct positive; [|discriminate E].
  match type of E with
  | for_each ?xs ?body ?d = _ =>
      assert (Hro : forall x, read_only (body x))
        by (intros col; apply read_only_fbind; auto with frame;
            intros []; auto with frame);
      pose proof (@run_for_each _ xs body d _ Hro E) as Hnan; clear Hro
  end.
  clear E.
  assert (Hpresent : forall col, In col essential_cols -> has_col col df = true).
  { intros col Hin. specialize (Hess col Hin).
    rewrite run_fread in Hess. unfold assert_, flift in Hess.
    destruct (has_col col df); [reflexivity | discriminate Hess]. }
  assert (Hsub : forall col, In col numeric_cols -> In col essential_cols)
    by (unfold numeric_cols, essential_cols; simpl; tauto).
  split; [reflexivity|]. split; [exact Hpresent|]. split; [|split; [reflexivity|split]].
  - intros col Hin. specialize (Hnum col Hin).
    rewrite run_fread, (Hpresent col (Hsub col Hin)), run_fcol in Hnum.
    destruct (get_col col df) as [c|]; [|discriminate Hnum].
    unfold assert_, flift in Hnum.
    destruct (is_numeric_dtype c) eqn:Hn; [|discriminate Hnum].
    destruct (is_numeric_dtype_true _ Hn) as [xs ->]. now exists xs.
  - destruct (all_positive_true _ Hpos) as (xs & -> & Hall). now exists xs.
  - intros col Hin.
    assert (Hin' : In col numeric_cols)
      by (unfold numeric_cols; simpl in *; tauto).
    specialize (Hnum col Hin'). pose proof (Hnan col Hin) as E. cbv beta in E.
    rewrite run_fread, (Hpresent col (Hsub col Hin')), run_fcol in Hnum, E.
    destruct (get_col col df) as [c|]; [|discriminate Hnum].
    unfold assert_, flift in Hnum.
    destruct (is_numeric_dtype c) eqn:Hn; [|discriminate Hnum].
    destruct (is_numeric_dtype_true _ Hn) as [xs ->]. exists xs.
    split; [reflexivity|].
    rewrite run_fread in E. unfold assert_, flift in E. simpl isnull_sum in E.
    fold (nan_count xs) in E.
    destruct (Qlt_bool (Qofnat (nan_count xs) / Qofnat (len df)) (1 # 10)) eqn:Hq;
      [|discriminate E].
    now apply Qlt_bool_iff.
Qed.

Lemma validate_pipeline_postcondition_witness :
  empty (zigzag_frame 3) = false
  /\ (forall col, In col essential_cols -> has_col col (zigzag_frame 3) = true)
  /\ (forall col, In col numeric_cols ->
                  exists xs, get_col col (zigzag_frame 3) = Some (NumCol xs))
  /\ is_datetime_index (zigzag_frame 3) = true
  /\ (exists close, get_col "close" (zigzag_frame 3) = Some (NumCol close)
                    /\ Forall (fun x => exists q, x = Some q /\ 0 < q) close)
  /\ (forall col, In col ["close"; "volume"] ->
                  exists xs, get_col col (zigzag_frame 3) = Some (NumCol xs)
                             /\ Qofnat (nan_count xs) / Qofnat (len (zigzag_frame 3))
                                < 1#10).
Proof.
  apply (@validate_pipeline_postcondition (zigzag_frame 3) (zigzag_frame 3)).
  vm_compute. reflexivity.
Defined.
(** ** Ingestor *)

Lemma ingest_attempt_rejects (ticker : string) (rf : RawFrame) :
  structural_failure rf -> ingest_attempt ticker rf = Ret empty_frame.
Proof.
  intros [Hrows|(names & col & Hnames & Hreq & Hmiss)]; unfold ingest_attempt.
  - unfold raw_empty. now rewrite Hrows.
  - destruct (raw_empty rf); [reflexivity|]. rewrite Hnames. simpl.
    destruct (missing_cols names) as [|m ms] eqn:E; [|reflexivity].
    exfalso.
    assert (Hin : In col (missing_cols names)).
    { unfold missing_cols. apply filter_In. split; [exact Hreq|]. now rewrite Hmiss. }
    rewrite E in Hin. contradiction.
Qed.

Lemma filter_download_done (ticker : string) (attempt : nat) (later : list event) :
  filter is_download
         (((if (0 <? attempt)%nat then [Sleep 2] else []) ++ [Download ticker attempt])
          ++ later)
  = Download ticker attempt :: filter is_download later.
Proof. destruct (0 <? attempt)%nat; reflexivity. Qed.

Section IngestorProperties.
Variable provider : string -> string -> string -> nat -> outcome RawFrame.
Variables (ticker start end_ : string) (retry_count : nat).

(** The loop ends with a frame, whatever the provider does. *)
Lemma ingest_attempts_returns (attempts : list nat) :
  exists df, fst (ingest_attempts provider ticker start end_ retry_count attempts) = Ret df.
Proof.
  induction attempts as [|a rest IH]; simpl; [now exists empty_frame|].
  destruct (obind (provider ticker start end_ a) (fun rf => ingest_attempt ticker rf))
    as [df|e]; [now exists df|].
  destruct (a =? retry_count - 1)%nat; [now exists empty_frame|].
  destruct (ingest_attempts provider ticker start end_ retry_count rest) as [r later].
  exact IH.
Qed.

Lemma ingest_attempts_rejection (k : nat) :
  (k < retry_count)%nat ->
  (forall j, (j < k)%nat ->
             exists e, attempt_outcome provider ticker start end_ j = Raise e) ->
  attempt_outcome provider ticker start end_ k = Ret empty_frame ->
  forall n a,
    (a <= k)%nat -> (k < a + n)%nat ->
    let r := ingest_attempts provider ticker start end_ retry_count (seq a n) in
    fst r = Ret empty_frame
    /\ filter is_download (snd r) = map (Download ticker) (seq a (S k - a)).
Proof.
  intros Hk Hraise Hrej. induction n as [|n IH]; intros a Hak Hkn; [lia|].
  cbn [seq ingest_attempts]. fold (attempt_outcome provider ticker start end_ a).
  destruct (Nat.eq_dec a k) as [->|Hne].
  - rewrite Hrej. cbn [fst snd]. split; [reflexivity|].
    rewrite <- (app_nil_r (_ ++ [Download ticker k])), filter_download_done.
    replace (S k - k)%nat with 1%nat by lia. reflexivity.
  - destruct (Hraise a ltac:(lia)) as [e He]. rewrite He.
    replace (a =? retry_count - 1)%nat with false
      by (symmetry; apply Nat.eqb_neq; lia).
    specialize (IH (S a) ltac:(lia) ltac:(lia)). cbv zeta in IH.
    destruct (ingest_attempts provider ticker start end_ retry_count (seq (S a) n))
      as [r later].
    cbn [fst snd] in *. destruct IH as [IH1 IH2]. split; [exact IH1|].
    rewrite filter_download_done, IH2.
    replace (S k - a)%nat with (S (S k - S a)) by lia. reflexivity.
Qed.

(** C7: when the provider's answer at some attempt has no rows, or lacks a
    required column after the names are normalised, [ingest_data] returns
    the empty frame, without raising, and that download is the last one: no
    retry follows it. *)
Theorem ingest_data_structural_rejection (k : nat) (rf : RawFrame) :
  (k < retry_count)%nat ->
  (forall j, (j < k)%nat ->
             exists e, attempt_outcome provider ticker start end_ j = Raise e) ->
  provider ticker start end_ k = Ret rf ->
  structural_failure rf ->
  fst (ingest_data provider ticker start end_ retry_count) = Ret empty_frame
  /\ filter is_download (snd (ingest_data provider ticker start end_ retry_count))
     = map (Download ticker) (seq 0 (S k)).
Proof.
  intros Hk Hraise Hrf Hfail. unfold ingest_data.
  assert (Hrej : attempt_outcome provider ticker start end_ k = Ret empty_frame).
  { unfold attempt_outcome. rewrite Hrf. simpl. now apply ingest_attempt_rejects. }
  pose proof (@ingest_attempts_rejection k Hk Hraise Hrej retry_count 0%nat
                ltac:(lia) ltac:(lia)) as H.
  cbv zeta in H. now rewrite Nat.sub_0_r in H.
Qed.

End IngestorProperties.

Lemma ingest_data_structural_rejection_witness :
  fst (ingest_data flaky_provider "AAPL" "2020-01-01" "2024-01-01" 3) = Ret empty_frame
  /\ filter is_download
            (snd (ingest_data flaky_provider "AAPL" "2020-01-01" "2024-01-01" 3))
     = [Download "AAPL" 0; Download "AAPL" 1].
Proof.
  apply (@ingest_data_structural_rejection flaky_provider "AAPL" "2020-01-01"
           "2024-01-01" 3 1 no_volume_table).
  - lia.
  - intros j Hj. assert (j = 0%nat) as -> by lia. now exists ProviderError.
  - reflexivity.
  - right. exists ["close"; "high"; "low"; "open"], "volume".
    split; [reflexivity|]. split; [simpl; tauto | reflexivity].
Defined.
(** ** Store *)

Lemma append_assoc (a b c : string) : ((a ++ b) ++ c)%string = (a ++ b ++ c)%string.
Proof. induction a as [|ch a IH]; simpl; [reflexivity|]. now rewrite IH. Qed.

Section StoreProperties.
Context {DB : Type} {sink : Sink DB}.

(** C9 (as amended): for a non-empty frame with a date index, once the
    connection to the sink has been opened, [store_data] leaves the caller's
    frame object with a year and a month column derived from the index,
    whatever the write then does; the index and every other column are as
    they were. *)
Theorem store_data_mutates_frame (df : DataFrame) (db_name table_name : string)
        (db : DB) (dates : list date) :
  empty df = false ->
  index df = DatetimeIndex dates ->
  fst (sqlite3_connect db_name db) = Ret tt ->
  let df' := fst (store_data df db_name table_name db) in
  df' = set_col "month" (NumCol (map (fun d => Some (inject_Z (month d))) dates))
          (set_col "year" (NumCol (map (fun d => Some (inject_Z (year d))) dates)) df)
  /\ index df' = index df
  /\ forall name, name <> "year" -> name <> "month" ->
                  get_col name df' = get_col name df.
Proof.
  intros He Hix Hconn df'.
  assert (Hdf' : df' = set_col "month" (NumCol (map (fun d => Some (inject_Z (month d))) dates))
          (set_col "year" (NumCol (map (fun d => Some (inject_Z (year d))) dates)) df)).
  { subst df'. unfold store_data. rewrite He.
    destruct (sqlite3_connect db_name db) as [[[]|e] db1]; simpl in Hconn;
      [|discriminate].
    unfold index_field. simpl index. rewrite Hix.
    destruct (to_sql table_name _ db1) as [r db2]. reflexivity. }
  split; [exact Hdf'|]. rewrite Hdf'. split; [reflexivity|].
  intros name Hy Hm. now rewrite !get_set_other.
Qed.

(** When the connection cannot be opened the frame is not touched. *)
Lemma store_data_connect_fails (df : DataFrame) (db_name table_name : string)
      (db : DB) (e : exn) :
  fst (sqlite3_connect db_name db) = Raise e ->
  fst (store_data df db_name table_name db) = df.
Proof.
  intros H. unfold store_data. destruct (empty df); [reflexivity|].
  destruct (sqlite3_connect db_name db) as [[[]|e'] db1]; simpl in H;
    [discriminate | reflexivity].
Qed.

(** What [retrieve_data] hands on: the answer of the sink to the query it
    builds, or the empty frame when the connection or the query fails. *)
Lemma retrieve_data_runs_query (db_name table_name : string) (tk : option string)
      (yr mo : option Z) (db : DB) :
  retrieve_data db_name table_name tk yr mo db
  = match sqlite3_connect db_name db with
    | (Ret _, db') =>
        (match read_sql_query (build_query table_name tk yr mo) db' with
         | Ret df => df
         | Raise _ => empty_frame
         end, db')
    | (Raise _, db') => (empty_frame, db')
    end.
Proof.
  unfold retrieve_data.
  destruct (sqlite3_connect db_name db) as [[[]|e] db']; [|reflexivity].
  now destruct (read_sql_query (build_query table_name tk yr mo) db').
Qed.

Lemma falsy_text (ft : option string) :
  ft = None \/ ft = Some EmptyString -> truthy_text ft = false.
Proof. intros [->| ->]; reflexivity. Qed.

Lemma falsy_int (fz : option Z) :
  fz = None \/ fz = Some 0%Z -> truthy_int fz = false.
Proof. intros [->| ->]; reflexivity. Qed.

Ltac query_text :=
  unfold build_query, conditions;
  repeat match goal with
         | H : truthy_text _ = _ |- _ => rewrite H
         | H : truthy_int _ = _ |- _ => rewrite H
         end;
  cbn [app join text_of int_text];
  rewrite ?append_assoc; simpl; rewrite ?append_assoc; reflexivity.

(** C10: [retrieve_data] returns what the sink answers to one query (the
    empty frame when the connection or the query fails), and the query
    carries a condition for exactly the filters whose value is truthy: an
    empty ticker, a zero year or a zero month is the same as no filter,
    and a non-empty ticker and a non-zero year and month give the
    exact-match conditions, joined by AND in this order, in each of the
    eight combinations. *)
Theorem retrieve_data_filters (db_name table_name ticker : string) (y m : Z) (db : DB)
        (no_ticker : option string) (no_year no_month : option Z) :
  ticker <> EmptyString -> y <> 0%Z -> m <> 0%Z ->
  no_ticker = None \/ no_ticker = Some EmptyString ->
  no_year = None \/ no_year = Some 0%Z ->
  no_month = None \/ no_month = Some 0%Z ->
  let answer := fun query : string =>
    match sqlite3_connect db_name db with
    | (Ret _, db') =>
        (match read_sql_query query db' with
         | Ret df => df
         | Raise _ => empty_frame
         end, db')
    | (Raise _, db') => (empty_frame, db')
    end in
  let by_ticker := ("ticker = '" ++ ticker ++ "'")%string in
  let by_year := ("year = " ++ decimal y)%string in
  let by_month := ("month = " ++ decimal m)%string in
  retrieve_data db_name table_name no_ticker no_year no_month db
  = answer ("SELECT * FROM " ++ table_name ++ " ORDER BY date;")%string
  /\ retrieve_data db_name table_name (Some ticker) no_year no_month db
     = answer ("SELECT * FROM " ++ table_name ++ " WHERE " ++ by_ticker
               ++ " ORDER BY date;")%string
  /\ retrieve_data db_name table_name no_ticker (Some y) no_month db
     = answer ("SELECT * FROM " ++ table_name ++ " WHERE " ++ by_year
               ++ " ORDER BY date;")%string
  /\ retrieve_data db_name table_name no_ticker no_year (Some m) db
     = answer ("SELECT * FROM " ++ table_name ++ " WHERE " ++ by_month
               ++ " ORDER BY date;")%string
  /\ retrieve_data db_name table_name (Some ticker) (Some y) no_month db
     = answer ("SELECT * FROM " ++ table_name ++ " WHERE " ++ by_ticker
               ++ " AND " ++ by_year ++ " ORDER BY date;")%string
  /\ retrieve_data db_name table_name (Some ticker) no_year (Some m) db
     = answer ("SELECT * FROM " ++ table_name ++ " WHERE " ++ by_ticker
               ++ " AND " ++ by_month ++ " ORDER BY date;")%string
  /\ retrieve_data db_name table_name no_ticker (Some y) (Some m) db
     = answer ("SELECT * FROM " ++ table_name ++ " WHERE " ++ by_year
               ++ " AND " ++ by_month ++ " ORDER BY date;")%string
  /\ retrieve_data db_name table_name (Some ticker) (Some y) (Some m) db
     = answer ("SELECT * FROM " ++ table_name ++ " WHERE " ++ by_ticker
               ++ " AND " ++ by_year ++ " AND " ++ by_month
               ++ " ORDER BY date;")%string
  /\ conditions (Some ticker) (Some y) (Some m) = [by_ticker; by_year; by_month].
Proof.
  intros Ht Hy Hm Hnt Hny Hnm answer by_ticker by_year by_month.
  assert (Et : truthy_text (Some ticker) = true)
    by (simpl; apply negb_true_iff; now apply String.eqb_neq).
  assert (Ey : truthy_int (Some y) = true)
    by (simpl; apply negb_true_iff; now apply Z.eqb_neq).
  assert (Em : truthy_int (Some m) = true)
    by (simpl; apply negb_true_iff; now apply Z.eqb_neq).
  pose proof (falsy_text Hnt) as Ft.
  pose proof (falsy_int Hny) as Fy.
  pose proof (falsy_int Hnm) as Fm.
  subst answer by_ticker by_year by_month. cbv beta.
  rewrite !retrieve_data_runs_query.
  assert (Q0 : build_query table_name no_ticker no_year no_month
               = ("SELECT * FROM " ++ table_name ++ " ORDER BY date;")%string)
    by query_text.
  assert (Q1 : build_query table_name (Some ticker) no_year no_month
               = ("SELECT * FROM " ++ table_name ++ " WHERE "
                  ++ ("ticker = '" ++ ticker ++ "'") ++ " ORDER BY date;")%string)
    by query_text.
  assert (Q2 : build_query table_name no_ticker (Some y) no_month
               = ("SELECT * FROM " ++ table_name ++ " WHERE "
                  ++ ("year = " ++ decimal y) ++ " ORDER BY date;")%string)
    by query_text.
  assert (Q3 : build_query table_name no_ticker no_year (Some m)
               = ("SELECT * FROM " ++ table_name ++ " WHERE "
                  ++ ("month = " ++ decimal m) ++ " ORDER BY date;")%string)
    by query_text.
  assert (Q4 : build_query table_name (Some ticker) (Some y) no_month
               = ("SELECT * FROM " ++ table_name ++ " WHERE "
                  ++ ("ticker = '" ++ ticker ++ "'") ++ " AND "
                  ++ ("year = " ++ decimal y) ++ " ORDER BY date;")%string)
    by query_text.
  assert (Q5 : build_query table_name (Some ticker) no_year (Some m)
               = ("SELECT * FROM " ++ table_name ++ " WHERE "
                  ++ ("ticker = '" ++ ticker ++ "'") ++ " AND "
                  ++ ("month = " ++ decimal m) ++ " ORDER BY date;")%string)
    by query_text.
  assert (Q6 : build_query table_name no_ticker (Some y) (Some m)
               = ("SELECT * FROM " ++ table_name ++ " WHERE "
                  ++ ("year = " ++ decimal y) ++ " AND "
                  ++ ("month = " ++ decimal m) ++ " ORDER BY date;")%string)
    by query_text.
  assert (Q7 : build_query table_name (Some ticker) (Some y) (Some m)
               = ("SELECT * FROM " ++ table_name ++ " WHERE "
                  ++ ("ticker = '" ++ ticker ++ "'") ++ " AND "
                  ++ ("year = " ++ decimal y) ++ " AND "
                  ++ ("month = " ++ decimal m) ++ " ORDER BY date;")%string)
    by query_text.
  rewrite Q0, Q1, Q2, Q3, Q4, Q5, Q6, Q7.
  repeat (split; [reflexivity|]).
  unfold conditions. rewrite Et, Ey, Em. reflexivity.
Qed.

End StoreProperties.

Lemma store_data_mutates_frame_witness :
  exists df',
    fst (store_data (zigzag_frame 3) "ohlc_data.db" "ohlc_processed_data"
                    ([] : list (string * DataFrame))) = df'
    /\ num_values "year" df' = Some [Some 2024; Some 2024; Some 2024]
    /\ num_values "month" df' = Some [Some 1; Some 1; Some 1]
    /\ index df' = index (zigzag_frame 3).
Proof.
  destruct (@store_data_mutates_frame _ memory_sink (zigzag_frame 3)
              "ohlc_data.db" "ohlc_processed_data" []
              [{| year := 2024; month := 1; day := 1 |};
               {| year := 2024; month := 1; day := 2 |};
               {| year := 2024; month := 1; day := 3 |}])
    as (Hdf & Hix & _).
  - reflexivity.
  - reflexivity.
  - reflexivity.
  - eexists. split; [reflexivity|]. rewrite Hdf.
    split; [reflexivity|]. split; reflexivity.
Defined.

(** C9 (as stated) fails: with a sink that cannot be opened, [store_data]
    catches the error before it has assigned anything, and the non-empty
    frame passed in comes back without a year or a month column. *)
Lemma store_data_untouched_when_offline :
  empty (zigzag_frame 3) = false
  /\ fst (store_data (zigzag_frame 3) "ohlc_data.db" "ohlc_processed_data" tt)
     = zigzag_frame 3
  /\ has_col "year" (fst (store_data (zigzag_frame 3) "ohlc_data.db"
                                     "ohlc_processed_data" tt)) = false
  /\ has_col "month" (fst (store_data (zigzag_frame 3) "ohlc_data.db"
                                      "ohlc_processed_data" tt)) = false.
Proof. repeat split; reflexivity. Qed.

Lemma retrieve_data_filters_witness :
  retrieve_data "ohlc_data.db" "ohlc_processed_data" (Some EmptyString) (Some 0%Z) None
                ([] : list (string * DataFrame))
  = (empty_frame, [])
  /\ retrieve_data "ohlc_data.db" "ohlc_processed_data" (Some "AAPL") (Some 2024%Z)
                   (Some 5%Z) ([] : list (string * DataFrame))
     = (match read_sql_query
                (DB := list (string * DataFrame))
                "SELECT * FROM ohlc_processed_data WHERE ticker = 'AAPL' AND year = 2024 AND month = 5 ORDER BY date;"
                [] with
        | Ret df => df
        | Raise _ => empty_frame
        end, [])
  /\ conditions (Some "AAPL") (Some 2024%Z) (Some 5%Z)
     = ["ticker = 'AAPL'"; "year = 2024"; "month = 5"].
Proof.
  destruct (@retrieve_data_filters _ memory_sink "ohlc_data.db" "ohlc_processed_data"
              "AAPL" 2024%Z 5%Z [] (Some EmptyString) (Some 0%Z) None)
    as (H0 & _ & _ & _ & _ & _ & _ & H7 & Hc).
  - discriminate.
  - discriminate.
  - discriminate.
  - now right.
  - now right.
  - now left.
  - split; [exact H0|]. split; [exact H7 | exact Hc].
Defined.
(** ** Orchestrator *)

Section OrchestratorProperties.
Context {DB : Type} {sink : Sink DB}.
Variable provider : string -> string -> string -> nat -> outcome RawFrame.
Variable sqrtQ : Q -> Q.
Variable END_DATE : string.

Abbreviation step := (process_ticker provider sqrtQ END_DATE).
Abbreviation skips := (stage_skips provider sqrtQ END_DATE).
Abbreviation raises := (stage_raises provider sqrtQ END_DATE).

(** A ticker whose chain stops short leaves the run state as it was. *)
Lemma process_ticker_skip (ticker : string) :
  skips ticker \/ raises ticker -> forall st, step st ticker = st.
Proof.
  intros H st. unfold process_ticker, process_ticker_body.
  unfold stage_skips, stage_raises, ingested in H.
  destruct H as [[H|[H|[H|H]]]|[H|H]].
  - destruct H as (raw & Hi & He). rewrite Hi. simpl. now rewrite He.
  - destruct H as (raw & cleaned & Hi & He & Hc & Hce).
    rewrite Hi. simpl. rewrite He, Hc. simpl. now rewrite Hce.
  - destruct H as (raw & cleaned & tr & Hi & He & Hc & Hce & Ht & Hte).
    rewrite Hi. simpl. rewrite He, Hc. simpl. rewrite Hce, Ht. simpl.
    now rewrite Hte.
  - destruct H as (raw & cleaned & tr & Hi & He & Hc & Hce & Ht & Hte & Hv).
    rewrite Hi. simpl. rewrite He, Hc. simpl. rewrite Hce, Ht. simpl.
    rewrite Hte.
    destruct (validate_pipeline tr) as [verdict tr']. simpl in Hv. subst verdict.
    reflexivity.
  - destruct H as (raw & e & Hi & He & Hc).
    rewrite Hi. simpl. rewrite He, Hc. reflexivity.
  - destruct H as (raw & cleaned & e & Hi & He & Hc & Hce & Ht).
    rewrite Hi. simpl. rewrite He, Hc. simpl. rewrite Hce, Ht. reflexivity.
Qed.

(** An iteration changes nothing, or stores the ticker's frame and records
    the ticker as successful. *)
Lemma process_ticker_cases (st : run_state) (ticker : string) :
  step st ticker = st
  \/ exists db,
       step st ticker
       = {| sink_state := db;
            successful_tickers := successful_tickers st ++ [ticker];
            store_calls := store_calls st ++ [ticker] |}.
Proof.
  unfold process_ticker, process_ticker_body.
  destruct (fst (ingest_data provider ticker START_DATE END_DATE 3)) as [raw|e];
    simpl; [|now left].
  destruct (empty raw); [now left|].
  destruct (clean_data raw) as [cleaned|e]; simpl; [|now left].
  destruct (empty cleaned); [now left|].
  destruct (transform_data sqrtQ cleaned) as [tr|e]; simpl; [|now left].
  destruct (empty tr); [now left|].
  destruct (validate_pipeline tr) as [[[|]|e] tr']; simpl; try now left.
  destruct (store_data tr' DB_NAME TABLE_NAME (sink_state st)) as [df' db'].
  right. now exists db'.
Qed.

Lemma fold_process_ticker_absent (ticker : string) :
  (forall st, step st ticker = st) ->
  forall tickers st,
    ~ In ticker (successful_tickers st) -> ~ In ticker (store_calls st) ->
    ~ In ticker (successful_tickers (fold_left step tickers st))
    /\ ~ In ticker (store_calls (fold_left step tickers st)).
Proof.
  intros Hskip. induction tickers as [|t tickers IH]; intros st Hs Hc; simpl; [auto|].
  destruct (String.eqb_spec t ticker) as [->|Hne].
  - rewrite Hskip. now apply IH.
  - destruct (process_ticker_cases st t) as [->|[db ->]]; [now apply IH|].
    apply IH; simpl; intros Hin; apply in_app_or in Hin;
      destruct Hin as [Hin|[Heq|[]]]; auto.
Qed.

Lemma In_name_in (name : string) (names : list string) :
  name_in name names = true <-> In name names.
Proof.
  unfold name_in. rewrite existsb_exists. split.
  - intros (x & Hin & Hx). apply String.eqb_eq in Hx. now subst.
  - intros H. exists name. split; [exact H | apply String.eqb_refl].
Qed.

End OrchestratorProperties.
(** * Further properties of the code *)

(** ** Ingestor: the retry loop *)

Section IngestorLoop.
Variable provider : string -> string -> string -> nat -> outcome RawFrame.
Variables (ticker start end_ : string) (retry_count : nat).

Abbreviation attempt_of := (attempt_outcome provider ticker start end_).
Abbreviation loop := (ingest_attempts provider ticker start end_ retry_count).

Lemma flat_map_attempts_cons (a k : nat) :
  flat_map (attempt_events ticker) (seq a (S k))
  = attempt_events ticker a ++ flat_map (attempt_events ticker) (seq (S a) k).
Proof. reflexivity. Qed.

(** The loop from attempt [a] on, with [n] attempts left. *)
Lemma ingest_attempts_trace (n : nat) :
  forall a, (a + n = retry_count)%nat ->
    exists k df,
      (k <= n)%nat
      /\ loop (seq a n) = (Ret df, flat_map (attempt_events ticker) (seq a k))
      /\ (forall j, (a <= j)%nat -> (S j < a + k)%nat -> exists e, attempt_of j = Raise e)
      /\ (((0 < k)%nat /\ attempt_of (a + k - 1) = Ret df)
          \/ (k = n /\ df = empty_frame
              /\ forall j, (a <= j < a + n)%nat -> exists e, attempt_of j = Raise e)).
Proof.
  induction n as [|n IH]; intros a Han.
  - exists 0%nat, empty_frame. split; [lia|]. split; [reflexivity|].
    split; [intros; lia|]. right. repeat split. intros; lia.
  - cbn [seq ingest_attempts]. fold (attempt_of a). fold (attempt_events ticker a).
    destruct (attempt_of a) as [df|e] eqn:Ea.
    + exists 1%nat, df. split; [lia|]. split.
      { rewrite flat_map_attempts_cons. simpl. now rewrite app_nil_r. }
      split; [intros; lia|]. left. split; [lia|].
      now replace (a + 1 - 1)%nat with a by lia.
    + destruct (Nat.eqb_spec a (retry_count - 1)) as [Hlast|Hmore].
      * assert (n = 0%nat) by lia. subst n.
        exists 1%nat, empty_frame. split; [lia|]. split.
        { rewrite flat_map_attempts_cons. simpl. now rewrite app_nil_r. }
        split; [intros; lia|]. right. repeat split.
        intros j Hj. assert (j = a) as -> by lia. now exists e.
      * destruct (IH (S a) ltac:(lia)) as (k & df & Hk & Hrun & Hbefore & Hend).
        rewrite Hrun. exists (S k), df. split; [lia|]. split.
        { now rewrite flat_map_attempts_cons. }
        split.
        { intros j Hj1 Hj2. destruct (Nat.eq_dec j a) as [->|Hne]; [now exists e|].
          apply Hbefore; lia. }
        destruct Hend as [[Hpos Hret]|(Hkn & Hdf & Hall)].
        -- left. split; [lia|].
           now replace (a + S k - 1)%nat with (S a + k - 1)%nat by lia.
        -- right. split; [lia|]. split; [exact Hdf|].
           intros j Hj. destruct (Nat.eq_dec j a) as [->|Hne]; [now exists e|].
           apply Hall; lia.
Qed.

(** X1: whatever the provider does, [ingest_data] returns a frame and never
    raises.  It makes the attempts 0, 1, ... in order, at most [retry_count]
    of them, each but the first after a pause of two seconds, and stops at
    the first attempt that does not raise, returning what that attempt
    returned; when all [retry_count] attempts raise it returns the empty
    frame. *)
Theorem ingest_data_retry_discipline :
  exists k df,
    (k <= retry_count)%nat
    /\ ingest_data provider ticker start end_ retry_count
       = (Ret df, attempts_trace ticker k)
    /\ (forall j, (S j < k)%nat -> exists e, attempt_of j = Raise e)
    /\ (((0 < k)%nat /\ attempt_of (k - 1) = Ret df)
        \/ (k = retry_count /\ df = empty_frame
            /\ forall j, (j < retry_count)%nat -> exists e, attempt_of j = Raise e)).
Proof.
  destruct (ingest_attempts_trace retry_count 0%nat eq_refl)
    as (k & df & Hk & Hrun & Hbefore & Hend).
  exists k, df. split; [exact Hk|]. split; [exact Hrun|]. split.
  - intros j Hj. apply Hbefore; lia.
  - destruct Hend as [[Hpos Hret]|(Hkn & Hdf & Hall)].
    + left. split; [exact Hpos|]. now rewrite Nat.add_0_l in Hret.
    + right. split; [exact Hkn|]. split; [exact Hdf|].
      intros j Hj. apply Hall. lia.
Qed.

(** The first attempt that does not raise decides the result. *)
Lemma ingest_data_first_answer (k : nat) (df : DataFrame) :
  (k < retry_count)%nat ->
  (forall j, (j < k)%nat -> exists e, attempt_of j = Raise e) ->
  attempt_of k = Ret df ->
  ingest_data provider ticker start end_ retry_count
  = (Ret df, attempts_trace ticker (S k)).
Proof.
  intros Hk Hraise Hret.
  destruct (ingest_attempts_trace retry_count 0%nat eq_refl)
    as (k' & df' & Hk' & Hrun & Hbefore & Hend).
  unfold ingest_data, attempts_trace. rewrite Hrun.
  assert (Hkk : k' = S k).
  { destruct Hend as [[Hpos Hr]|(Hkn & _ & Hall)].
    - rewrite Nat.add_0_l in Hr.
      destruct (Nat.lt_trichotomy (k' - 1) k) as [Hlt|[Heq|Hgt]]; [|lia|].
      + destruct (Hraise _ Hlt) as [e He]. congruence.
      + destruct (Hbefore k ltac:(lia) ltac:(lia)) as [e He]. congruence.
    - destruct (Hall k ltac:(lia)) as [e He]. congruence. }
  subst k'. f_equal. f_equal.
  destruct Hend as [[_ Hr]|(_ & _ & Hall)].
  - replace (0 + S k - 1)%nat with k in Hr by lia. congruence.
  - destruct (Hall k ltac:(lia)) as [e He]. congruence.
Qed.

End IngestorLoop.

(** ** Ingestor: the frame of a successful attempt *)

Lemma length_normalize_labels (ls : list label) (names : list string) :
  normalize_labels ls = Ret names -> length names = length ls.
Proof.
  revert names. induction ls as [|l ls IH]; simpl; intros names H.
  - now injection H as <-.
  - destruct (normalize_label l) as [n|e]; simpl in H; [|discriminate].
    destruct (normalize_labels ls) as [ns|e]; simpl in H; [|discriminate].
    injection H as <-. simpl. f_equal. now apply IH.
Qed.

Lemma length_level0 (h : header) : length (level0 h) = header_len h.
Proof. destruct h; simpl; [reflexivity | apply length_map]. Qed.

Lemma occurrences_name_in (col : string) (names : list string) :
  occurrences col names = 1%nat -> name_in col names = true.
Proof.
  unfold occurrences, name_in. induction names as [|n names IH]; simpl; [discriminate|].
  destruct (String.eqb col n); simpl; auto.
Qed.

Lemma raw_column_In (col : string) (names : list string) :
  forall data : list (list raw_cell),
    name_in col names = true -> length data = length names ->
    In (raw_column col names data) data.
Proof.
  unfold name_in. induction names as [|n names IH]; intros [|xs data] Hin Hlen;
    simpl in *; try discriminate.
  destruct (String.eqb col n); [now left|]. right. apply IH; [exact Hin | lia].
Qed.

Lemma length_to_numeric (xs : list raw_cell) : length (to_numeric xs) = length xs.
Proof. unfold to_numeric. apply length_map. Qed.

(** What the [try] block returns on a table that has rows and each required
    column once. *)
Lemma ingest_attempt_accepts (ticker : string) (rf : RawFrame) (names : list string) :
  raw_empty rf = false ->
  normalized_columns rf = Ret names ->
  (forall col, In col required_ohlcv_cols -> occurrences col names = 1%nat) ->
  ingest_attempt ticker rf
  = Ret {| index := DatetimeIndex (raw_index rf);
           columns :=
             map (fun col => (col, NumCol (to_numeric (raw_column col names (raw_data rf)))))
                 required_ohlcv_cols
             ++ [("ticker", ObjCol (repeat (Some ticker) (length (raw_index rf))))] |}.
Proof.
  intros He Hnames Hocc. unfold ingest_attempt. rewrite He, Hnames. cbn [obind].
  assert (Hmiss : missing_cols names = []).
  { unfold missing_cols.
    assert (H : forall cols, (forall col, In col cols -> occurrences col names = 1%nat) ->
                             filter (fun col => negb (name_in col names)) cols = []).
    { induction cols as [|c cols IH]; intros Hc; simpl; [reflexivity|].
      rewrite (occurrences_name_in c names) by (apply Hc; now left). simpl.
      apply IH. intros col Hin. apply Hc. now right. }
    now apply H. }
  rewrite Hmiss.
  assert (Hdup : existsb (fun col => (1 <? occurrences col names)%nat)
                         required_ohlcv_cols = false).
  { destruct (existsb _ required_ohlcv_cols) eqn:E; [|reflexivity].
    apply existsb_exists in E. destruct E as (col & Hin & Hlt).
    rewrite (Hocc col Hin) in Hlt. discriminate. }
  now rewrite Hdup.
Qed.

(** X2: when the first attempt that does not raise answers a table with
    rows in which, after normalisation of the labels, each of open, high,
    low, close and volume occurs once, [ingest_data] returns a non-empty
    frame with the table's dates as date index, exactly the columns open,
    high, low, close, volume and ticker in this order, the five holding the
    table's values coerced to numbers and the last the requested ticker in
    every row; every column is as long as the index. *)
Theorem ingest_data_frame_shape
        (provider : string -> string -> string -> nat -> outcome RawFrame)
        (ticker start end_ : string) (retry_count k : nat)
        (rf : RawFrame) (names : list string) :
  (k < retry_count)%nat ->
  (forall j, (j < k)%nat ->
             exists e, attempt_outcome provider ticker start end_ j = Raise e) ->
  provider ticker start end_ k = Ret rf ->
  raw_empty rf = false ->
  raw_well_formed rf ->
  normalized_columns rf = Ret names ->
  (forall col, In col required_ohlcv_cols -> occurrences col names = 1%nat) ->
  exists df,
    ingest_data provider ticker start end_ retry_count
    = (Ret df, attempts_trace ticker (S k))
    /\ empty df = false
    /\ ohlcv_frame df
    /\ index df = DatetimeIndex (raw_index rf)
    /\ map fst (columns df) = ["open"; "high"; "low"; "close"; "volume"; "ticker"]
    /\ get_col "ticker" df
       = Some (ObjCol (repeat (Some ticker) (length (raw_index rf))))
    /\ forall col, In col required_ohlcv_cols ->
         get_col col df
         = Some (NumCol (to_numeric (raw_column col names (raw_data rf)))).
Proof.
  intros Hk Hraise Hrf He [Hcols Hrows] Hnames Hocc.
  pose proof (ingest_attempt_accepts ticker rf He Hnames Hocc) as Hacc.
  eexists. split.
  { apply ingest_data_first_answer; [exact Hk | exact Hraise |].
    unfold attempt_outcome. rewrite Hrf. simpl. exact Hacc. }
  assert (Hlen : forall col, In col required_ohlcv_cols ->
                   length (to_numeric (raw_column col names (raw_data rf)))
                   = length (raw_index rf)).
  { intros col Hin. rewrite length_to_numeric.
    rewrite Forall_forall in Hrows. apply Hrows.
    apply raw_column_In; [apply occurrences_name_in; now apply Hocc|].
    unfold normalized_columns in Hnames.
    rewrite (length_normalize_labels _ Hnames), length_level0. exact Hcols. }
  assert (Hrowspos : (0 < length (raw_index rf))%nat).
  { unfold raw_empty in He. apply orb_false_iff in He. destruct He as [He _].
    apply Nat.eqb_neq in He. lia. }
  split.
  { unfold empty, len. simpl. apply orb_false_iff. split; [|reflexivity].
    apply Nat.eqb_neq. lia. }
  split.
  { split; [|split; [reflexivity|split; [|reflexivity]]].
    - unfold well_formed, len. simpl.
      repeat (constructor; [simpl; first [apply Hlen; simpl; tauto | apply repeat_length]|]).
      constructor.
    - intros col Hin. simpl in Hin.
      repeat (destruct Hin as [<-|Hin]; [eexists; reflexivity|]). contradiction. }
  split; [reflexivity|]. split; [reflexivity|]. split; [reflexivity|].
  intros col Hin. simpl in Hin.
  repeat (destruct Hin as [<-|Hin]; [reflexivity|]). contradiction.
Qed.

Lemma ingest_data_frame_shape_witness :
  exists df,
    ingest_data mixed_provider "KO" "2020-01-01" "2024-01-05" 3
    = (Ret df, attempts_trace "KO" 1)
    /\ empty df = false
    /\ ohlcv_frame df
    /\ index df = DatetimeIndex (raw_index full_table)
    /\ map fst (columns df) = ["open"; "high"; "low"; "close"; "volume"; "ticker"]
    /\ get_col "ticker" df = Some (ObjCol (repeat (Some "KO") (length (raw_index full_table))))
    /\ forall col, In col required_ohlcv_cols ->
         get_col col df
         = Some (NumCol (to_numeric (raw_column col ["close"; "high"; "low"; "open"; "volume"]
                                                 (raw_data full_table)))).
Proof.
  apply (@ingest_data_frame_shape mixed_provider "KO" "2020-01-01" "2024-01-05" 3 0
           full_table ["close"; "high"; "low"; "open"; "volume"]).
  - lia.
  - intros j Hj. lia.
  - reflexivity.
  - reflexivity.
  - split; [reflexivity|]. repeat constructor.
  - reflexivity.
  - intros col Hin. simpl in Hin.
    repeat (destruct Hin as [<-|Hin]; [reflexivity|]). contradiction.
Defined.
(** ** Cleaner: what filling does *)

Section Filling.
Variable A : Type.
Implicit Types (xs ys : list (option A)) (last : option A).

Lemma last_valid_snoc xs (x : option A) :
  last_valid (xs ++ [x])
  = match x with Some v => Some v | None => last_valid xs end.
Proof.
  induction xs as [|y xs IH]; simpl.
  - now destruct x.
  - rewrite IH. destruct x; [reflexivity|]. reflexivity.
Qed.

Lemma firstn_S_nth xs (i : nat) :
  (i < length xs)%nat -> firstn (S i) xs = firstn i xs ++ [nth i xs None].
Proof.
  revert i. induction xs as [|x xs IH]; intros i Hi; simpl in Hi; [lia|].
  destruct i as [|i]; [reflexivity|].
  change (firstn (S (S i)) (x :: xs)) with (x :: firstn (S i) xs).
  rewrite IH by lia. reflexivity.
Qed.

Lemma nth_ffill_from xs :
  forall last i, (i < length xs)%nat ->
    nth i (ffill_from last xs) None
    = match last_valid (firstn (S i) xs) with
      | Some v => Some v
      | None => last
      end.
Proof.
  induction xs as [|x xs IH]; intros last i Hi; simpl in Hi; [lia|].
  destruct i as [|i].
  - simpl. now destruct x.
  - change (firstn (S (S i)) (x :: xs)) with (x :: firstn (S i) xs).
    cbn [ffill_from nth last_valid]. rewrite IH by lia.
    destruct (last_valid (firstn (S i) xs)); [reflexivity|]. now destruct x.
Qed.

Lemma hd_bfill ys : hd None (bfill ys) = first_valid ys.
Proof.
  induction ys as [|y ys IH]; simpl; [reflexivity|]. now destruct y.
Qed.

Lemma nth_bfill ys :
  forall i, (i < length ys)%nat ->
    nth i (bfill ys) None
    = match nth i ys None with
      | Some v => Some v
      | None => first_valid (skipn (S i) ys)
      end.
Proof.
  induction ys as [|y ys IH]; intros i Hi; simpl in Hi; [lia|].
  destruct i as [|i].
  - simpl. destruct y; [reflexivity | apply hd_bfill].
  - cbn [bfill nth skipn]. apply IH. lia.
Qed.

Lemma first_valid_ffill_none xs : first_valid (ffill_from None xs) = first_valid xs.
Proof.
  induction xs as [|x xs IH]; simpl; [reflexivity|]. now destruct x.
Qed.

Lemma skipn_ffill_none xs :
  forall i, (i < length xs)%nat ->
    nth i (ffill_from None xs) None = None ->
    skipn (S i) (ffill_from None xs) = ffill_from None (skipn (S i) xs).
Proof.
  induction xs as [|x xs IH]; intros i Hi Hn; simpl in Hi; [lia|].
  destruct i as [|i].
  - simpl in *. destruct x; [discriminate | reflexivity].
  - cbn [ffill_from nth] in Hn. destruct x as [v|].
    + exfalso. pose proof (ffill_from_some_all_some xs v) as Hs.
      unfold all_some in Hs. rewrite Forall_forall in Hs.
      assert (Hin : In (nth i (ffill_from (Some v) xs) None) (ffill_from (Some v) xs))
        by (apply nth_In; rewrite length_ffill_from; lia).
      specialize (Hs _ Hin). rewrite Hn in Hs. discriminate.
    + cbn [ffill_from skipn]. apply IH; [lia | exact Hn].
Qed.

(** The value of [s.ffill().bfill()] at a row: the most recent value up to
    the row, or else the first value after it. *)
Lemma nth_fill xs (i : nat) :
  (i < length xs)%nat ->
  nth i (bfill (ffill xs)) None
  = match last_valid (firstn (S i) xs) with
    | Some v => Some v
    | None => first_valid (skipn (S i) xs)
    end.
Proof.
  intros Hi. unfold ffill.
  rewrite nth_bfill by (rewrite length_ffill_from; exact Hi).
  rewrite nth_ffill_from by exact Hi.
  destruct (last_valid (firstn (S i) xs)) as [v|] eqn:E; [reflexivity|].
  rewrite skipn_ffill_none; [apply first_valid_ffill_none | exact Hi |].
  rewrite nth_ffill_from by exact Hi. now rewrite E.
Qed.

Lemma last_valid_present xs (i : nat) (v : A) :
  (i < length xs)%nat -> nth i xs None = Some v ->
  last_valid (firstn (S i) xs) = Some v.
Proof.
  intros Hi Hv. rewrite firstn_S_nth by exact Hi.
  now rewrite last_valid_snoc, Hv.
Qed.

Lemma last_valid_In xs (v : A) : last_valid xs = Some v -> In (Some v) xs.
Proof.
  induction xs as [|x xs IH]; simpl; [discriminate|].
  destruct (last_valid xs) as [w|].
  - intros [= ->]. right. now apply IH.
  - intros ->. now left.
Qed.

Lemma first_valid_In xs (v : A) : first_valid xs = Some v -> In (Some v) xs.
Proof.
  induction xs as [|x xs IH]; simpl; [discriminate|].
  destruct x as [w|]; [intros [= ->]; now left | intros H; right; now apply IH].
Qed.

(** X3: [s.ffill().bfill()] keeps the length of the series and takes, at
    each row, the most recent value at or before the row, or, when there is
    none, the first value after it.  So a value that is present is never
    changed, and every value of the filled series is a value of the series. *)
Theorem fill_semantics xs :
  length (bfill (ffill xs)) = length xs
  /\ (forall i, (i < length xs)%nat ->
        nth i (bfill (ffill xs)) None
        = match last_valid (firstn (S i) xs) with
          | Some v => Some v
          | None => first_valid (skipn (S i) xs)
          end)
  /\ (forall i v, nth i xs None = Some v -> nth i (bfill (ffill xs)) None = Some v)
  /\ (forall v, In (Some v) (bfill (ffill xs)) -> In (Some v) xs).
Proof.
  assert (Hlen : length (bfill (ffill xs)) = length xs)
    by (unfold ffill; now rewrite length_bfill, length_ffill_from).
  split; [exact Hlen|]. split; [intros i Hi; now apply nth_fill|]. split.
  - intros i v Hv.
    assert (Hi : (i < length xs)%nat).
    { destruct (Nat.lt_ge_cases i (length xs)) as [H|H]; [exact H|].
      rewrite nth_overflow in Hv by exact H. discriminate. }
    rewrite nth_fill by exact Hi. now rewrite (@last_valid_present xs i v Hi Hv).
  - intros v Hin. apply (In_nth _ _ None) in Hin. destruct Hin as (i & Hi & Hv).
    rewrite Hlen in Hi. rewrite nth_fill in Hv by exact Hi.
    destruct (last_valid (firstn (S i) xs)) as [w|] eqn:E.
    + injection Hv as ->. apply last_valid_In in E.
      rewrite <- (firstn_skipn (S i) xs). apply in_or_app. now left.
    + apply first_valid_In in Hv.
      rewrite <- (firstn_skipn (S i) xs). apply in_or_app. now right.
Qed.

(** A series with a value is complete once filled. *)
Lemma fill_complete xs :
  ~ all_none xs -> all_some (bfill (ffill xs)).
Proof.
  intros Hsome. destruct (fill_uniform xs) as [Hnone|Hall]; [|exact Hall].
  exfalso. apply Hsome. unfold all_none in *. rewrite Forall_forall in *.
  intros x Hx. destruct x as [v|]; [|reflexivity].
  apply (In_nth _ _ None) in Hx. destruct Hx as (i & Hi & Hv).
  assert (Hf : nth i (bfill (ffill xs)) None = Some v).
  { rewrite nth_fill by exact Hi. now rewrite (@last_valid_present xs i v Hi Hv). }
  assert (Hin : In (nth i (bfill (ffill xs)) None) (bfill (ffill xs))).
  { apply nth_In. unfold ffill. now rewrite length_bfill, length_ffill_from. }
  rewrite Hf in Hin. specialize (Hnone _ Hin). discriminate.
Qed.

End Filling.
(** ** Cleaner: what a pass keeps *)

Lemma names_assign_col (name : string) (c c0 : column) (cols : list (string * column)) :
  lookup_col name cols = Some c0 ->
  map fst (assign_col name c cols) = map fst cols.
Proof.
  induction cols as [|[n c1] cols IH]; simpl; [discriminate|].
  destruct (String.eqb name n) eqn:E; simpl; [reflexivity|].
  intros H. now rewrite IH.
Qed.

Lemma names_map_cols (f : column -> column) (cols : list (string * column)) :
  map fst (map_cols f cols) = map fst cols.
Proof. unfold map_cols. rewrite map_map. reflexivity. Qed.

Lemma names_fill_step (d : DataFrame) (col : string) :
  map fst (columns (fill_step d col)) = map fst (columns d).
Proof.
  unfold fill_step. destruct (get_col col d) as [c|] eqn:E; [|reflexivity].
  simpl. now apply names_assign_col with (c0 := c).
Qed.

Lemma names_fill_columns (df : DataFrame) :
  map fst (columns (fill_columns df)) = map fst (columns df).
Proof.
  rewrite fill_columns_fold. generalize ohlcv_cols as cols. intros cols. revert df.
  induction cols as [|c cols IH]; intros df; simpl; [reflexivity|].
  now rewrite IH, names_fill_step.
Qed.

Lemma names_dropna (subset : list string) (df : DataFrame) :
  map fst (columns (dropna_all subset df)) = map fst (columns df).
Proof. rewrite dropna_all_mask. simpl. apply names_map_cols. Qed.

Lemma names_clip_outliers (col : string) (df df' : DataFrame) :
  clip_outliers col df = Ret df' -> map fst (columns df') = map fst (columns df).
Proof.
  intros H. destruct (clip_outliers_cases _ _ H) as [[-> _]|(xs & Hget & ->)];
    [reflexivity|].
  simpl. now apply names_assign_col with (c0 := NumCol xs).
Qed.

Lemma names_sort_index (df : DataFrame) :
  map fst (columns (sort_index df)) = map fst (columns df).
Proof. rewrite columns_sort_index. apply names_map_cols. Qed.

Lemma is_datetime_index_ext (a b : DataFrame) :
  index a = index b -> is_datetime_index a = is_datetime_index b.
Proof. unfold is_datetime_index. now intros ->. Qed.

Lemma is_datetime_dropna (subset : list string) (df : DataFrame) :
  is_datetime_index (dropna_all subset df) = is_datetime_index df.
Proof.
  rewrite dropna_all_mask. unfold is_datetime_index. simpl. now destruct (index df).
Qed.

Lemma is_datetime_sort_index (df : DataFrame) :
  is_datetime_index (sort_index df) = is_datetime_index df.
Proof. unfold sort_index, is_datetime_index. now destruct (index df). Qed.

Lemma len_fill_columns (df : DataFrame) : len (fill_columns df) = len df.
Proof. unfold len. now rewrite index_fill_columns. Qed.

(** The passes of [clean_data] on a frame with rows and numeric close and
    volume. *)
Lemma clean_data_stages (df : DataFrame) :
  empty df = false ->
  numeric_or_absent "close" df -> numeric_or_absent "volume" df ->
  exists d1 d2,
    clip_outliers "close" (fill_and_drop df) = Ret d1
    /\ clip_outliers "volume" d1 = Ret d2
    /\ clean_data df = Ret (sort_index d2).
Proof.
  intros He Hnc Hnv.
  destruct (clip_outliers_numeric "close" (fill_and_drop df)
              (numeric_fill_and_drop _ _ Hnc)) as [d1 E1].
  assert (Hnv1 : numeric_or_absent "volume" d1).
  { apply (@numeric_clip_outliers _ _ _ E1). now apply numeric_fill_and_drop. }
  destruct (clip_outliers_numeric "volume" d1 Hnv1) as [d2 E2].
  exists d1, d2. split; [exact E1|]. split; [exact E2|].
  rewrite (clean_data_unfold _ He), E1. simpl. now rewrite E2.
Qed.

Lemma col_fill_complete (c : column) : ~ col_all_na c -> col_no_na (col_fill c).
Proof. destruct c; simpl; apply fill_complete. Qed.

(** After the fill loop the row drop keeps every row or none. *)
Lemma fill_and_drop_all_or_none (df : DataFrame) :
  well_formed df ->
  (has_full_col (fill_columns df) /\ fill_and_drop df = fill_columns df)
  \/ len (fill_and_drop df) = 0%nat.
Proof.
  intros Hwf. rewrite fill_and_drop_eq.
  set (d1 := fill_columns df).
  assert (Hw1 : well_formed d1) by now apply well_formed_fill_columns.
  assert (Hf1 : filled d1) by apply filled_fill_columns.
  destruct (length (filter (fun b => b) (row_mask (present_ohlcv d1) d1))) eqn:E.
  - right. now rewrite len_dropna.
  - left.
    destruct (filter_nonempty_nth (row_mask (present_ohlcv d1) d1) ltac:(lia)) as [i Hi].
    destruct (row_mask_nth _ _ _ Hi) as (name & c & Hin & Hget & Hna).
    apply In_present_ohlcv in Hin. destruct Hin as [Hin _].
    assert (Hfull : has_full_col d1).
    { exists name, c. split; [exact Hin|]. split; [exact Hget|].
      apply (@col_notna_no_na c i); [now apply (Hf1 name) | exact Hna]. }
    split; [exact Hfull | now apply dropna_fixed].
Qed.

(** X4: after the fill loop a price/volume column has a value in every row
    or in none, so the row drop of [clean_data] is all or nothing: the
    result has as many rows as the input, or no row at all; and it keeps
    every row as soon as one price/volume column holds a value. *)
Theorem clean_data_rows_all_or_none (df : DataFrame) :
  well_formed df ->
  numeric_or_absent "close" df -> numeric_or_absent "volume" df ->
  exists out,
    clean_data df = Ret out
    /\ (len out = len df \/ len out = 0%nat)
    /\ ((exists name c, In name ohlcv_cols /\ get_col name df = Some c
                        /\ ~ col_all_na c) ->
        len out = len df).
Proof.
  intros Hwf Hnc Hnv. destruct (empty df) eqn:He.
  - exists df. unfold clean_data. rewrite He. auto.
  - destruct (clean_data_stages df He Hnc Hnv) as (d1 & d2 & E1 & E2 & Hout).
    exists (sort_index d2). split; [exact Hout|].
    assert (Hlen : len (sort_index d2) = len (fill_and_drop df)).
    { rewrite len_sort_index, (@len_clip_outliers _ _ _ E2).
      apply (@len_clip_outliers _ _ _ E1). }
    rewrite Hlen. split.
    + destruct (fill_and_drop_all_or_none Hwf) as [[_ ->]|Hz];
        [left; apply len_fill_columns | now right].
    + intros (name & c & Hin & Hget & Hsome).
      assert (Hfull : has_full_col (fill_columns df)).
      { exists name, (col_fill c). split; [exact Hin|]. split.
        - rewrite fill_columns_fold, (get_col_fold_fill ohlcv_cols_NoDup).
          rewrite (In_ohlcv_existsb Hin), Hget. reflexivity.
        - now apply col_fill_complete. }
      rewrite fill_and_drop_eq, dropna_fixed;
        [apply len_fill_columns | now apply well_formed_fill_columns | exact Hfull].
Qed.

Lemma clean_data_rows_all_or_none_witness :
  exists out,
    clean_data ragged_frame = Ret out
    /\ (len out = len ragged_frame \/ len out = 0%nat)
    /\ ((exists name c, In name ohlcv_cols /\ get_col name ragged_frame = Some c
                        /\ ~ col_all_na c) ->
        len out = len ragged_frame).
Proof.
  apply (@clean_data_rows_all_or_none ragged_frame).
  - apply well_formed_iff. vm_compute. reflexivity.
  - vm_compute. exact I.
  - vm_compute. exact I.
Defined.

(** X5: on a frame with rows (and numeric close and volume) [clean_data]
    returns a frame with the same columns in the same order and the same
    kind of index, every column as long as the index, the index ascending,
    no more rows than before, and in each price/volume column a value in
    every row or in none. *)
Theorem clean_data_invariants (df : DataFrame) :
  well_formed df -> empty df = false ->
  numeric_or_absent "close" df -> numeric_or_absent "volume" df ->
  exists out,
    clean_data df = Ret out
    /\ well_formed out
    /\ index_sorted out
    /\ filled out
    /\ map fst (columns out) = map fst (columns df)
    /\ is_datetime_index out = is_datetime_index df
    /\ (len out <= len df)%nat.
Proof.
  intros Hwf He Hnc Hnv.
  destruct (clean_data_stages df He Hnc Hnv) as (d1 & d2 & E1 & E2 & Hout).
  exists (sort_index d2). split; [exact Hout|].
  assert (Hw2 : well_formed d2).
  { apply (@well_formed_clip_outliers _ _ _ E2), (@well_formed_clip_outliers _ _ _ E1).
    now apply well_formed_fill_and_drop. }
  split; [apply well_formed_sort_index|].
  split; [apply index_sorted_sort_index|].
  split.
  { apply filled_sort_index; [exact Hw2|].
    apply (@filled_clip_outliers _ _ _ E2), (@filled_clip_outliers _ _ _ E1).
    apply filled_fill_and_drop. }
  split.
  { rewrite names_sort_index, (names_clip_outliers _ _ E2), (names_clip_outliers _ _ E1).
    rewrite fill_and_drop_eq, names_dropna. apply names_fill_columns. }
  split.
  { rewrite is_datetime_sort_index.
    rewrite (is_datetime_index_ext d2 d1 (@index_clip_outliers _ _ _ E2)).
    rewrite (is_datetime_index_ext d1 _ (@index_clip_outliers _ _ _ E1)).
    rewrite fill_and_drop_eq, is_datetime_dropna.
    apply is_datetime_index_ext, index_fill_columns. }
  rewrite len_sort_index, (@len_clip_outliers _ _ _ E2), (@len_clip_outliers _ _ _ E1).
  destruct (fill_and_drop_all_or_none Hwf) as [[_ ->]|Hz];
    [rewrite len_fill_columns | rewrite Hz]; lia.
Qed.

Lemma clean_data_invariants_witness :
  exists out,
    clean_data ragged_frame = Ret out
    /\ well_formed out
    /\ index_sorted out
    /\ filled out
    /\ map fst (columns out) = map fst (columns ragged_frame)
    /\ is_datetime_index out = is_datetime_index ragged_frame
    /\ (len out <= len ragged_frame)%nat.
Proof.
  apply (@clean_data_invariants ragged_frame).
  - apply well_formed_iff. vm_compute. reflexivity.
  - vm_compute. reflexivity.
  - vm_compute. exact I.
  - vm_compute. exact I.
Defined.

(** X6: [clean_data] clips close and volume and nothing else: every other
    column of the result, open, high and low among them, is the column
    that filling, the row drop and the sort alone give. *)
Theorem clean_data_clips_close_volume_only (df : DataFrame) :
  empty df = false ->
  numeric_or_absent "close" df -> numeric_or_absent "volume" df ->
  exists out,
    clean_data df = Ret out
    /\ forall name, name <> "close" -> name <> "volume" ->
         get_col name out = get_col name (sort_index (fill_and_drop df)).
Proof.
  intros He Hnc Hnv.
  destruct (clean_data_stages df He Hnc Hnv) as (d1 & d2 & E1 & E2 & Hout).
  exists (sort_index d2). split; [exact Hout|].
  intros name Hc Hv. rewrite !get_col_sort_index.
  assert (Hix : index d2 = index (fill_and_drop df))
    by now rewrite (@index_clip_outliers _ _ _ E2), (@index_clip_outliers _ _ _ E1).
  rewrite (index_positions_ext d2 _ Hix).
  rewrite (@get_col_clip_outliers_other _ _ _ E2 name Hv).
  now rewrite (@get_col_clip_outliers_other _ _ _ E1 name Hc).
Qed.

Lemma clean_data_clips_close_volume_only_witness :
  exists out,
    clean_data ragged_frame = Ret out
    /\ forall name, name <> "close" -> name <> "volume" ->
         get_col name out = get_col name (sort_index (fill_and_drop ragged_frame)).
Proof.
  apply (@clean_data_clips_close_volume_only ragged_frame).
  - vm_compute. reflexivity.
  - vm_compute. exact I.
  - vm_compute. exact I.
Defined.
(** ** Cleaner: sorting, clipping and quartiles *)

Section SortPermutation.
Variable A : Type.
Variable leb : A -> A -> bool.

Lemma Permutation_insert_by (x : A) (l : list A) :
  Permutation (insert_by leb x l) (x :: l).
Proof.
  induction l as [|y l IH]; simpl; [reflexivity|].
  destruct (leb x y); [reflexivity|].
  rewrite IH. apply perm_swap.
Qed.

Lemma Permutation_sort_by (l : list A) : Permutation (sort_by leb l) l.
Proof.
  induction l as [|x l IH]; simpl; [reflexivity|].
  rewrite Permutation_insert_by. now constructor.
Qed.
End SortPermutation.

Lemma Permutation_sort_positions (A : Type) (leb : A -> A -> bool) (keys : list A) :
  Permutation (sort_positions leb keys) (seq 0 (length keys)).
Proof.
  unfold sort_positions.
  rewrite (Permutation_map snd (Permutation_sort_by (key_leb leb) _)).
  rewrite map_snd_combine by now rewrite length_seq. reflexivity.
Qed.

Lemma Permutation_take_sort_positions (A : Type) (leb : A -> A -> bool) (d : A)
      (keys : list A) :
  Permutation (take_rows d (sort_positions leb keys) keys) keys.
Proof.
  rewrite take_rows_sort_positions.
  rewrite (Permutation_map fst (Permutation_sort_by (key_leb leb) _)).
  assert (H : forall (ps : list nat), length keys = length ps ->
                                     map fst (combine keys ps) = keys).
  { induction keys as [|k keys' IH]; intros [|p ps] Hl; simpl in *;
      try discriminate; auto. f_equal. apply IH. lia. }
  rewrite H by now rewrite length_seq. reflexivity.
Qed.

(** X7: [sort_index] loses and invents no row.  The result's index is
    ascending and a permutation of the input's; the rows are moved as a
    whole, each column by the same rearrangement of the row positions. *)
Theorem sort_index_permutes_rows (df : DataFrame) :
  Permutation (index_positions df) (seq 0 (len df))
  /\ index_sorted (sort_index df)
  /\ match index df, index (sort_index df) with
     | DatetimeIndex ds, DatetimeIndex ds' => Permutation ds' ds
     | PlainIndex ks, PlainIndex ks' => Permutation ks' ks
     | _, _ => False
     end
  /\ forall name, get_col name (sort_index df)
                  = option_map (col_take (index_positions df)) (get_col name df).
Proof.
  split.
  { unfold index_positions, len. destruct (index df); simpl;
      apply Permutation_sort_positions. }
  split; [apply index_sorted_sort_index|]. split.
  { unfold sort_index. destruct (index df); simpl;
      apply Permutation_take_sort_positions. }
  intros name. apply get_col_sort_index.
Qed.

(** X8: the two [np.where] assignments of the clipping step together clamp
    each value to the fence: a value below the lower bound becomes the
    lower bound, a value above the upper bound the upper bound, and a value
    inside the fence, like a missing one, stays as it is. *)
Theorem clip_values_clamps (xs : list cell) (lower upper : Q) (i : nat) :
  fence xs = Some (lower, upper) ->
  (i < length xs)%nat ->
  match nth i xs None with
  | None => nth i (clip_values xs) None = None
  | Some q =>
      (q < lower -> nth i (clip_values xs) None = Some lower)
      /\ (upper < q -> nth i (clip_values xs) None = Some upper)
      /\ (lower <= q <= upper -> nth i (clip_values xs) None = Some q)
  end.
Proof.
  intros Hf Hi. pose proof (fence_ordered xs Hf) as Hlu.
  rewrite (clip_values_map _ Hf).
  rewrite (nth_map_in (clip_cell lower upper) None None) by exact Hi.
  destruct (nth i xs None) as [q|]; [|reflexivity].
  unfold clip_cell. simpl. split; [|split].
  - intros Hq. apply Qlt_bool_iff in Hq. rewrite Hq. simpl.
    assert (H : Qlt_bool upper lower = false) by (apply Qlt_bool_false_iff; lra).
    now rewrite H.
  - intros Hq.
    assert (H1 : Qlt_bool q lower = false) by (apply Qlt_bool_false_iff; lra).
    rewrite H1. simpl. apply Qlt_bool_iff in Hq. now rewrite Hq.
  - intros [H1 H2]. apply Qlt_bool_false_iff in H1. rewrite H1. simpl.
    apply Qlt_bool_false_iff in H2. now rewrite H2.
Qed.

Lemma clip_values_clamps_witness :
  (5 < (4224 # 128) -> nth 0 (clip_values [Some 5; Some 40; Some 42; Some 44; Some 46; Some 90]) None
                    = Some (4224 # 128))
  /\ ((6784 # 128) < 5 -> nth 0 (clip_values [Some 5; Some 40; Some 42; Some 44; Some 46; Some 90]) None
                       = Some (6784 # 128))
  /\ ((4224 # 128) <= 5 <= (6784 # 128) ->
      nth 0 (clip_values [Some 5; Some 40; Some 42; Some 44; Some 46; Some 90]) None = Some 5).
Proof.
  apply (@clip_values_clamps [Some 5; Some 40; Some 42; Some 44; Some 46; Some 90]
           (4224 # 128) (6784 # 128) 0).
  - vm_compute. reflexivity.
  - simpl. lia.
Defined.
(** *** Quartiles are ordered *)

Lemma sorted_nth_le (s : list Q) (d : Q) :
  sorted Qle_bool s ->
  forall i j, (i <= j)%nat -> (j < length s)%nat -> nth i s d <= nth j s d.
Proof.
  induction s as [|x s IH]; intros Hs i j Hij Hj; simpl in Hj; [lia|].
  destruct Hs as [Hx Hs].
  assert (Hhead : forall k, (k < length s)%nat -> x <= nth k s d).
  { intros k Hk. destruct s as [|y s']; simpl in Hk; [lia|].
    apply Qle_bool_iff in Hx.
    apply Qle_trans with (y := y); [exact Hx|].
    apply (IH Hs 0%nat k); [lia | exact Hk]. }
  destruct i as [|i], j as [|j]; simpl; try lia.
  - apply Qle_refl.
  - apply Hhead. lia.
  - apply IH; [exact Hs | lia | lia].
Qed.

Lemma Qle_bool_total (x y : Q) : Qle_bool x y = false -> Qle_bool y x = true.
Proof.
  intros H. apply Qle_bool_iff.
  destruct (Qlt_le_dec y x) as [Hlt|Hle]; [now apply Qlt_le_weak|].
  apply Qle_bool_iff in Hle. congruence.
Qed.

Lemma quantile_interpolate (q : Q) (xs : list cell) :
  quantile q xs
  = match sort_by Qle_bool (valid xs) with
    | [] => None
    | x0 :: rest =>
        Some (interpolate (x0 :: rest) x0
                          (Qofnat (length (x0 :: rest) - 1) * q))
    end.
Proof. unfold quantile. now destruct (sort_by Qle_bool (valid xs)). Qed.

Lemma interpolate_monotone (s : list Q) (x0 p1 p2 : Q) :
  sorted Qle_bool s ->
  0 <= p1 -> p1 <= p2 -> p2 <= Qofnat (length s - 1) -> (0 < length s)%nat ->
  interpolate s x0 p1 <= interpolate s x0 p2.
Proof.
  intros Hs H0 H12 Hn Hlen. unfold interpolate.
  set (f1 := Qfloor p1). set (f2 := Qfloor p2).
  assert (Hf1 : (0 <= f1)%Z).
  { unfold f1. rewrite <- (Qfloor_Z 0). now apply Qfloor_resp_le. }
  assert (Hf12 : (f1 <= f2)%Z) by (unfold f1, f2; now apply Qfloor_resp_le).
  assert (Hf2 : (f2 <= Z.of_nat (length s - 1))%Z).
  { unfold f2. rewrite <- (Qfloor_Z (Z.of_nat (length s - 1))).
    now apply Qfloor_resp_le. }
  pose proof (Qfloor_le p1) as Hl1. pose proof (Qlt_floor p1) as Hu1.
  pose proof (Qfloor_le p2) as Hl2. pose proof (Qlt_floor p2) as Hu2.
  fold f1 in Hl1, Hu1. fold f2 in Hl2, Hu2.
  rewrite inject_Z_plus in Hu1, Hu2. change (inject_Z 1) with 1 in Hu1, Hu2.
  set (lo1 := Z.to_nat f1). set (lo2 := Z.to_nat f2).
  assert (Hlo12 : (lo1 <= lo2)%nat) by (unfold lo1, lo2; lia).
  assert (Hlo2 : (lo2 < length s)%nat) by (unfold lo2; lia).
  assert (Hhi : forall lo, (lo < length s)%nat ->
                           nth lo s x0 <= nth (S lo) s (nth lo s x0)).
  { intros lo Hlo. destruct (Nat.lt_ge_cases (S lo) (length s)) as [Hin|Hout].
    - rewrite (nth_indep s (nth lo s x0) x0 Hin).
      apply sorted_nth_le; [exact Hs | lia | exact Hin].
    - rewrite (nth_overflow s (nth lo s x0) Hout). apply Qle_refl. }
  pose proof (Hhi lo1 ltac:(lia)) as Hd1. pose proof (Hhi lo2 Hlo2) as Hd2.
  set (a1 := nth lo1 s x0) in *. set (b1 := nth (S lo1) s a1) in *.
  set (a2 := nth lo2 s x0) in *. set (b2 := nth (S lo2) s a2) in *.
  set (r1 := p1 - inject_Z f1). set (r2 := p2 - inject_Z f2).
  assert (Hr1 : 0 <= r1 /\ r1 <= 1) by (unfold r1; split; lra).
  assert (Hr2 : 0 <= r2 /\ r2 <= 1) by (unfold r2; split; lra).
  destruct (Nat.eq_dec lo1 lo2) as [Heq|Hne].
  - assert (Hff : f1 = f2) by (unfold lo1, lo2 in Heq; lia).
    assert (Hrr : r1 <= r2) by (unfold r1, r2; rewrite Hff; lra).
    assert (Ha : a1 = a2) by (unfold a1, a2; now rewrite Heq).
    assert (Hb : b1 = b2) by (unfold b1, b2; now rewrite Heq, Ha).
    rewrite Ha, Hb in *. nra.
  - assert (Hmid : b1 <= a2).
    { unfold b1, a2.
      rewrite (nth_indep s a1 x0) by lia.
      apply sorted_nth_le; [exact Hs | lia | exact Hlo2]. }
    apply Qle_trans with (y := b1); [nra|].
    apply Qle_trans with (y := a2); [exact Hmid | nra].
Qed.

Lemma length_valid_sorted (xs : list cell) :
  length (sort_by Qle_bool (valid xs)) = length (valid xs).
Proof. apply length_sort_by. Qed.

(** X9: the first quartile of a series is never above the third, so the
    IQR of the clipping step is never negative: the guard [IQR > 0] skips
    the clipping exactly when the two quartiles coincide (or the series has
    no value at all). *)
Theorem quartiles_ordered (xs : list cell) (Q1 Q3 : Q) :
  quantile (1#4) xs = Some Q1 ->
  quantile (3#4) xs = Some Q3 ->
  Q1 <= Q3 /\ (fence xs = None <-> Q3 - Q1 == 0).
Proof.
  intros H1 H3.
  assert (Hle : Q1 <= Q3).
  { rewrite quantile_interpolate in H1, H3.
    pose proof (sorted_sort_by Qle_bool Qle_bool_total (valid xs)) as Hs.
    destruct (sort_by Qle_bool (valid xs)) as [|x0 rest]; [discriminate|].
    injection H1 as <-. injection H3 as <-.
    change (length (x0 :: rest) - 1)%nat with (length rest - 0)%nat.
    assert (Hn : 0 <= Qofnat (length rest - 0)).
    { unfold Qofnat, Qle. simpl. lia. }
    set (P := Qofnat (length rest - 0)) in *.
    apply interpolate_monotone;
      [ exact Hs | lra | lra
      | change (length (x0 :: rest) - 1)%nat with (length rest - 0)%nat; fold P; lra
      | simpl; lia ]. }
  split; [exact Hle|]. unfold fence. rewrite H1, H3.
  destruct (Qlt_bool 0 (Q3 - Q1)) eqn:E.
  - apply Qlt_bool_iff in E. split; [discriminate | intros Hz; lra].
  - apply Qlt_bool_false_iff in E. split; [intros _; lra | reflexivity].
Qed.

Lemma quartiles_ordered_witness :
  exists Q1 Q3,
    quantile (1#4) [Some 5; None; Some 40; Some 42] = Some Q1
    /\ quantile (3#4) [Some 5; None; Some 40; Some 42] = Some Q3
    /\ Q1 <= Q3
    /\ (fence [Some 5; None; Some 40; Some 42] = None <-> Q3 - Q1 == 0).
Proof.
  do 2 eexists. split; [vm_compute; reflexivity|]. split; [vm_compute; reflexivity|].
  apply (@quartiles_ordered [Some 5; None; Some 40; Some 42]);
    vm_compute; reflexivity.
Defined.
(** ** Feature engineer: the columns it writes *)

Ltac col_other Hn :=
  try unfold has_col;
  repeat (rewrite get_set_other
           by (let E := fresh in intros E; apply Hn; rewrite E; simpl; tauto)).

Lemma length_ewm_from (alpha : Q) (xs : list cell) :
  forall weighted old_wt, length (ewm_from alpha weighted old_wt xs) = length xs.
Proof.
  induction xs as [|x xs IH]; intros weighted old_wt; simpl; [reflexivity|].
  destruct weighted as [w|]; [destruct x as [c|]|]; simpl; now rewrite IH.
Qed.

Lemma length_ewm_mean (span : Q) (xs : list cell) :
  length (ewm_mean span xs) = length xs.
Proof. destruct xs as [|x xs]; simpl; [reflexivity|]. now rewrite length_ewm_from. Qed.

Lemma length_pct_change (xs : list cell) : length (pct_change xs) = length xs.
Proof.
  unfold pct_change. pose proof (length_ffill_from xs None) as Hl. fold (ffill xs) in Hl.
  destruct (ffill xs) as [|d data] eqn:E; simpl in *; [exact Hl|].
  rewrite length_zip_with. simpl. lia.
Qed.

Lemma len_set_col (name : string) (c : column) (df : DataFrame) :
  len (set_col name c df) = len df.
Proof. reflexivity. Qed.

Lemma has_col_set_col_mono (name name' : string) (c : column) (df : DataFrame) :
  has_col name' df = true -> has_col name' (set_col name c df) = true.
Proof. intros H. rewrite has_col_set_col, H. apply orb_true_r. Qed.

Ltac series_length :=
  cbn [col_len]; rewrite ?len_set_col;
  rewrite ?length_map, ?length_zip_with, ?length_map, ?length_rolling,
          ?length_rsi, ?length_ewm_mean, ?length_pct_change;
  lia.

(** What each column of the result holds. *)
Lemma transform_data_columns (sqrtQ : Q -> Q) (df : DataFrame) (close : list cell) :
  empty df = false ->
  get_col "close" df = Some (NumCol close) ->
  numeric_or_absent "open" df ->
  exists out,
    transform_data sqrtQ df = Ret out
    /\ index out = index df
    /\ (well_formed df -> well_formed out)
    /\ (forall name, ~ In name derived_columns -> get_col name out = get_col name df)
    /\ (forall name, has_col name df = true -> has_col name out = true)
    /\ ((10 <= len df)%nat ->
        get_col "SMA_10" out = Some (NumCol (rolling 10 mean close))
        /\ get_col "EMA_10" out = Some (NumCol (ewm_mean 10 close)))
    /\ ((50 <= len df)%nat ->
        get_col "SMA_50" out = Some (NumCol (rolling 50 mean close))
        /\ get_col "EMA_50" out = Some (NumCol (ewm_mean 50 close)))
    /\ ((20 <= len df)%nat ->
        get_col "BB_Middle" out = Some (NumCol (rolling 20 mean close))
        /\ get_col "BB_StdDev" out = Some (NumCol (rolling 20 (std sqrtQ) close))
        /\ get_col "BB_Upper" out
           = Some (NumCol (zip_with cell_add (rolling 20 mean close)
                             (map (fun x => cell_mul x (Some 2))
                                  (rolling 20 (std sqrtQ) close))))
        /\ get_col "BB_Lower" out
           = Some (NumCol (zip_with cell_sub (rolling 20 mean close)
                             (map (fun x => cell_mul x (Some 2))
                                  (rolling 20 (std sqrtQ) close))))
        /\ get_col "Volatility_20D" out
           = Some (NumCol (map (fun x => cell_mul x (Some (sqrtQ 252)))
                               (rolling 20 (std sqrtQ) (pct_change close)))))
    /\ ((14 <= len df)%nat -> get_col "RSI" out = Some (NumCol (rsi close)))
    /\ get_col "Daily_Return" out = Some (NumCol (pct_change close))
    /\ (forall op, get_col "open" df = Some (NumCol op) ->
                   get_col "Close_Open_Diff" out
                   = Some (NumCol (zip_with cell_sub close op))).
Proof.
  intros He Hclose Hno.
  assert (Hc : has_col "close" df = true) by (unfold has_col; now rewrite Hclose).
  unfold transform_data. rewrite He, Hc.
  set (b10 := (10 <=? len df)%nat). set (b50 := (50 <=? len df)%nat).
  set (b20 := (20 <=? len df)%nat). set (b14 := (14 <=? len df)%nat).
  cbn [negb]. unfold numeric at 1. rewrite Hclose. cbn [obind].
  assert (Hopen : (exists op, get_col "open" df = Some (NumCol op))
                  \/ get_col "open" df = None).
  { unfold numeric_or_absent in Hno.
    destruct (get_col "open" df) as [[op|op]|]; [left; eauto | contradiction | now right]. }
  subst b10 b50 b20 b14.
  destruct (Nat.leb_spec 10 (len df)) as [E10|E10];
  destruct (Nat.leb_spec 50 (len df)) as [E50|E50];
  destruct (Nat.leb_spec 20 (len df)) as [E20|E20];
  destruct (Nat.leb_spec 14 (len df)) as [E14|E14];
  try lia;
  (destruct Hopen as [[op Hop]|Hop];
   pose proof Hop as Hop0;
   unfold numeric; col_lookup; rewrite Hop; cbn [is_some obind];
   eexists; (split; [reflexivity|]);
   (split; [reflexivity|]);
   (split; [intros Hwf;
            pose proof (well_formed_get_col _ Hwf Hclose) as Hlc;
            try pose proof (well_formed_get_col _ Hwf Hop0) as Hlo;
            cbn [col_len] in *;
            repeat apply well_formed_set_col; first [assumption | series_length]|]);
   (split; [intros name Hn; col_other Hn; reflexivity|]);
   (split; [intros name Hn; repeat apply has_col_set_col_mono; exact Hn|]);
   repeat (split; [intros; try lia; repeat split; col_lookup; reflexivity|]);
   intros op' Hop';
   first [discriminate Hop' | injection Hop' as <-; col_lookup; reflexivity]).
Qed.
(** ** Feature engineer: what the indicators hold *)

Lemma empty_len_zero (name : string) (c : column) (df : DataFrame) :
  empty df = true -> get_col name df = Some c -> len df = 0%nat.
Proof.
  intros He Hget. unfold empty in He. apply orb_true_iff in He.
  destruct He as [He|He]; [now apply Nat.eqb_eq in He|].
  apply Nat.eqb_eq in He. unfold get_col in Hget.
  destruct (columns df); [discriminate Hget | discriminate He].
Qed.

(** X10: on a well-formed frame whose close and open columns are numeric
    or absent, [transform_data] returns; the result keeps the index, is
    well formed, holds every column other than the twelve derived ones
    unchanged, and still has every column the input had. *)
Theorem transform_data_conservative (sqrtQ : Q -> Q) (df : DataFrame) :
  well_formed df ->
  numeric_or_absent "close" df -> numeric_or_absent "open" df ->
  exists out,
    transform_data sqrtQ df = Ret out
    /\ index out = index df
    /\ well_formed out
    /\ (forall name, ~ In name derived_columns -> get_col name out = get_col name df)
    /\ (forall name, has_col name df = true -> has_col name out = true).
Proof.
  intros Hwf Hc Ho.
  destruct (empty df) eqn:He.
  - exists df. unfold transform_data. rewrite He. auto.
  - destruct (has_col "close" df) eqn:Hh.
    + destruct (@numeric_present _ _ Hh Hc) as [close Hclose].
      destruct (@transform_data_columns sqrtQ df close He Hclose Ho)
        as (out & Hout & Hix & Hw & Hoth & Hhas & _).
      exists out. auto 10.
    + exists df. unfold transform_data. rewrite He, Hh. simpl. auto.
Qed.

Lemma transform_data_conservative_witness :
  exists out,
    transform_data approx_sqrt (zigzag_frame 20) = Ret out
    /\ index out = index (zigzag_frame 20)
    /\ well_formed out
    /\ (forall name, ~ In name derived_columns
                     -> get_col name out = get_col name (zigzag_frame 20))
    /\ (forall name, has_col name (zigzag_frame 20) = true -> has_col name out = true).
Proof.
  apply (@transform_data_conservative approx_sqrt (zigzag_frame 20)).
  - apply well_formed_iff. vm_compute. reflexivity.
  - vm_compute. exact I.
  - vm_compute. exact I.
Defined.

(** *** Moving averages *)

Lemma window_map (A B : Type) (f : A -> B) (w i : nat) (xs : list A) :
  window w i (map f xs) = map f (window w i xs).
Proof. unfold window. now rewrite skipn_map, firstn_map. Qed.

Lemma length_window (A : Type) (w i : nat) (xs : list A) :
  (i < length xs)%nat -> length (window w i xs) = Nat.min w (S i).
Proof. intros H. unfold window. rewrite length_firstn, length_skipn. lia. Qed.

Lemma valid_some (qs : list Q) : valid (map Some qs) = qs.
Proof. induction qs as [|q qs IH]; simpl; [reflexivity|]. now rewrite IH. Qed.

(** On a series without gaps the rolling mean is the average of the
    window, which is shorter than [w] on the first rows. *)
Lemma rolling_mean_gap_free (w : nat) (qs : list Q) (i : nat) :
  (0 < w)%nat -> (i < length qs)%nat ->
  nth i (rolling w mean (map Some qs)) None
  = Some (Qsum (window w i qs) / Qofnat (Nat.min w (S i))).
Proof.
  intros Hw Hi. rewrite nth_rolling by now rewrite length_map.
  rewrite window_map. unfold mean. rewrite valid_some.
  pose proof (@length_window _ w _ qs Hi) as Hl.
  destruct (window w i qs) as [|q l] eqn:E; [simpl in Hl; lia|].
  now rewrite Hl.
Qed.

(** X11: on a close series without gaps, each of SMA_10, SMA_50 and
    BB_Middle that is written holds at row [i] the plain average of the
    close values of the trailing window; on the first rows the window is
    the [i + 1] rows seen so far. *)
Theorem transform_data_moving_averages (sqrtQ : Q -> Q) (df : DataFrame) (qs : list Q) :
  get_col "close" df = Some (NumCol (map Some qs)) ->
  numeric_or_absent "open" df ->
  exists out,
    transform_data sqrtQ df = Ret out
    /\ forall name w,
         In (name, w) [("SMA_10", 10); ("SMA_50", 50); ("BB_Middle", 20)]%nat ->
         (w <= len df)%nat ->
         exists col,
           get_col name out = Some (NumCol col)
           /\ length col = length qs
           /\ forall i, (i < length qs)%nat ->
                nth i col None
                = Some (Qsum (window w i qs) / Qofnat (Nat.min w (S i))).
Proof.
  intros Hclose Ho.
  destruct (empty df) eqn:He.
  - exists df. split; [unfold transform_data; now rewrite He|].
    intros name w Hin Hw. pose proof (@empty_len_zero _ _ _ He Hclose) as Hz.
    simpl in Hin. exfalso.
    repeat (destruct Hin as [Hin|Hin]; [injection Hin as <- <-; lia|]).
    contradiction.
  - destruct (@transform_data_columns sqrtQ df _ He Hclose Ho)
      as (out & Hout & _ & _ & _ & _ & H10 & H50 & H20 & _).
    exists out. split; [exact Hout|].
    intros name w Hin Hw. simpl in Hin.
    destruct Hin as [Hin|[Hin|[Hin|[]]]]; injection Hin as <- <-;
      [destruct (H10 Hw) as [Hcol _]
      |destruct (H50 Hw) as [Hcol _]
      |destruct (H20 Hw) as [Hcol _]];
      (eexists; split; [exact Hcol|]; split;
       [now rewrite length_rolling, length_map
       |intros i Hi; apply rolling_mean_gap_free; [lia | exact Hi]]).
Qed.

Lemma transform_data_moving_averages_witness :
  exists out,
    transform_data approx_sqrt (zigzag_frame 20) = Ret out
    /\ forall name w,
         In (name, w) [("SMA_10", 10); ("SMA_50", 50); ("BB_Middle", 20)]%nat ->
         (w <= len (zigzag_frame 20))%nat ->
         exists col,
           get_col name out = Some (NumCol col)
           /\ length col
              = length (map (fun i => inject_Z (100 + Z.of_nat i + 3 * Z.of_nat (i mod 2)))
                            (seq 0 20))
           /\ forall i,
                (i < length (map (fun i => inject_Z (100 + Z.of_nat i + 3 * Z.of_nat (i mod 2)))
                                 (seq 0 20)))%nat ->
                nth i col None
                = Some (Qsum (window w i
                                (map (fun i => inject_Z (100 + Z.of_nat i
                                                         + 3 * Z.of_nat (i mod 2)))
                                     (seq 0 20)))
                        / Qofnat (Nat.min w (S i))).
Proof.
  apply (@transform_data_moving_averages approx_sqrt (zigzag_frame 20)).
  - vm_compute. reflexivity.
  - vm_compute. exact I.
Defined.

(** *** Exponential averages *)

Lemma ewm_from_gap_free (alpha : Q) (qs : list Q) :
  forall w,
    exists ys,
      ewm_from alpha (Some w) 1 (map Some qs) = map Some ys
      /\ length ys = length qs
      /\ forall t, (t < length qs)%nat ->
           nth t ys 0 == (1 - alpha) * nth t (w :: ys) 0 + alpha * nth t qs 0.
Proof.
  induction qs as [|q qs IH]; intros w.
  - exists []. repeat split. intros t Ht. simpl in Ht. lia.
  - cbn [map ewm_from].
    set (w' := if Qeq_bool w q then w
               else (1 * (1 - alpha) * w + alpha * q) / (1 * (1 - alpha) + alpha)).
    assert (Hw' : w' == (1 - alpha) * w + alpha * q).
    { unfold w'. destruct (Qeq_bool w q) eqn:E.
      - apply Qeq_bool_eq in E. rewrite <- E. ring.
      - field. intros H. ring_simplify in H. discriminate H. }
    destruct (IH w') as (ys & Hys & Hlen & Hrec).
    exists (w' :: ys). split; [now rewrite Hys|]. split; [simpl; now rewrite Hlen|].
    intros [|t] Ht; [exact Hw'|]. simpl in Ht.
    change (nth (S t) (w' :: ys) 0) with (nth t ys 0).
    change (nth (S t) (w :: w' :: ys) 0) with (nth t (w' :: ys) 0).
    change (nth (S t) (q :: qs) 0) with (nth t qs 0).
    apply Hrec. lia.
Qed.

Lemma ewm_mean_gap_free (span : Q) (qs : list Q) :
  exists ys,
    ewm_mean span (map Some qs) = map Some ys
    /\ length ys = length qs
    /\ nth 0 ys 0 = nth 0 qs 0
    /\ forall t, (S t < length qs)%nat ->
         nth (S t) ys 0
         == (1 - 2 / (span + 1)) * nth t ys 0 + 2 / (span + 1) * nth (S t) qs 0.
Proof.
  destruct qs as [|q qs].
  - exists []. repeat split. intros t Ht. simpl in Ht. lia.
  - cbn [map ewm_mean].
    destruct (ewm_from_gap_free (2 / (span + 1)) qs q) as (ys & Hys & Hlen & Hrec).
    exists (q :: ys). split; [now rewrite Hys|]. split; [simpl; now rewrite Hlen|].
    split; [reflexivity|]. intros t Ht. simpl in Ht.
    change (nth (S t) (q :: ys) 0) with (nth t ys 0).
    change (nth (S t) (q :: qs) 0) with (nth t qs 0).
    apply Hrec. lia.
Qed.

(** X12: on a close series without gaps, each of EMA_10 and EMA_50 that
    is written starts at the first close and then follows the recursion
    y(t+1) = (1 - a) y(t) + a close(t+1) with a = 2 / (span + 1). *)
Theorem transform_data_exponential_averages
        (sqrtQ : Q -> Q) (df : DataFrame) (qs : list Q) :
  get_col "close" df = Some (NumCol (map Some qs)) ->
  numeric_or_absent "open" df ->
  exists out,
    transform_data sqrtQ df = Ret out
    /\ forall name span,
         In (name, span) [("EMA_10", 10); ("EMA_50", 50)]%nat ->
         (span <= len df)%nat ->
         exists ys,
           get_col name out = Some (NumCol (map Some ys))
           /\ length ys = length qs
           /\ nth 0 ys 0 = nth 0 qs 0
           /\ forall t, (S t < length qs)%nat ->
                nth (S t) ys 0
                == (1 - 2 / (Qofnat span + 1)) * nth t ys 0
                   + 2 / (Qofnat span + 1) * nth (S t) qs 0.
Proof.
  intros Hclose Ho.
  destruct (empty df) eqn:He.
  - exists df. split; [unfold transform_data; now rewrite He|].
    intros name w Hin Hw. pose proof (@empty_len_zero _ _ _ He Hclose) as Hz.
    simpl in Hin. exfalso.
    repeat (destruct Hin as [Hin|Hin]; [injection Hin as <- <-; lia|]).
    contradiction.
  - destruct (@transform_data_columns sqrtQ df _ He Hclose Ho)
      as (out & Hout & _ & _ & _ & _ & H10 & H50 & _).
    exists out. split; [exact Hout|].
    intros name span Hin Hw. simpl in Hin.
    destruct Hin as [Hin|[Hin|[]]]; injection Hin as <- <-;
      [destruct (H10 Hw) as [_ Hcol] | destruct (H50 Hw) as [_ Hcol]];
      rewrite Hcol.
    + destruct (ewm_mean_gap_free 10 qs) as (ys & Hys & Hrest).
      exists ys. rewrite Hys. split; [reflexivity | exact Hrest].
    + destruct (ewm_mean_gap_free 50 qs) as (ys & Hys & Hrest).
      exists ys. rewrite Hys. split; [reflexivity | exact Hrest].
Qed.

Lemma transform_data_exponential_averages_witness :
  exists out,
    transform_data approx_sqrt (zigzag_frame 20) = Ret out
    /\ forall name span,
         In (name, span) [("EMA_10", 10); ("EMA_50", 50)]%nat ->
         (span <= len (zigzag_frame 20))%nat ->
         exists ys,
           get_col name out = Some (NumCol (map Some ys))
           /\ length ys
              = length (map (fun i => inject_Z (100 + Z.of_nat i + 3 * Z.of_nat (i mod 2)))
                            (seq 0 20))
           /\ nth 0 ys 0
              = nth 0 (map (fun i => inject_Z (100 + Z.of_nat i + 3 * Z.of_nat (i mod 2)))
                           (seq 0 20)) 0
           /\ forall t,
                (S t < length (map (fun i => inject_Z (100 + Z.of_nat i
                                                       + 3 * Z.of_nat (i mod 2)))
                                   (seq 0 20)))%nat ->
                nth (S t) ys 0
                == (1 - 2 / (Qofnat span + 1)) * nth t ys 0
                   + 2 / (Qofnat span + 1)
                     * nth (S t) (map (fun i => inject_Z (100 + Z.of_nat i
                                                          + 3 * Z.of_nat (i mod 2)))
                                      (seq 0 20)) 0.
Proof.
  apply (@transform_data_exponential_averages approx_sqrt (zigzag_frame 20)).
  - vm_compute. reflexivity.
  - vm_compute. exact I.
Defined.
(** ** Feature engineer: range and gaps of the RSI *)

Lemma Qsum_zero_iff (qs : list Q) :
  Forall (fun q => 0 <= q) qs ->
  (Qsum qs == 0 <-> Forall (fun q => q == 0) qs).
Proof.
  induction 1 as [|q qs Hq Hqs IH]; simpl.
  - split; [constructor | reflexivity].
  - pose proof (Qsum_nonneg Hqs) as Hs. split.
    + intros H. assert (Hq0 : q == 0) by lra. constructor; [exact Hq0|].
      apply IH. lra.
    + intros H. inversion H as [|? ? Hq0 Hrest]; subst.
      apply IH in Hrest. lra.
Qed.

Lemma Qdiv_zero_iff (a b : Q) : 0 < b -> (a / b == 0 <-> a == 0).
Proof.
  intros Hb. split; intros H.
  - assert (E : a == b * (a / b)) by (field; lra). rewrite E, H. ring.
  - unfold Qdiv. rewrite H. ring.
Qed.

Lemma spec_rsi_range (close : list cell) (i : nat) (r : Q) :
  spec_rsi close i = Some r -> 0 <= r /\ r < 100.
Proof.
  unfold spec_rsi.
  pose proof (spec_rolling_mean_nonneg (spec_gain_term close) i
                (spec_gain_term_nonneg close)) as Hg.
  pose proof (spec_rolling_mean_nonneg (spec_loss_term close) i
                (spec_loss_term_nonneg close)) as Hl.
  set (gain := spec_rolling_mean (spec_gain_term close) i) in *.
  set (loss := spec_rolling_mean (spec_loss_term close) i) in *.
  destruct (Qeq_bool loss 0) eqn:E; [discriminate|].
  intros H. injection H as <-.
  assert (Hpos : 0 < loss).
  { apply Qeq_bool_neq in E. apply Qle_lteq in Hl. destruct Hl as [Hl|Hl]; [exact Hl|].
    exfalso. apply E. now symmetry. }
  assert (Hx : 0 <= gain / loss) by now apply Qdiv_nonneg.
  set (x := gain / loss) in *.
  assert (Hhi : 100 / (1 + x) <= 100) by (apply Qle_shift_div_r; lra).
  assert (Hlo : 0 < 100 / (1 + x)) by (apply Qlt_shift_div_l; lra).
  set (d := 100 / (1 + x)) in *. split; lra.
Qed.

Lemma spec_loss_term_zero (close : list cell) (j : nat) :
  spec_loss_term close j == 0
  <-> (forall d, spec_delta close j = Some d -> 0 <= d).
Proof.
  unfold spec_loss_term. destruct (spec_delta close j) as [d|].
  - destruct (Qlt_bool d 0) eqn:E.
    + apply Qlt_bool_iff in E. split.
      * intros H. lra.
      * intros H. specialize (H d eq_refl). lra.
    + split; [|reflexivity]. intros _ d' Hd. injection Hd as <-.
      destruct (Qlt_le_dec d 0) as [Hlt|Hle]; [|exact Hle].
      apply Qlt_bool_iff in Hlt. congruence.
  - split; [intros _ d Hd; discriminate Hd | reflexivity].
Qed.

(** The RSI of a row is missing exactly when no close fell across the
    trailing window. *)
Lemma rsi_missing_iff (close : list cell) (i : nat) :
  (i < length close)%nat ->
  (nth i (rsi close) None = None
   <-> forall j d, (S i - 14 <= j <= i)%nat ->
                   nth j (diff close) None = Some d -> 0 <= d).
Proof.
  intros Hi. rewrite rsi_spec by exact Hi. unfold spec_rsi.
  set (loss := spec_rolling_mean (spec_loss_term close) i).
  assert (Hloss : loss == 0
                  <-> forall j, (S i - 14 <= j <= i)%nat -> spec_loss_term close j == 0).
  { unfold loss, spec_rolling_mean.
    rewrite Qdiv_zero_iff by (apply Qofnat_pos; lia).
    rewrite Qsum_zero_iff
      by (apply Forall_map, Forall_forall; intros j _; apply spec_loss_term_nonneg).
    rewrite Forall_map, Forall_forall. split.
    - intros H j Hj. apply H. apply in_seq. lia.
    - intros H j Hj. apply in_seq in Hj. apply H. lia. }
  split.
  - intros H j d Hj Hd.
    destruct (Qeq_bool loss 0) eqn:E; [|discriminate H].
    apply Qeq_bool_eq in E. rewrite Hloss in E.
    rewrite nth_diff in Hd by lia.
    apply (proj1 (spec_loss_term_zero close j) (E j Hj) d Hd).
  - intros H.
    assert (E : loss == 0).
    { apply Hloss. intros j Hj. apply spec_loss_term_zero. intros d Hd.
      apply (H j d Hj). rewrite nth_diff by lia. exact Hd. }
    apply Qeq_eq_bool in E. now rewrite E.
Qed.

Lemma transform_data_gated_rsi (sqrtQ : Q -> Q) (df : DataFrame) (close : list cell) :
  get_col "close" df = Some (NumCol close) ->
  numeric_or_absent "open" df ->
  exists out,
    transform_data sqrtQ df = Ret out
    /\ ((14 <= len df)%nat -> get_col "RSI" out = Some (NumCol (rsi close))).
Proof.
  intros Hclose Ho.
  destruct (empty df) eqn:He.
  - exists df. split; [unfold transform_data; now rewrite He|].
    intros Hw. pose proof (@empty_len_zero _ _ _ He Hclose). lia.
  - destruct (@transform_data_columns sqrtQ df _ He Hclose Ho)
      as (out & Hout & _ & _ & _ & _ & _ & _ & _ & H14 & _).
    exists out. split; assumption.
Qed.

(** X13: whatever the close series, a value of the RSI column lies in
    the interval from 0 (included) to 100 (excluded). *)
Theorem transform_data_rsi_range (sqrtQ : Q -> Q) (df : DataFrame) (close : list cell) :
  get_col "close" df = Some (NumCol close) ->
  numeric_or_absent "open" df ->
  (14 <= len df)%nat ->
  exists out col,
    transform_data sqrtQ df = Ret out
    /\ get_col "RSI" out = Some (NumCol col)
    /\ forall i r, nth i col None = Some r -> 0 <= r /\ r < 100.
Proof.
  intros Hclose Ho Hlen.
  destruct (@transform_data_gated_rsi sqrtQ df close Hclose Ho) as (out & Hout & Hrsi).
  exists out, (rsi close). split; [exact Hout|]. split; [exact (Hrsi Hlen)|].
  intros i r Hr.
  destruct (Nat.lt_ge_cases i (length close)) as [Hi|Hi].
  - rewrite rsi_spec in Hr by exact Hi. apply (spec_rsi_range _ _ Hr).
  - rewrite nth_overflow in Hr by (rewrite length_rsi; exact Hi). discriminate Hr.
Qed.

Lemma transform_data_rsi_range_witness :
  exists out col,
    transform_data approx_sqrt (zigzag_frame 14) = Ret out
    /\ get_col "RSI" out = Some (NumCol col)
    /\ forall i r, nth i col None = Some r -> 0 <= r /\ r < 100.
Proof.
  apply (@transform_data_rsi_range approx_sqrt (zigzag_frame 14)
           (map (zigzag_price 100%Z) (seq 0 14))).
  - vm_compute. reflexivity.
  - vm_compute. exact I.
  - vm_compute. lia.
Defined.

(** X14: the RSI of a row is missing exactly when no close fell from one
    row to the next across the trailing window of up to 14 rows; so the
    first row has no RSI, and a close that never falls has none at all. *)
Theorem transform_data_rsi_missing (sqrtQ : Q -> Q) (df : DataFrame) (close : list cell) :
  get_col "close" df = Some (NumCol close) ->
  numeric_or_absent "open" df ->
  (14 <= len df)%nat ->
  exists out col,
    transform_data sqrtQ df = Ret out
    /\ get_col "RSI" out = Some (NumCol col)
    /\ nth 0 col None = None
    /\ forall i, (i < length close)%nat ->
         (nth i col None = None
          <-> forall j d, (S i - 14 <= j <= i)%nat ->
                          nth j (diff close) None = Some d -> 0 <= d).
Proof.
  intros Hclose Ho Hlen.
  destruct (@transform_data_gated_rsi sqrtQ df close Hclose Ho) as (out & Hout & Hrsi).
  exists out, (rsi close). split; [exact Hout|]. split; [exact (Hrsi Hlen)|].
  split; [|intros i Hi; now apply rsi_missing_iff].
  destruct close as [|c close]; [reflexivity|].
  apply rsi_missing_iff; [simpl; lia|].
  intros j d Hj Hd. assert (j = 0%nat) by lia. subst j. discriminate Hd.
Qed.

Lemma transform_data_rsi_missing_witness :
  exists out col,
    transform_data approx_sqrt (zigzag_frame 14) = Ret out
    /\ get_col "RSI" out = Some (NumCol col)
    /\ nth 0 col None = None
    /\ forall i, (i < length (map (zigzag_price 100%Z) (seq 0 14)))%nat ->
         (nth i col None = None
          <-> forall j d, (S i - 14 <= j <= i)%nat ->
                          nth j (diff (map (zigzag_price 100%Z) (seq 0 14))) None = Some d
                          -> 0 <= d).
Proof.
  apply (@transform_data_rsi_missing approx_sqrt (zigzag_frame 14)
           (map (zigzag_price 100%Z) (seq 0 14))).
  - vm_compute. reflexivity.
  - vm_compute. exact I.
  - vm_compute. lia.
Defined.
(** ** Feature engineer: leading gaps, returns and bounds *)

Section LeadingGaps.
Variable sqrtQ : Q -> Q.

Lemma std_short (xs : list cell) : (length xs <= 1)%nat -> std sqrtQ xs = None.
Proof.
  intros H. unfold std.
  destruct xs as [|x [|y xs]]; [reflexivity | now destruct x | simpl in H; lia].
Qed.

Lemma std_gap_and_one (x : cell) : std sqrtQ [None; x] = None.
Proof. unfold std. now destruct x. Qed.

Lemma rolling_std_first (w : nat) (xs : list cell) :
  nth 0 (rolling w (std sqrtQ) xs) None = None.
Proof.
  destruct xs as [|x xs]; [reflexivity|].
  rewrite nth_rolling by (simpl; lia).
  apply std_short. unfold window. rewrite length_firstn. lia.
Qed.

Lemma nth_scaled (k : cell) (xs : list cell) (i : nat) :
  nth i xs None = None ->
  nth i (map (fun x => cell_mul x k) xs) None = None.
Proof.
  intros H. destruct (Nat.lt_ge_cases i (length xs)) as [Hi|Hi].
  - rewrite (nth_map_in _ None) by exact Hi. now rewrite H.
  - apply nth_overflow. now rewrite length_map.
Qed.

Lemma nth_band (f : Q -> Q -> Q) (xs ys : list cell) (i : nat) :
  nth i ys None = None ->
  nth i (zip_with (cell_map2 f) xs ys) None = None.
Proof.
  intros H.
  destruct (Nat.lt_ge_cases i (Nat.min (length xs) (length ys))) as [Hi|Hi].
  - rewrite (nth_zip_with (cell_map2 f) None None) by lia.
    rewrite H. now destruct (nth i xs None).
  - apply nth_overflow. now rewrite length_zip_with.
Qed.

Lemma pct_change_first (xs : list cell) : nth 0 (pct_change xs) None = None.
Proof. unfold pct_change. now destruct (ffill xs). Qed.

Lemma rolling_std_returns_second (xs : list cell) :
  nth 1 (rolling 20 (std sqrtQ) (pct_change xs)) None = None.
Proof.
  destruct (Nat.lt_ge_cases 1 (length (pct_change xs))) as [Hi|Hi].
  - rewrite nth_rolling by exact Hi.
    unfold pct_change in *. destruct (ffill xs) as [|d data]; [simpl in Hi; lia|].
    destruct data as [|d' data]; [simpl in Hi; lia|].
    cbn [zip_with]. unfold window. simpl. apply std_gap_and_one.
  - apply nth_overflow. now rewrite length_rolling.
Qed.

(** X15: with at least 20 rows, the first row of BB_StdDev, BB_Upper,
    BB_Lower, Daily_Return and Volatility_20D is missing, and so is the
    second row of Volatility_20D: a deviation needs two observations and
    a return a previous close. *)
Theorem transform_data_leading_gaps (df : DataFrame) (close : list cell) :
  get_col "close" df = Some (NumCol close) ->
  numeric_or_absent "open" df ->
  (20 <= len df)%nat ->
  exists out,
    transform_data sqrtQ df = Ret out
    /\ (forall name,
          In name ["BB_StdDev"; "BB_Upper"; "BB_Lower"; "Daily_Return"; "Volatility_20D"] ->
          exists col, get_col name out = Some (NumCol col) /\ nth 0 col None = None)
    /\ (exists vol, get_col "Volatility_20D" out = Some (NumCol vol)
                    /\ nth 1 vol None = None).
Proof.
  intros Hclose Ho Hlen.
  assert (He : empty df = false) by (eapply nonempty_of_column; [exact Hclose | lia]).
  destruct (@transform_data_columns sqrtQ df _ He Hclose Ho)
    as (out & Hout & _ & _ & _ & _ & _ & _ & H20 & _ & Hret & _).
  destruct (H20 Hlen) as (_ & Hsd & Hup & Hlow & Hvol).
  exists out. split; [exact Hout|]. split.
  - intros name Hin. simpl in Hin.
    destruct Hin as [<-|[<-|[<-|[<-|[<-|[]]]]]]; eexists; (split; [eassumption|]).
    + apply rolling_std_first.
    + apply nth_band. apply nth_scaled. apply rolling_std_first.
    + apply nth_band. apply nth_scaled. apply rolling_std_first.
    + apply pct_change_first.
    + apply nth_scaled. apply rolling_std_first.
  - eexists. split; [exact Hvol|]. apply nth_scaled. apply rolling_std_returns_second.
Qed.

End LeadingGaps.

Lemma transform_data_leading_gaps_witness :
  exists out,
    transform_data approx_sqrt (zigzag_frame 20) = Ret out
    /\ (forall name,
          In name ["BB_StdDev"; "BB_Upper"; "BB_Lower"; "Daily_Return"; "Volatility_20D"] ->
          exists col, get_col name out = Some (NumCol col) /\ nth 0 col None = None)
    /\ (exists vol, get_col "Volatility_20D" out = Some (NumCol vol)
                    /\ nth 1 vol None = None).
Proof.
  apply (@transform_data_leading_gaps approx_sqrt (zigzag_frame 20)
           (map (zigzag_price 100%Z) (seq 0 20))).
  - vm_compute. reflexivity.
  - vm_compute. exact I.
  - vm_compute. lia.
Defined.

(** *** Daily return *)

Lemma all_some_map_some (A : Type) (l : list A) : all_some (map Some l).
Proof. induction l; constructor; auto. Qed.

Lemma pct_change_gap_free (qs : list Q) (i : nat) :
  (S i < length qs)%nat -> ~ nth i qs 0 == 0 ->
  nth (S i) (pct_change (map Some qs)) None
  = Some (nth (S i) qs 0 / nth i qs 0 - 1).
Proof.
  intros Hi Hnz. unfold pct_change, ffill.
  rewrite ffill_from_all_some by apply all_some_map_some.
  destruct qs as [|q0 rest]; [simpl in Hi; lia|]. simpl in Hi.
  cbn [map]. change (nth (S i) (None :: ?l) None) with (nth i l None).
  rewrite <- (map_cons Some q0 rest).
  rewrite (nth_zip_with _ None None) by (rewrite ?length_map; simpl; lia).
  rewrite (nth_map_in _ 0) by lia.
  rewrite (nth_map_in _ 0) by (simpl; lia).
  change (nth (S i) (q0 :: rest) 0) with (nth i rest 0).
  unfold cell_div.
  destruct (Qeq_bool (nth i (q0 :: rest) 0) 0) eqn:E; [|reflexivity].
  apply Qeq_bool_eq in E. contradiction.
Qed.

(** X16: on a non-empty frame whose close has no gaps, Daily_Return is
    missing on the first row and is close(i+1) / close(i) - 1 on every
    later row whose previous close is not zero. *)
Theorem transform_data_daily_return (sqrtQ : Q -> Q) (df : DataFrame) (qs : list Q) :
  empty df = false ->
  get_col "close" df = Some (NumCol (map Some qs)) ->
  numeric_or_absent "open" df ->
  exists out col,
    transform_data sqrtQ df = Ret out
    /\ get_col "Daily_Return" out = Some (NumCol col)
    /\ length col = length qs
    /\ nth 0 col None = None
    /\ forall i, (S i < length qs)%nat -> ~ nth i qs 0 == 0 ->
         nth (S i) col None = Some (nth (S i) qs 0 / nth i qs 0 - 1).
Proof.
  intros He Hclose Ho.
  destruct (@transform_data_columns sqrtQ df _ He Hclose Ho)
    as (out & Hout & _ & _ & _ & _ & _ & _ & _ & _ & Hret & _).
  exists out, (pct_change (map Some qs)).
  split; [exact Hout|]. split; [exact Hret|].
  split; [now rewrite length_pct_change, length_map|].
  split; [apply pct_change_first|].
  intros i Hi Hnz. now apply pct_change_gap_free.
Qed.

Lemma transform_data_daily_return_witness :
  exists out col,
    transform_data approx_sqrt (zigzag_frame 3) = Ret out
    /\ get_col "Daily_Return" out = Some (NumCol col)
    /\ length col = length [100; 104; 102]
    /\ nth 0 col None = None
    /\ forall i, (S i < length [100; 104; 102])%nat -> ~ nth i [100; 104; 102] 0 == 0 ->
         nth (S i) col None
         = Some (nth (S i) [100; 104; 102] 0 / nth i [100; 104; 102] 0 - 1).
Proof.
  apply (@transform_data_daily_return approx_sqrt (zigzag_frame 3) [100; 104; 102]).
  - vm_compute. reflexivity.
  - vm_compute. reflexivity.
  - vm_compute. exact I.
Defined.
(** ** Feature engineer: the averages stay within the range of the close *)

Lemma In_firstn_inv (A : Type) (x : A) (l : list A) :
  forall n, In x (firstn n l) -> In x l.
Proof.
  induction l as [|a l IH]; intros [|n] H; simpl in H; try contradiction.
  destruct H as [H|H]; [now left | right; eauto].
Qed.

Lemma In_skipn_inv (A : Type) (x : A) (l : list A) :
  forall n, In x (skipn n l) -> In x l.
Proof.
  induction l as [|a l IH]; intros [|n] H; simpl in H; try contradiction; auto.
  right. eauto.
Qed.

Section Bounds.
Variables lo hi : Q.

Lemma Qofnat_S (n : nat) : Qofnat (S n) == Qofnat n + 1.
Proof.
  unfold Qofnat. rewrite Nat2Z.inj_succ. unfold Z.succ.
  rewrite inject_Z_plus. reflexivity.
Qed.

Lemma Qsum_bounds (vs : list Q) :
  Forall (fun v => lo <= v <= hi) vs ->
  Qofnat (length vs) * lo <= Qsum vs /\ Qsum vs <= Qofnat (length vs) * hi.
Proof.
  induction 1 as [|v vs Hv _ IH].
  - cbn [length Qsum fold_right]. change (Qofnat 0) with 0. split; lra.
  - cbn [length Qsum fold_right]. fold (Qsum vs). rewrite Qofnat_S.
    destruct IH as [IH1 IH2]. split; lra.
Qed.

Lemma In_valid (xs : list cell) (v : Q) : In v (valid xs) <-> In (Some v) xs.
Proof.
  unfold valid. rewrite in_flat_map. split.
  - intros (x & Hx & Hv). destruct x as [q|]; [|contradiction].
    destruct Hv as [<-|[]]. exact Hx.
  - intros H. exists (Some v). split; [exact H | now left].
Qed.

Lemma mean_within (xs : list cell) (m : Q) :
  within lo hi xs -> mean xs = Some m -> lo <= m <= hi.
Proof.
  intros Hxs. unfold mean.
  assert (Hall : Forall (fun v => lo <= v <= hi) (valid xs)).
  { apply Forall_forall. intros v Hv. apply Hxs. now apply In_valid. }
  destruct (Qsum_bounds Hall) as [H1 H2].
  destruct (valid xs) as [|v vs] eqn:E; [discriminate|].
  intros H. injection H as <-.
  assert (Hn : 0 < Qofnat (length (v :: vs))) by (apply Qofnat_pos; simpl; lia).
  split.
  - apply Qle_shift_div_l; [exact Hn|]. rewrite Qmult_comm. exact H1.
  - apply Qle_shift_div_r; [exact Hn|]. rewrite Qmult_comm. exact H2.
Qed.

Lemma within_window (w i : nat) (xs : list cell) :
  within lo hi xs -> within lo hi (window w i xs).
Proof.
  intros H v Hv. apply H. unfold window in Hv.
  eapply In_skipn_inv. eapply In_firstn_inv. exact Hv.
Qed.

Lemma rolling_mean_within (w : nat) (xs : list cell) :
  within lo hi xs -> within lo hi (rolling w mean xs).
Proof.
  intros H v Hv. unfold rolling in Hv. apply in_map_iff in Hv.
  destruct Hv as (i & Hm & _).
  apply (mean_within (within_window w i H) Hm).
Qed.

Variable alpha : Q.
Hypothesis alpha_range : 0 < alpha /\ alpha <= 1.

Lemma convex_within (a w c : Q) :
  0 <= a -> lo <= w <= hi -> lo <= c <= hi ->
  lo <= (a * w + alpha * c) / (a + alpha) <= hi.
Proof.
  intros Ha Hw Hc. destruct alpha_range as [Hpos _].
  assert (Hd : 0 < a + alpha) by lra.
  split.
  - apply Qle_shift_div_l; [exact Hd|]. nra.
  - apply Qle_shift_div_r; [exact Hd|]. nra.
Qed.

Lemma ewm_from_within (xs : list cell) :
  forall weighted old_wt,
    0 <= old_wt ->
    (forall w, weighted = Some w -> lo <= w <= hi) ->
    within lo hi xs ->
    within lo hi (ewm_from alpha weighted old_wt xs).
Proof.
  destruct alpha_range as [Hpos Hle].
  induction xs as [|cur xs IH]; intros weighted old_wt Hwt Hw Hxs v Hv;
    [contradiction|].
  assert (Hrest : within lo hi xs) by (intros u Hu; apply Hxs; now right).
  destruct weighted as [w|].
  - specialize (Hw w eq_refl).
    assert (Hwt' : 0 <= old_wt * (1 - alpha)) by nra.
    destruct cur as [c|].
    + assert (Hc : lo <= c <= hi) by (apply Hxs; now left).
      cbn [ewm_from] in Hv.
      set (w' := if Qeq_bool w c then w
                 else (old_wt * (1 - alpha) * w + alpha * c)
                      / (old_wt * (1 - alpha) + alpha)) in *.
      assert (Hw' : lo <= w' <= hi).
      { unfold w'. destruct (Qeq_bool w c); [exact Hw|].
        now apply convex_within. }
      destruct Hv as [Hv|Hv]; [injection Hv as <-; exact Hw'|].
      apply (IH (Some w') 1); try assumption; [lra|].
      intros u Hu. injection Hu as <-. exact Hw'.
    + cbn [ewm_from] in Hv.
      destruct Hv as [Hv|Hv]; [injection Hv as <-; exact Hw|].
      apply (IH (Some w) (old_wt * (1 - alpha))); try assumption.
      intros u Hu. injection Hu as <-. exact Hw.
  - cbn [ewm_from] in Hv.
    destruct Hv as [Hv|Hv]; [apply Hxs; left; exact Hv|].
    apply (IH cur old_wt); try assumption.
    intros u Hu. apply Hxs. left. exact Hu.
Qed.

End Bounds.

Lemma ewm_mean_within (lo hi span : Q) (xs : list cell) :
  1 <= span -> within lo hi xs -> within lo hi (ewm_mean span xs).
Proof.
  intros Hspan Hxs. destruct xs as [|x0 rest]; [intros v []|].
  intros v Hv. cbn [ewm_mean] in Hv.
  destruct Hv as [Hv|Hv]; [apply Hxs; left; exact Hv|].
  assert (Ha : 0 < 2 / (span + 1) /\ 2 / (span + 1) <= 1).
  { split.
    - apply Qlt_shift_div_l; lra.
    - apply Qle_shift_div_r; lra. }
  apply (@ewm_from_within lo hi _ Ha rest x0 1); try assumption; [lra | |].
  - intros w Hw. apply Hxs. left. exact Hw.
  - intros u Hu. apply Hxs. right. exact Hu.
Qed.

(** X17: when every close value lies between [lo] and [hi], so does
    every value of SMA_10, SMA_50, EMA_10, EMA_50 and BB_Middle: the
    averages never leave the range of the prices, gaps or not. *)
Theorem transform_data_averages_within
        (sqrtQ : Q -> Q) (df : DataFrame) (close : list cell) (lo hi : Q) :
  get_col "close" df = Some (NumCol close) ->
  numeric_or_absent "open" df ->
  (forall v, In (Some v) close -> lo <= v <= hi) ->
  exists out,
    transform_data sqrtQ df = Ret out
    /\ forall name w,
         In (name, w) [("SMA_10", 10); ("SMA_50", 50); ("EMA_10", 10);
                       ("EMA_50", 50); ("BB_Middle", 20)]%nat ->
         (w <= len df)%nat ->
         exists col,
           get_col name out = Some (NumCol col)
           /\ forall v, In (Some v) col -> lo <= v <= hi.
Proof.
  intros Hclose Ho Hin.
  destruct (empty df) eqn:He.
  - exists df. split; [unfold transform_data; now rewrite He|].
    intros name w Hnw Hw. pose proof (@empty_len_zero _ _ _ He Hclose) as Hz.
    simpl in Hnw. exfalso.
    repeat (destruct Hnw as [Hnw|Hnw]; [injection Hnw as <- <-; lia|]).
    contradiction.
  - destruct (@transform_data_columns sqrtQ df _ He Hclose Ho)
      as (out & Hout & _ & _ & _ & _ & H10 & H50 & H20 & _).
    exists out. split; [exact Hout|].
    intros name w Hnw Hw. simpl in Hnw.
    destruct Hnw as [Hnw|[Hnw|[Hnw|[Hnw|[Hnw|[]]]]]]; injection Hnw as <- <-.
    + destruct (H10 Hw) as [Hcol _]. eexists. split; [exact Hcol|].
      now apply rolling_mean_within.
    + destruct (H50 Hw) as [Hcol _]. eexists. split; [exact Hcol|].
      now apply rolling_mean_within.
    + destruct (H10 Hw) as [_ Hcol]. eexists. split; [exact Hcol|].
      apply ewm_mean_within; [lra | exact Hin].
    + destruct (H50 Hw) as [_ Hcol]. eexists. split; [exact Hcol|].
      apply ewm_mean_within; [lra | exact Hin].
    + destruct (H20 Hw) as [Hcol _]. eexists. split; [exact Hcol|].
      now apply rolling_mean_within.
Qed.

Lemma transform_data_averages_within_witness :
  exists out,
    transform_data approx_sqrt (zigzag_frame 20) = Ret out
    /\ forall name w,
         In (name, w) [("SMA_10", 10); ("SMA_50", 50); ("EMA_10", 10);
                       ("EMA_50", 50); ("BB_Middle", 20)]%nat ->
         (w <= len (zigzag_frame 20))%nat ->
         exists col,
           get_col name out = Some (NumCol col)
           /\ forall v, In (Some v) col -> 100 <= v <= 122.
Proof.
  apply (@transform_data_averages_within approx_sqrt (zigzag_frame 20)
           (map (zigzag_price 100%Z) (seq 0 20)) 100 122).
  - vm_compute. reflexivity.
  - vm_compute. exact I.
  - intros v Hv. vm_compute in Hv.
    repeat (destruct Hv as [Hv|Hv];
            [injection Hv as <-; split; vm_compute; discriminate|]).
    contradiction.
Defined.
(** ** Validator: what is enough to be accepted *)

Lemma positive_forallb (xs : list cell) :
  Forall (fun x => exists q, x = Some q /\ 0 < q) xs ->
  forallb (fun x => cell_gt x 0) xs = true.
Proof.
  intros H. apply forallb_forall. rewrite Forall_forall in H.
  intros x Hx. destruct (H x Hx) as (q & -> & Hq). simpl. now apply Qlt_bool_iff.
Qed.

Lemma positive_nan_count (xs : list cell) :
  Forall (fun x => exists q, x = Some q /\ 0 < q) xs -> nan_count xs = 0%nat.
Proof.
  unfold nan_count. induction 1 as [|x xs (q & -> & _) _ IH]; [reflexivity|].
  simpl. exact IH.
Qed.

(** The checks pass on a frame with the properties they test. *)
Lemma validate_pipeline_passes (df : DataFrame) (close volume : list cell) :
  empty df = false ->
  (forall col, In col numeric_cols -> exists xs, get_col col df = Some (NumCol xs)) ->
  has_col "ticker" df = true ->
  is_datetime_index df = true ->
  get_col "close" df = Some (NumCol close) ->
  Forall (fun x => exists q, x = Some q /\ 0 < q) close ->
  get_col "volume" df = Some (NumCol volume) ->
  Qofnat (nan_count volume) / Qofnat (len df) < 1#10 ->
  validate_pipeline df = (Ret true, df).
Proof.
  intros He Hnum Hticker Hdate Hclose Hpos Hvolume Hfrac.
  destruct (Hnum "open") as [op Hopen]; [simpl; tauto|].
  destruct (Hnum "high") as [hi Hhigh]; [simpl; tauto|].
  destruct (Hnum "low") as [lo Hlow]; [simpl; tauto|].
  assert (Hc0 : Qlt_bool (Qofnat (nan_count close) / Qofnat (len df)) (1 # 10) = true).
  { rewrite (positive_nan_count Hpos). apply Qlt_bool_iff.
    change (Qofnat 0) with 0. unfold Qdiv. rewrite Qmult_0_l. reflexivity. }
  apply Qlt_bool_iff in Hfrac.
  unfold has_col in Hticker.
  unfold validate_pipeline, validate_checks, essential_cols, numeric_cols.
  unfold fbind, fread, fcol, assert_, flift, fret, has_col, for_each.
  fold (nan_count close) in *.
  repeat first
    [ progress cbn [is_some is_numeric_dtype all_positive isnull_sum negb for_each]
    | progress unfold fbind, fret
    | progress fold (nan_count close)
    | progress fold (nan_count volume)
    | rewrite He | rewrite Hopen | rewrite Hhigh | rewrite Hlow
    | rewrite Hclose | rewrite Hvolume | rewrite Hticker | rewrite Hdate
    | rewrite (positive_forallb Hpos) | rewrite Hc0 | rewrite Hfrac ].
  reflexivity.
Qed.

Lemma nan_fraction_small (k n : nat) :
  (10 * k < n)%nat -> Qofnat k / Qofnat n < 1#10.
Proof.
  intros H. assert (Hn : 0 < Qofnat n) by (apply Qofnat_pos; lia).
  apply Qlt_shift_div_r; [exact Hn|].
  unfold Qofnat, Qlt, Qmult, inject_Z. cbn [Qnum Qden].
  change (Z.pos (10 * 1)) with 10%Z. lia.
Qed.

(** X18: the validator asks for nothing more than it checks.  A frame
    with a date index, a ticker column, numeric open, high, low, close and
    volume, a close that is strictly positive in every row and a volume
    missing in fewer than one row in ten is accepted, and left as it was:
    gaps in open, high or low, or in the indicators, are never a reason to
    reject. *)
Theorem validate_pipeline_accepts (df : DataFrame) (close volume : list cell) :
  (forall col, In col numeric_cols -> exists xs, get_col col df = Some (NumCol xs)) ->
  has_col "ticker" df = true ->
  is_datetime_index df = true ->
  get_col "close" df = Some (NumCol close) ->
  Forall (fun x => exists q, x = Some q /\ 0 < q) close ->
  get_col "volume" df = Some (NumCol volume) ->
  (10 * nan_count volume < len df)%nat ->
  validate_pipeline df = (Ret true, df).
Proof.
  intros Hnum Hticker Hdate Hclose Hpos Hvolume Hfrac.
  assert (He : empty df = false)
    by (eapply nonempty_of_column; [exact Hclose | lia]).
  apply (@validate_pipeline_passes df close volume); try assumption.
  now apply nan_fraction_small.
Qed.

Lemma validate_pipeline_accepts_witness :
  validate_pipeline (zigzag_frame 3) = (Ret true, zigzag_frame 3).
Proof.
  apply (@validate_pipeline_accepts (zigzag_frame 3)
           (map (zigzag_price 100%Z) (seq 0 3))
           (map (fun i => Some (inject_Z (1000 + Z.of_nat i))) (seq 0 3))).
  - intros col Hin. simpl in Hin.
    repeat (destruct Hin as [<-|Hin]; [eexists; vm_compute; reflexivity|]).
    contradiction.
  - vm_compute. reflexivity.
  - vm_compute. reflexivity.
  - vm_compute. reflexivity.
  - repeat constructor; eexists; (split; [vm_compute; reflexivity|]);
      vm_compute; reflexivity.
  - vm_compute. reflexivity.
  - vm_compute. lia.
Defined.
(** ** Cleaner: the values stay within the range of the input *)

Lemma fill_In (A : Type) (xs : list (option A)) (v : A) :
  In (Some v) (bfill (ffill xs)) -> In (Some v) xs.
Proof.
  intros Hin. apply (In_nth _ _ None) in Hin. destruct Hin as (i & Hi & Hv).
  unfold ffill in Hi. rewrite length_bfill, length_ffill_from in Hi.
  rewrite nth_fill in Hv by exact Hi.
  destruct (last_valid (firstn (S i) xs)) as [w|] eqn:E.
  - injection Hv as ->. apply last_valid_In in E.
    rewrite <- (firstn_skipn (S i) xs). apply in_or_app. now left.
  - apply first_valid_In in Hv.
    rewrite <- (firstn_skipn (S i) xs). apply in_or_app. now right.
Qed.

Lemma keep_rows_In (A : Type) (x : A) (xs : list A) (mask : list bool) :
  In x (keep_rows mask xs) -> In x xs.
Proof.
  assert (H : Forall (fun y => In y xs) (keep_rows mask xs)).
  { apply Forall_keep_rows. apply Forall_forall. auto. }
  rewrite Forall_forall in H. apply H.
Qed.

Lemma take_rows_In (A : Type) (v : A) (xs : list (option A)) (ps : list nat) :
  In (Some v) (take_rows None ps xs) -> In (Some v) xs.
Proof.
  unfold take_rows. intros H. apply in_map_iff in H. destruct H as (p & Hp & _).
  destruct (Nat.lt_ge_cases p (length xs)) as [Hlt|Hge].
  - rewrite <- Hp. now apply nth_In.
  - rewrite nth_overflow in Hp by exact Hge. discriminate Hp.
Qed.

Section Range.
Variables lo hi : Q.

Lemma within_subset (xs ys : list cell) :
  (forall v, In (Some v) ys -> In (Some v) xs) ->
  within lo hi xs -> within lo hi ys.
Proof. intros Hsub Hxs v Hv. apply Hxs, Hsub, Hv. Qed.

Lemma interpolate_within (s : list Q) (x0 pos : Q) :
  Forall (fun v => lo <= v <= hi) s -> lo <= x0 <= hi ->
  lo <= interpolate s x0 pos <= hi.
Proof.
  intros Hs Hx0. unfold interpolate.
  assert (Hnth : forall i d, lo <= d <= hi -> lo <= nth i s d <= hi).
  { intros i d Hd. destruct (Nat.lt_ge_cases i (length s)) as [Hlt|Hge].
    - rewrite Forall_forall in Hs. apply Hs. now apply nth_In.
    - now rewrite nth_overflow by exact Hge. }
  set (k := Z.to_nat (Qfloor pos)).
  pose proof (Hnth k x0 Hx0) as Ha.
  pose proof (Hnth (S k) (nth k s x0) Ha) as Hb.
  set (a := nth k s x0) in *. set (b := nth (S k) s a) in *.
  pose proof (Qfloor_le pos) as Hf1. pose proof (Qlt_floor pos) as Hf2.
  rewrite inject_Z_plus in Hf2. change (inject_Z 1) with 1 in Hf2.
  set (f := pos - inject_Z (Qfloor pos)).
  assert (Hf : 0 <= f /\ f <= 1) by (unfold f; split; lra).
  clearbody f a b. split; nra.
Qed.

Lemma quantile_within (q : Q) (xs : list cell) (v : Q) :
  within lo hi xs -> quantile q xs = Some v -> lo <= v <= hi.
Proof.
  intros Hxs. rewrite quantile_interpolate.
  assert (Hs : Forall (fun v => lo <= v <= hi) (sort_by Qle_bool (valid xs))).
  { apply Forall_sort_by. apply Forall_forall. intros u Hu. apply Hxs.
    now apply In_valid. }
  destruct (sort_by Qle_bool (valid xs)) as [|x0 rest] eqn:E; [discriminate|].
  intros [= <-]. apply interpolate_within; [exact Hs|].
  now inversion Hs.
Qed.

Lemma clip_values_within (xs : list cell) :
  within lo hi xs -> within lo hi (clip_values xs).
Proof.
  intros Hxs. destruct (fence xs) as [[lower upper]|] eqn:Ef;
    [|unfold clip_values; now rewrite Ef].
  rewrite (clip_values_map _ Ef).
  unfold fence in Ef.
  destruct (quantile (1 # 4) xs) as [Q1|] eqn:E1; [|discriminate].
  destruct (quantile (3 # 4) xs) as [Q3|] eqn:E3; [|discriminate].
  destruct (Qlt_bool 0 (Q3 - Q1)) eqn:Ei; [|discriminate].
  apply Qlt_bool_iff in Ei. injection Ef as <- <-.
  pose proof (quantile_within _ Hxs E1) as H1.
  pose proof (quantile_within _ Hxs E3) as H3.
  intros v Hv. apply in_map_iff in Hv. destruct Hv as (x & Hx & Hin).
  destruct x as [q|]; [|discriminate Hx].
  pose proof (Hxs q Hin) as Hq.
  unfold clip_cell in Hx. simpl in Hx.
  destruct (Qlt_bool q (Q1 - (3 # 2) * (Q3 - Q1))) eqn:El; simpl in Hx.
  - apply Qlt_bool_iff in El.
    destruct (Qlt_bool (Q3 + (3 # 2) * (Q3 - Q1)) (Q1 - (3 # 2) * (Q3 - Q1))) eqn:Eu;
      injection Hx as <-; [apply Qlt_bool_iff in Eu|]; split; lra.
  - destruct (Qlt_bool (Q3 + (3 # 2) * (Q3 - Q1)) q) eqn:Eu; injection Hx as <-;
      [apply Qlt_bool_iff in Eu; split; lra | exact Hq].
Qed.

Variable name : string.

Lemma col_within_fill_columns (df : DataFrame) :
  col_within lo hi name df -> col_within lo hi name (fill_columns df).
Proof.
  intros (xs & Hget & Hxs). unfold col_within.
  rewrite fill_columns_fold, (get_col_fold_fill ohlcv_cols_NoDup), Hget.
  destruct (existsb (String.eqb name) ohlcv_cols); [|eauto].
  simpl. eexists. split; [reflexivity|].
  eapply within_subset; [|exact Hxs]. intros v. apply fill_In.
Qed.

Lemma col_within_dropna (subset : list string) (df : DataFrame) :
  col_within lo hi name df -> col_within lo hi name (dropna_all subset df).
Proof.
  intros (xs & Hget & Hxs). unfold col_within.
  rewrite get_col_dropna, Hget. simpl. eexists. split; [reflexivity|].
  eapply within_subset; [|exact Hxs]. intros v. apply keep_rows_In.
Qed.

Lemma col_within_clip_outliers (col : string) (df df' : DataFrame) :
  clip_outliers col df = Ret df' ->
  col_within lo hi name df -> col_within lo hi name df'.
Proof.
  intros Hclip (xs & Hget & Hxs).
  destruct (clip_outliers_cases _ _ Hclip) as [[-> _]|(ys & Hcol & ->)];
    [now exists xs|].
  unfold col_within. destruct (String.eqb_spec name col) as [->|Hne].
  - rewrite get_set_same. eexists. split; [reflexivity|].
    apply clip_values_within.
    assert (Heq : ys = xs) by congruence. now rewrite Heq.
  - rewrite get_set_other by exact Hne. now exists xs.
Qed.

Lemma col_within_sort_index (df : DataFrame) :
  col_within lo hi name df -> col_within lo hi name (sort_index df).
Proof.
  intros (xs & Hget & Hxs). unfold col_within.
  rewrite get_col_sort_index, Hget. simpl. eexists. split; [reflexivity|].
  eapply within_subset; [|exact Hxs]. intros v. apply take_rows_In.
Qed.

End Range.

(** X19: [clean_data] never takes a value out of the range of its column.
    When the values of a numeric column of the input lie between [lo] and
    [hi], so do the values of that column in the result: filling copies
    values of the column, and clipping moves a value only to a fence that
    lies between that value and a quartile. *)
Theorem clean_data_keeps_range (df : DataFrame) (name : string) (xs : list cell)
        (lo hi : Q) :
  numeric_or_absent "close" df -> numeric_or_absent "volume" df ->
  get_col name df = Some (NumCol xs) ->
  (forall v, In (Some v) xs -> lo <= v <= hi) ->
  exists out ys,
    clean_data df = Ret out
    /\ get_col name out = Some (NumCol ys)
    /\ forall v, In (Some v) ys -> lo <= v <= hi.
Proof.
  intros Hnc Hnv Hget Hxs.
  assert (H0 : col_within lo hi name df) by now exists xs.
  destruct (empty df) eqn:He.
  - exists df, xs. unfold clean_data. rewrite He. auto.
  - destruct (clean_data_stages df He Hnc Hnv) as (d1 & d2 & E1 & E2 & Hout).
    assert (H3 : col_within lo hi name (sort_index d2)).
    { apply col_within_sort_index.
      apply (@col_within_clip_outliers lo hi name _ _ _ E2).
      apply (@col_within_clip_outliers lo hi name _ _ _ E1).
      rewrite fill_and_drop_eq.
      now apply col_within_dropna, col_within_fill_columns. }
    destruct H3 as (ys & Hys & Hin). exists (sort_index d2), ys. auto.
Qed.

Lemma clean_data_keeps_range_witness :
  exists out ys,
    clean_data ragged_frame = Ret out
    /\ get_col "close" out = Some (NumCol ys)
    /\ forall v, In (Some v) ys -> 2 <= v <= 40.
Proof.
  apply (@clean_data_keeps_range ragged_frame "close"
           [None; Some 2; Some 3; Some 5; Some 40] 2 40).
  - vm_compute. exact I.
  - vm_compute. exact I.
  - vm_compute. reflexivity.
  - intros v Hv. simpl in Hv.
    repeat (destruct Hv as [Hv|Hv];
            [first [discriminate Hv
                   | injection Hv as <-; split; vm_compute; discriminate]|]).
    contradiction.
Defined.
(** ** The chain of stages on an ingested series *)

Lemma has_col_names (name : string) (a b : DataFrame) :
  map fst (columns a) = map fst (columns b) -> has_col name a = has_col name b.
Proof.
  unfold has_col, get_col. generalize (columns a) (columns b).
  induction l as [|[n c] l IH]; intros [|[n' c'] l'] H; simpl in *;
    try discriminate; [reflexivity|].
  injection H as -> H. destruct (String.eqb name n'); [reflexivity | now apply IH].
Qed.

Lemma positive_bounds_exist (xs : list cell) (floor : Q) :
  (forall v, In (Some v) xs -> floor < v) ->
  exists lo hi, floor < lo /\ within lo hi xs.
Proof.
  induction xs as [|x xs IH]; intros Hpos.
  - exists (floor + 1), (floor + 1). split; [lra | intros v []].
  - destruct IH as (lo & hi & Hlo & IH); [intros v Hv; apply Hpos; now right|].
    destruct x as [q|].
    + assert (Hq : floor < q) by (apply Hpos; now left).
      destruct (Qlt_le_dec q lo) as [Hl|Hl]; destruct (Qlt_le_dec hi q) as [Hh|Hh];
        [exists q, q | exists q, hi | exists lo, q | exists lo, hi];
        (split; [assumption|]);
        (intros v [Hv|Hv];
         [injection Hv as <-; split; lra | destruct (IH v Hv); split; lra]).
    + exists lo, hi. split; [exact Hlo|].
      intros v [Hv|Hv]; [discriminate | now apply IH].
Qed.

Lemma bounds_exist (xs : list cell) : exists lo hi, within lo hi xs.
Proof.
  induction xs as [|x xs (lo & hi & IH)].
  - exists 0, 0. intros v [].
  - destruct x as [q|].
    + destruct (Qlt_le_dec q lo) as [Hl|Hl]; destruct (Qlt_le_dec hi q) as [Hh|Hh];
        [exists q, q | exists q, hi | exists lo, q | exists lo, hi];
        (intros v [Hv|Hv];
         [injection Hv as <-; split; lra | destruct (IH v Hv); split; lra]).
    + exists lo, hi. intros v [Hv|Hv]; [discriminate | now apply IH].
Qed.

(** *** A column without gaps, stage by stage *)

Lemma col_full_fill_columns (name : string) (c : column) (df : DataFrame) :
  In name ohlcv_cols -> get_col name df = Some c -> ~ col_all_na c ->
  col_full name (fill_columns df).
Proof.
  intros Hin Hget Hsome. exists (col_fill c). split.
  - rewrite fill_columns_fold, (get_col_fold_fill ohlcv_cols_NoDup).
    now rewrite (In_ohlcv_existsb Hin), Hget.
  - now apply col_fill_complete.
Qed.

Lemma col_full_clip_outliers (name col : string) (df df' : DataFrame) :
  clip_outliers col df = Ret df' -> col_full name df -> col_full name df'.
Proof.
  intros Hclip (c & Hget & Hno).
  destruct (clip_outliers_cases _ _ Hclip) as [[-> _]|(xs & Hx & ->)];
    [now exists c|].
  destruct (String.eqb_spec name col) as [->|Hne].
  - exists (NumCol (clip_values xs)). split; [apply get_set_same|].
    rewrite Hx in Hget. injection Hget as <-. simpl in *.
    now apply clip_values_all_some.
  - exists c. split; [now rewrite get_set_other | exact Hno].
Qed.

Lemma col_full_sort_index (name : string) (df : DataFrame) :
  well_formed df -> col_full name df -> col_full name (sort_index df).
Proof.
  intros Hwf (c & Hget & Hno). exists (col_take (index_positions df) c). split.
  - now rewrite get_col_sort_index, Hget.
  - apply col_take_no_na; [|exact Hno].
    rewrite (well_formed_get_col _ Hwf Hget). apply index_positions_range.
Qed.

(** *** The shape of a series through the cleaner *)

Lemma ohlcv_frame_numeric (col : string) (df : DataFrame) :
  ohlcv_frame df -> In col numeric_cols -> numeric_or_absent col df.
Proof.
  intros (_ & _ & Hnum & _) Hin. destruct (Hnum col Hin) as [xs Hx].
  unfold numeric_or_absent. now rewrite Hx.
Qed.

Lemma clean_data_shape (df : DataFrame) :
  ohlcv_frame df -> empty df = false ->
  exists d1 d2,
    clip_outliers "close" (fill_and_drop df) = Ret d1
    /\ clip_outliers "volume" d1 = Ret d2
    /\ clean_data df = Ret (sort_index d2)
    /\ well_formed d2
    /\ ohlcv_frame (sort_index d2).
Proof.
  intros Hshape He. pose proof Hshape as (Hwf & Hdate & Hnum & Hticker).
  assert (Hnc : numeric_or_absent "close" df)
    by (apply ohlcv_frame_numeric; [exact Hshape | simpl; tauto]).
  assert (Hnv : numeric_or_absent "volume" df)
    by (apply ohlcv_frame_numeric; [exact Hshape | simpl; tauto]).
  destruct (clean_data_stages df He Hnc Hnv) as (d1 & d2 & E1 & E2 & Hout).
  exists d1, d2. split; [exact E1|]. split; [exact E2|]. split; [exact Hout|].
  assert (Hw2 : well_formed d2).
  { apply (@well_formed_clip_outliers _ _ _ E2), (@well_formed_clip_outliers _ _ _ E1).
    now apply well_formed_fill_and_drop. }
  split; [exact Hw2|].
  assert (Hnames : map fst (columns (sort_index d2)) = map fst (columns df)).
  { rewrite names_sort_index, (names_clip_outliers _ _ E2), (names_clip_outliers _ _ E1).
    rewrite fill_and_drop_eq, names_dropna. apply names_fill_columns. }
  split; [apply well_formed_sort_index|]. split.
  { rewrite is_datetime_sort_index.
    rewrite (is_datetime_index_ext d2 d1 (@index_clip_outliers _ _ _ E2)).
    rewrite (is_datetime_index_ext d1 _ (@index_clip_outliers _ _ _ E1)).
    rewrite fill_and_drop_eq, is_datetime_dropna.
    rewrite (is_datetime_index_ext _ _ (index_fill_columns df)). exact Hdate. }
  split.
  - intros col Hin. destruct (Hnum col Hin) as [xs Hx].
    destruct (bounds_exist xs) as (lo & hi & Hb).
    assert (H3 : col_within lo hi col (sort_index d2)).
    { apply col_within_sort_index.
      apply (@col_within_clip_outliers lo hi col _ _ _ E2).
      apply (@col_within_clip_outliers lo hi col _ _ _ E1).
      rewrite fill_and_drop_eq.
      apply col_within_dropna, col_within_fill_columns. now exists xs. }
    destruct H3 as (ys & Hys & _). now exists ys.
  - now rewrite (has_col_names "ticker" _ _ Hnames).
Qed.

Lemma transform_data_shape (sqrtQ : Q -> Q) (df : DataFrame) :
  ohlcv_frame df ->
  exists out,
    transform_data sqrtQ df = Ret out
    /\ ohlcv_frame out
    /\ index out = index df
    /\ (forall name, In name essential_cols -> get_col name out = get_col name df)
    /\ empty out = empty df.
Proof.
  intros Hshape. pose proof Hshape as (Hwf & Hdate & Hnum & Hticker).
  destruct (empty df) eqn:He.
  - exists df. unfold transform_data. rewrite He. auto.
  - destruct (Hnum "close") as [close Hclose]; [simpl; tauto|].
    assert (Ho : numeric_or_absent "open" df)
      by (apply ohlcv_frame_numeric; [exact Hshape | simpl; tauto]).
    destruct (@transform_data_columns sqrtQ df close He Hclose Ho)
      as (out & Hout & Hix & Hw & Hoth & Hhas & _).
    assert (Hsame : forall name, In name essential_cols ->
                                 get_col name out = get_col name df).
    { intros name Hin. apply Hoth. intros Hd. simpl in Hin, Hd.
      repeat (destruct Hin as [<-|Hin];
              [repeat (destruct Hd as [Hd|Hd]; [discriminate Hd|]); contradiction|]).
      contradiction. }
    exists out. split; [exact Hout|]. split; [|split; [exact Hix|split; [exact Hsame|]]].
    + split; [now apply Hw|]. split.
      * now rewrite (is_datetime_index_ext out df Hix).
      * split; [|now apply Hhas].
        intros col Hin. rewrite Hsame; [now apply Hnum|].
        simpl in Hin. simpl. tauto.
    + eapply nonempty_of_column.
      * rewrite (Hsame "close"); [exact Hclose | simpl; tauto].
      * unfold len. rewrite Hix. now apply len_of_nonempty.
Qed.

(** X20: the shape of an ingested series (a date index, numeric open,
    high, low, close and volume, a ticker, every column as long as the
    index) is an invariant of the chain.  On such a frame [clean_data] and
    [transform_data] return, so no exception reaches the orchestrator, and
    their results have the shape again; the cleaner keeps all rows or none
    and the feature engineer keeps the rows it gets. *)
Theorem chain_keeps_shape (sqrtQ : Q -> Q) (raw : DataFrame) :
  ohlcv_frame raw ->
  exists cleaned transformed,
    clean_data raw = Ret cleaned
    /\ ohlcv_frame cleaned
    /\ (len cleaned = len raw \/ len cleaned = 0%nat)
    /\ transform_data sqrtQ cleaned = Ret transformed
    /\ ohlcv_frame transformed
    /\ index transformed = index cleaned.
Proof.
  intros Hshape.
  assert (Hclean : exists cleaned,
             clean_data raw = Ret cleaned /\ ohlcv_frame cleaned
             /\ (len cleaned = len raw \/ len cleaned = 0%nat)).
  { destruct (empty raw) eqn:He.
    - exists raw. unfold clean_data. rewrite He. auto.
    - destruct (clean_data_shape Hshape He) as (d1 & d2 & E1 & E2 & Hout & _ & Hs).
      exists (sort_index d2). split; [exact Hout|]. split; [exact Hs|].
      rewrite len_sort_index, (@len_clip_outliers _ _ _ E2), (@len_clip_outliers _ _ _ E1).
      destruct Hshape as (Hwf & _).
      destruct (fill_and_drop_all_or_none Hwf) as [[_ ->]|Hz];
        [left; apply len_fill_columns | now right]. }
  destruct Hclean as (cleaned & Hc & Hsc & Hlen).
  destruct (transform_data_shape sqrtQ Hsc) as (tr & Ht & Hst & Hix & _).
  exists cleaned, tr. auto 10.
Qed.

Lemma ohlcv_frame_zigzag : ohlcv_frame (zigzag_frame 20).
Proof.
  split; [apply well_formed_iff; vm_compute; reflexivity|].
  split; [vm_compute; reflexivity|]. split; [|vm_compute; reflexivity].
  intros col Hin. simpl in Hin.
  repeat (destruct Hin as [<-|Hin]; [eexists; vm_compute; reflexivity|]).
  contradiction.
Defined.

Lemma chain_keeps_shape_witness :
  exists cleaned transformed,
    clean_data (zigzag_frame 20) = Ret cleaned
    /\ ohlcv_frame cleaned
    /\ (len cleaned = len (zigzag_frame 20) \/ len cleaned = 0%nat)
    /\ transform_data approx_sqrt cleaned = Ret transformed
    /\ ohlcv_frame transformed
    /\ index transformed = index cleaned.
Proof.
  apply (@chain_keeps_shape approx_sqrt (zigzag_frame 20)).
  exact ohlcv_frame_zigzag.
Defined.
(** ** A series with positive closes passes the chain *)

Lemma has_value_not_all_na (xs : list cell) :
  (exists v, In (Some v) xs) -> ~ col_all_na (NumCol xs).
Proof.
  intros (v & Hv) Hna. simpl in Hna. unfold all_none in Hna.
  rewrite Forall_forall in Hna. specialize (Hna _ Hv). discriminate.
Qed.

Lemma all_some_nan_count (xs : list cell) : all_some xs -> nan_count xs = 0%nat.
Proof.
  unfold nan_count. induction 1 as [|x xs Hx _ IH]; [reflexivity|].
  simpl. rewrite Hx. exact IH.
Qed.

Lemma all_some_positive (lo hi : Q) (xs : list cell) :
  0 < lo -> within lo hi xs -> all_some xs ->
  Forall (fun x => exists q, x = Some q /\ 0 < q) xs.
Proof.
  intros Hlo Hin Hall. apply Forall_forall. intros x Hx.
  unfold all_some in Hall. rewrite Forall_forall in Hall. specialize (Hall x Hx).
  destruct x as [q|]; [|discriminate]. exists q. split; [reflexivity|].
  destruct (Hin q Hx). lra.
Qed.

(** What the cleaner returns for a series with a close and a volume. *)
Lemma clean_data_full (raw : DataFrame) (close volume : list cell) (lo hi : Q) :
  ohlcv_frame raw ->
  get_col "close" raw = Some (NumCol close) ->
  get_col "volume" raw = Some (NumCol volume) ->
  (exists v, In (Some v) close) -> within lo hi close ->
  (exists v, In (Some v) volume) ->
  exists cleaned ys vs,
    clean_data raw = Ret cleaned
    /\ ohlcv_frame cleaned
    /\ len cleaned = len raw
    /\ (0 < len raw)%nat
    /\ get_col "close" cleaned = Some (NumCol ys)
    /\ all_some ys /\ within lo hi ys
    /\ get_col "volume" cleaned = Some (NumCol vs)
    /\ all_some vs.
Proof.
  intros Hshape Hclose Hvolume Hc Hin Hv.
  pose proof Hshape as (Hwf & _).
  assert (Hlen : (0 < len raw)%nat).
  { rewrite <- (well_formed_get_col _ Hwf Hclose). simpl.
    destruct Hc as (v & Hc). destruct close; [contradiction | simpl; lia]. }
  assert (He : empty raw = false) by (eapply nonempty_of_column; eauto).
  destruct (clean_data_shape Hshape He) as (d1 & d2 & E1 & E2 & Hout & Hw2 & Hs).
  assert (Hfc : col_full "close" (fill_columns raw)).
  { apply (@col_full_fill_columns "close" (NumCol close));
      [simpl; tauto | exact Hclose | now apply has_value_not_all_na]. }
  assert (Hfv : col_full "volume" (fill_columns raw)).
  { apply (@col_full_fill_columns "volume" (NumCol volume));
      [simpl; tauto | exact Hvolume | now apply has_value_not_all_na]. }
  assert (Hfd : fill_and_drop raw = fill_columns raw).
  { rewrite fill_and_drop_eq. apply dropna_fixed.
    - now apply well_formed_fill_columns.
    - destruct Hfc as (c & Hg & Hno). exists "close", c. simpl. tauto. }
  rewrite Hfd in E1.
  assert (Hc3 : col_full "close" (sort_index d2)).
  { apply col_full_sort_index; [exact Hw2|].
    apply (@col_full_clip_outliers "close" "volume" _ _ E2).
    apply (@col_full_clip_outliers "close" "close" _ _ E1), Hfc. }
  assert (Hv3 : col_full "volume" (sort_index d2)).
  { apply col_full_sort_index; [exact Hw2|].
    apply (@col_full_clip_outliers "volume" "volume" _ _ E2).
    apply (@col_full_clip_outliers "volume" "close" _ _ E1), Hfv. }
  assert (Hr3 : col_within lo hi "close" (sort_index d2)).
  { apply col_within_sort_index.
    apply (@col_within_clip_outliers lo hi "close" _ _ _ E2).
    apply (@col_within_clip_outliers lo hi "close" _ _ _ E1).
    apply col_within_fill_columns. now exists close. }
  destruct Hr3 as (ys & Hys & Hyin).
  destruct Hc3 as (c & Hgc & Hcno). rewrite Hys in Hgc. injection Hgc as <-.
  destruct Hv3 as (cv & Hgv & Hvno).
  pose proof Hs as (_ & _ & Hnum & _).
  destruct (Hnum "volume") as [vs Hvs]; [simpl; tauto|].
  rewrite Hvs in Hgv. injection Hgv as <-.
  exists (sort_index d2), ys, vs.
  split; [exact Hout|]. split; [exact Hs|]. split.
  { rewrite len_sort_index, (@len_clip_outliers _ _ _ E2), (@len_clip_outliers _ _ _ E1).
    apply len_fill_columns. }
  auto 10.
Qed.

(** X21: a series as the ingestor returns it, with at least one close,
    every close it has strictly positive, and at least one volume, passes
    the whole chain: the cleaner keeps all its rows and leaves no gap in
    close and volume, the feature engineer keeps them, and the validator
    accepts the result, so the orchestrator stores it. *)
Theorem chain_accepts_positive_series
        (sqrtQ : Q -> Q) (raw : DataFrame) (close volume : list cell) :
  ohlcv_frame raw ->
  get_col "close" raw = Some (NumCol close) ->
  get_col "volume" raw = Some (NumCol volume) ->
  (exists v, In (Some v) close) ->
  (forall v, In (Some v) close -> 0 < v) ->
  (exists v, In (Some v) volume) ->
  exists cleaned transformed,
    clean_data raw = Ret cleaned
    /\ empty cleaned = false
    /\ transform_data sqrtQ cleaned = Ret transformed
    /\ empty transformed = false
    /\ len transformed = len raw
    /\ validate_pipeline transformed = (Ret true, transformed).
Proof.
  intros Hshape Hclose Hvolume Hc Hpos Hv.
  destruct (positive_bounds_exist close Hpos) as (lo & hi & Hlo & Hin).
  destruct (clean_data_full Hshape Hclose Hvolume Hc Hin Hv)
    as (cleaned & ys & vs & Hout & Hs & Hlen & Hn & Hys & Hyall & Hyin & Hvs & Hvall).
  assert (Hec : empty cleaned = false)
    by (eapply nonempty_of_column; [exact Hys | lia]).
  destruct (transform_data_shape sqrtQ Hs)
    as (tr & Ht & (Hwt & Hdt & Hnt & Htt) & Hix & Hsame & Het).
  assert (Hlt : len tr = len raw) by (unfold len in *; now rewrite Hix).
  exists cleaned, tr. split; [exact Hout|]. split; [exact Hec|].
  split; [exact Ht|]. split; [congruence|]. split; [exact Hlt|].
  apply (@validate_pipeline_passes tr ys vs); try assumption.
  - congruence.
  - rewrite (Hsame "close"); [exact Hys | simpl; tauto].
  - now apply (all_some_positive Hlo Hyin).
  - rewrite (Hsame "volume"); [exact Hvs | simpl; tauto].
  - apply nan_fraction_small. rewrite (all_some_nan_count Hvall). lia.
Qed.

Lemma chain_accepts_positive_series_witness :
  exists cleaned transformed,
    clean_data (zigzag_frame 20) = Ret cleaned
    /\ empty cleaned = false
    /\ transform_data approx_sqrt cleaned = Ret transformed
    /\ empty transformed = false
    /\ len transformed = len (zigzag_frame 20)
    /\ validate_pipeline transformed = (Ret true, transformed).
Proof.
  apply (@chain_accepts_positive_series approx_sqrt (zigzag_frame 20)
           (map (zigzag_price 100%Z) (seq 0 20))
           (map (fun i => Some (inject_Z (1000 + Z.of_nat i))) (seq 0 20))).
  - exact ohlcv_frame_zigzag.
  - vm_compute. reflexivity.
  - vm_compute. reflexivity.
  - exists 100. vm_compute. tauto.
  - intros v Hv. vm_compute in Hv.
    repeat (destruct Hv as [Hv|Hv]; [injection Hv as <-; reflexivity|]).
    contradiction.
  - exists 1000. vm_compute. tauto.
Defined.
(** ** Orchestrator: which tickers succeed *)

Section RunProperties.
Context {DB : Type} {sink : Sink DB}.
Variable provider : string -> string -> string -> nat -> outcome RawFrame.
Variable sqrtQ : Q -> Q.
Variable END_DATE : string.

Abbreviation passes := (chain_passes provider sqrtQ END_DATE).
Abbreviation iteration := (process_ticker provider sqrtQ END_DATE).

(** An iteration records the ticker exactly when its chain passes,
    whatever the sink then does with the frame. *)
Lemma process_ticker_passes (st : run_state) (ticker : string) :
  if passes ticker
  then exists db,
         iteration st ticker
         = {| sink_state := db;
              successful_tickers := successful_tickers st ++ [ticker];
              store_calls := store_calls st ++ [ticker] |}
  else iteration st ticker = st.
Proof.
  unfold chain_passes, ingested, process_ticker, process_ticker_body.
  destruct (fst (ingest_data provider ticker START_DATE END_DATE 3)) as [raw|e];
    simpl; [|reflexivity].
  destruct (empty raw); simpl; [reflexivity|].
  destruct (clean_data raw) as [cleaned|e]; simpl; [|reflexivity].
  destruct (empty cleaned); simpl; [reflexivity|].
  destruct (transform_data sqrtQ cleaned) as [tr|e]; simpl; [|reflexivity].
  destruct (empty tr); simpl; [reflexivity|].
  destruct (validate_pipeline tr) as [[[|]|e] tr']; simpl; try reflexivity.
  destruct (store_data tr' DB_NAME TABLE_NAME (sink_state st)) as [df' db'].
  now exists db'.
Qed.

Lemma fold_process_ticker (tickers : list string) :
  forall st,
    successful_tickers (fold_left iteration tickers st)
    = successful_tickers st ++ filter passes tickers
    /\ store_calls (fold_left iteration tickers st)
       = store_calls st ++ filter passes tickers.
Proof.
  induction tickers as [|t tickers IH]; intros st; simpl.
  - now rewrite !app_nil_r.
  - pose proof (process_ticker_passes st t) as Hstep.
    destruct (passes t).
    + destruct Hstep as (db & ->). destruct (IH
        {| sink_state := db;
           successful_tickers := successful_tickers st ++ [t];
           store_calls := store_calls st ++ [t] |}) as [H1 H2].
      rewrite H1, H2. simpl. now rewrite <- !app_assoc.
    + rewrite Hstep. apply IH.
Qed.

Lemma name_in_filter (f : string -> bool) (t : string) (tickers : list string) :
  In t tickers -> name_in t (filter f tickers) = f t.
Proof.
  intros Hin. unfold name_in. destruct (f t) eqn:E.
  - apply existsb_exists. exists t. split; [|apply String.eqb_refl].
    apply filter_In. now split.
  - destruct (existsb (String.eqb t) (filter f tickers)) eqn:Ex; [|reflexivity].
    apply existsb_exists in Ex. destruct Ex as (x & Hx & Heq).
    apply String.eqb_eq in Heq. subst x. apply filter_In in Hx.
    destruct Hx as [_ Hx]. congruence.
Qed.

(** X22: a run ends in one of two ways.  When the old database file
    exists and its removal raises, the run ends with that error before any
    ticker is processed, and nothing is stored.  Otherwise it returns its
    summary: the successful tickers are the tickers whose chain passes, in
    the order of the ticker list, [store_data] is called for exactly these,
    and the failed tickers are the others.  Which tickers succeed does not
    depend on what the sink does with a connection, a write or a query (a
    ticker counts as successful even when its write failed), nor on the
    other tickers. *)
Theorem run_pipeline_successes (tickers : list string) (db : DB) :
  match fst (run_pipeline provider sqrtQ END_DATE tickers db) with
  | Ret summary =>
      (path_exists DB_NAME db = false \/ fst (remove DB_NAME db) = Ret tt)
      /\ succeeded summary = filter passes tickers
      /\ failed summary = filter (fun t => negb (passes t)) tickers
      /\ store_calls (snd (run_pipeline provider sqrtQ END_DATE tickers db))
         = filter passes tickers
      /\ (filter passes tickers = [] -> sample summary = None)
  | Raise e =>
      path_exists DB_NAME db = true
      /\ fst (remove DB_NAME db) = Raise e
      /\ successful_tickers (snd (run_pipeline provider sqrtQ END_DATE tickers db)) = []
      /\ store_calls (snd (run_pipeline provider sqrtQ END_DATE tickers db)) = []
  end.
Proof.
  assert (Hloop : forall db0 : DB,
    let st0 := {| sink_state := db0; successful_tickers := []; store_calls := [] |} in
    let st := fold_left iteration tickers st0 in
    successful_tickers st = filter passes tickers
    /\ store_calls st = filter passes tickers
    /\ filter (fun t => negb (name_in t (successful_tickers st))) tickers
       = filter (fun t => negb (passes t)) tickers).
  { intros db0 st0 st.
    destruct (fold_process_ticker tickers st0) as [Hs Hc]. simpl in Hs, Hc.
    fold st in Hs, Hc. split; [exact Hs|]. split; [exact Hc|].
    apply filter_ext_in. intros t Hin. rewrite Hs. now rewrite name_in_filter. }
  assert (Hrest : forall db0 : DB,
    let st0 := {| sink_state := db0; successful_tickers := []; store_calls := [] |} in
    let st := fold_left iteration tickers st0 in
    let result :=
      match successful_tickers st with
      | [] =>
          (Ret {| succeeded := successful_tickers st;
                  failed := filter (fun t => negb (name_in t (successful_tickers st)))
                                   tickers;
                  sample := None |}, st)
      | sample_ticker :: _ =>
          if path_exists DB_NAME (sink_state st)
          then
            let (sample_data, db1) :=
              retrieve_data DB_NAME TABLE_NAME (Some sample_ticker) None None
                            (sink_state st) in
            (Ret {| succeeded := successful_tickers st;
                    failed := filter (fun t => negb (name_in t (successful_tickers st)))
                                     tickers;
                    sample := Some sample_data |},
             {| sink_state := db1;
                successful_tickers := successful_tickers st;
                store_calls := store_calls st |})
          else
            (Ret {| succeeded := successful_tickers st;
                    failed := filter (fun t => negb (name_in t (successful_tickers st)))
                                     tickers;
                    sample := None |}, st)
      end in
    exists summary,
      fst result = Ret summary
      /\ succeeded summary = filter passes tickers
      /\ failed summary = filter (fun t => negb (passes t)) tickers
      /\ store_calls (snd result) = filter passes tickers
      /\ (filter passes tickers = [] -> sample summary = None)).
  { intros db0 st0 st. destruct (Hloop db0) as (Hs & Hc & Hf).
    fold st0 in Hs, Hc, Hf. fold st in Hs, Hc, Hf. rewrite Hf.
    destruct (successful_tickers st) as [|sample_ticker rest] eqn:E.
    - eexists. split; [reflexivity|]. simpl. rewrite Hc, <- Hs. auto.
    - destruct (path_exists DB_NAME (sink_state st)).
      + destruct (retrieve_data DB_NAME TABLE_NAME (Some sample_ticker) None None
                    (sink_state st)) as [sample_data db1].
        eexists. split; [reflexivity|]. simpl. rewrite Hc, <- Hs.
        repeat split. intros H. discriminate H.
      + eexists. split; [reflexivity|]. simpl. rewrite Hc, <- Hs. auto. }
  unfold run_pipeline.
  destruct (path_exists DB_NAME db) eqn:Hp.
  - destruct (remove DB_NAME db) as [[[]|e] db0] eqn:Hr; [|simpl; auto].
    destruct (Hrest db0) as (summary & Hret & Hprops). cbv zeta in Hret, Hprops.
    rewrite Hret. split; [now right | exact Hprops].
  - destruct (Hrest db) as (summary & Hret & Hprops). cbv zeta in Hret, Hprops.
    rewrite Hret. split; [now left | exact Hprops].
Qed.

End RunProperties.
(** ** Orchestrator: the handler of the loop body *)

Lemma missing_cols_nil (names : list string) :
  missing_cols names = [] ->
  forall col, In col required_ohlcv_cols -> name_in col names = true.
Proof.
  unfold missing_cols. intros H col Hin.
  destruct (name_in col names) eqn:E; [reflexivity|].
  assert (Hf : In col (filter (fun c => negb (name_in c names)) required_ohlcv_cols))
    by (apply filter_In; split; [exact Hin | now rewrite E]).
  rewrite H in Hf. contradiction.
Qed.

(** An attempt that returns gives the empty frame or a series of the
    shape the later stages expect. *)
Lemma ingest_attempt_shape (ticker : string) (rf : RawFrame) (df : DataFrame) :
  raw_well_formed rf ->
  ingest_attempt ticker rf = Ret df ->
  df = empty_frame \/ ohlcv_frame df.
Proof.
  intros [Hcols Hrows] H. unfold ingest_attempt in H.
  destruct (raw_empty rf); [injection H as <-; now left|].
  destruct (normalized_columns rf) as [names|e] eqn:Hnames; [|discriminate H].
  cbn [obind] in H.
  destruct (missing_cols names) as [|m ms] eqn:Hmiss; [|injection H as <-; now left].
  destruct (existsb (fun col => (1 <? occurrences col names)%nat) required_ohlcv_cols);
    [discriminate H|].
  injection H as <-. right.
  assert (Hlen : forall col, In col required_ohlcv_cols ->
                   length (to_numeric (raw_column col names (raw_data rf)))
                   = length (raw_index rf)).
  { intros col Hin. rewrite length_to_numeric.
    rewrite Forall_forall in Hrows. apply Hrows.
    apply raw_column_In; [now apply (missing_cols_nil _ Hmiss)|].
    unfold normalized_columns in Hnames.
    rewrite (length_normalize_labels _ Hnames), length_level0. exact Hcols. }
  split; [|split; [reflexivity|split; [|reflexivity]]].
  - unfold well_formed, len. simpl.
    repeat (constructor; [simpl; first [apply Hlen; simpl; tauto | apply repeat_length]|]).
    constructor.
  - intros col Hin. simpl in Hin.
    repeat (destruct Hin as [<-|Hin]; [eexists; reflexivity|]). contradiction.
Qed.

Lemma ingest_data_shape
      (provider : string -> string -> string -> nat -> outcome RawFrame)
      (ticker start end_ : string) (retry_count : nat) :
  (forall attempt rf, provider ticker start end_ attempt = Ret rf -> raw_well_formed rf) ->
  exists df,
    fst (ingest_data provider ticker start end_ retry_count) = Ret df
    /\ (df = empty_frame \/ ohlcv_frame df).
Proof.
  intros Hwf.
  destruct (@ingest_attempts_trace provider ticker start end_ retry_count
              retry_count 0%nat eq_refl)
    as (k & df & _ & Hrun & _ & Hend).
  exists df. unfold ingest_data. rewrite Hrun. split; [reflexivity|].
  destruct Hend as [[_ Hret]|(_ & -> & _)]; [|now left].
  unfold attempt_outcome in Hret.
  destruct (provider ticker start end_ (0 + k - 1)%nat) as [rf|e] eqn:Hp;
    [|discriminate Hret].
  simpl in Hret. apply (ingest_attempt_shape ticker (Hwf _ _ Hp) Hret).
Qed.

Lemma validate_pipeline_returns (df : DataFrame) :
  exists b df', validate_pipeline df = (Ret b, df').
Proof.
  unfold validate_pipeline.
  destruct (validate_checks df) as [[[]|[]] df']; eauto.
Qed.

Section Handler.
Context {DB : Type} {sink : Sink DB}.
Variable provider : string -> string -> string -> nat -> outcome RawFrame.
Variable sqrtQ : Q -> Q.
Variable END_DATE : string.

(** X23: when the tables the provider answers for a ticker are
    rectangular (as many columns as labels, each as long as the index),
    the body of the orchestrator's [try] block never raises for that
    ticker: the [except] branch of the loop is not entered, and a ticker
    fails only through one of the four explicit skips. *)
Theorem process_ticker_body_never_raises (ticker : string) (st : run_state) :
  (forall attempt rf,
      provider ticker START_DATE END_DATE attempt = Ret rf -> raw_well_formed rf) ->
  exists st',
    process_ticker_body provider sqrtQ END_DATE ticker st = Ret st'
    /\ process_ticker provider sqrtQ END_DATE st ticker = st'.
Proof.
  intros Hwf.
  assert (Hbody : exists st',
             process_ticker_body provider sqrtQ END_DATE ticker st = Ret st').
  { unfold process_ticker_body.
    destruct (ingest_data_shape provider ticker START_DATE END_DATE 3 Hwf)
      as (raw & -> & Hraw).
    cbn [obind].
    destruct Hraw as [->|Hshape]; [simpl; eauto|].
    destruct (empty raw) eqn:He; [eauto|].
    destruct (clean_data_shape Hshape He) as (d1 & d2 & _ & _ & -> & _ & Hs).
    cbn [obind].
    destruct (empty (sort_index d2)); [eauto|].
    destruct (transform_data_shape sqrtQ Hs) as (tr & -> & _).
    cbn [obind].
    destruct (empty tr); [eauto|].
    destruct (validate_pipeline_returns tr) as (b & tr' & ->).
    cbn [obind].
    destruct b; cbn [negb]; [|eauto].
    destruct (store_data tr' DB_NAME TABLE_NAME (sink_state st)) as [df' db'].
    eauto. }
  destruct Hbody as (st' & Hst). exists st'. split; [exact Hst|].
  unfold process_ticker. now rewrite Hst.
Qed.

End Handler.

Lemma process_ticker_body_never_raises_witness :
  exists st',
    process_ticker_body (sink := memory_sink) mixed_provider approx_sqrt "2024-01-05" "KO"
      {| sink_state := []; successful_tickers := []; store_calls := [] |} = Ret st'
    /\ process_ticker (sink := memory_sink) mixed_provider approx_sqrt "2024-01-05"
         {| sink_state := []; successful_tickers := []; store_calls := [] |} "KO" = st'.
Proof.
  apply (@process_ticker_body_never_raises _ memory_sink mixed_provider approx_sqrt
           "2024-01-05" "KO").
  intros attempt rf H. vm_compute in H. injection H as <-.
  split; [reflexivity|]. repeat constructor.
Defined.
(** ** Feature engineer: the Bollinger bands *)

Lemma approx_sqrt_nonneg (q : Q) : 0 <= approx_sqrt q.
Proof.
  unfold approx_sqrt. destruct (Qle_bool q 0) eqn:E; [apply Qle_refl|].
  assert (Hq : 0 < q).
  { destruct (Qlt_le_dec 0 q) as [H|H]; [exact H|].
    apply Qle_bool_iff in H. congruence. }
  assert (Hfold : forall (l : list nat) x, 0 < x ->
            0 < fold_left (fun x _ => Qred ((x + q / x) / 2)) l x).
  { induction l as [|a l IH]; intros x Hx; cbn [fold_left]; [exact Hx|].
    apply IH.
    assert (Hd : 0 < q / x) by (apply Qlt_shift_div_l; lra).
    assert (Ht : 0 < (x + q / x) / 2) by (apply Qlt_shift_div_l; lra).
    eapply Qlt_le_trans; [exact Ht|].
    apply Qle_lteq. right. symmetry. apply Qred_correct. }
  apply Qlt_le_weak, Hfold.
  eapply Qlt_le_trans; [exact Hq|].
  apply Qle_lteq. right. symmetry. apply Qred_correct.
Qed.

Section Bands.
Variable sqrtQ : Q -> Q.
Hypothesis sqrtQ_nonneg : forall q, 0 <= sqrtQ q.

Lemma std_nonneg (xs : list cell) (s : Q) : std sqrtQ xs = Some s -> 0 <= s.
Proof.
  unfold std. destruct (length (valid xs) <? 2)%nat; [discriminate|].
  intros [= <-]. apply sqrtQ_nonneg.
Qed.

Lemma rolling_std_nonneg (w : nat) (xs : list cell) (i : nat) (s : Q) :
  nth i (rolling w (std sqrtQ) xs) None = Some s -> 0 <= s.
Proof.
  intros H. destruct (Nat.lt_ge_cases i (length xs)) as [Hi|Hi].
  - rewrite nth_rolling in H by exact Hi. now apply std_nonneg in H.
  - rewrite nth_overflow in H by (now rewrite length_rolling). discriminate H.
Qed.

Lemma nth_zip_with_some (f : Q -> Q -> Q) (xs ys : list cell) (i : nat) (v : Q) :
  nth i (zip_with (cell_map2 f) xs ys) None = Some v ->
  exists a b, nth i xs None = Some a /\ nth i ys None = Some b /\ v = f a b.
Proof.
  intros H.
  destruct (Nat.lt_ge_cases i (Nat.min (length xs) (length ys))) as [Hi|Hi].
  - rewrite (nth_zip_with (cell_map2 f) None None) in H by lia.
    destruct (nth i xs None) as [a|]; [|discriminate H].
    destruct (nth i ys None) as [b|]; [|discriminate H].
    injection H as <-. eauto.
  - rewrite nth_overflow in H by (now rewrite length_zip_with). discriminate H.
Qed.

Lemma nth_doubled (xs : list cell) (i : nat) (b : Q) :
  nth i (map (fun x => cell_mul x (Some 2)) xs) None = Some b ->
  exists s, nth i xs None = Some s /\ b = s * 2.
Proof.
  intros H. destruct (Nat.lt_ge_cases i (length xs)) as [Hi|Hi].
  - rewrite (nth_map_in _ None) in H by exact Hi.
    destruct (nth i xs None) as [s|]; [|discriminate H].
    injection H as <-. eauto.
  - rewrite nth_overflow in H by (now rewrite length_map). discriminate H.
Qed.

(** X24: with a square root that is never negative, the Bollinger bands
    bracket the middle band: wherever BB_Upper or BB_Lower has a value, it
    is the middle band plus or minus twice the deviation of that row, the
    deviation is not negative, and so BB_Lower <= BB_Middle <= BB_Upper. *)
Theorem transform_data_bands_bracket (df : DataFrame) (close : list cell) :
  get_col "close" df = Some (NumCol close) ->
  numeric_or_absent "open" df ->
  (20 <= len df)%nat ->
  exists out middle upper lower,
    transform_data sqrtQ df = Ret out
    /\ get_col "BB_Middle" out = Some (NumCol middle)
    /\ get_col "BB_Upper" out = Some (NumCol upper)
    /\ get_col "BB_Lower" out = Some (NumCol lower)
    /\ (forall i u, nth i upper None = Some u ->
          exists m l, nth i middle None = Some m /\ nth i lower None = Some l
                      /\ l <= m <= u /\ u - m == m - l)
    /\ (forall i l, nth i lower None = Some l ->
          exists m u, nth i middle None = Some m /\ nth i upper None = Some u
                      /\ l <= m <= u).
Proof.
  intros Hclose Ho Hlen.
  assert (He : empty df = false) by (eapply nonempty_of_column; [exact Hclose | lia]).
  destruct (@transform_data_columns sqrtQ df _ He Hclose Ho)
    as (out & Hout & _ & _ & _ & _ & _ & _ & H20 & _).
  destruct (H20 Hlen) as (Hmid & Hsd & Hup & Hlow & _).
  set (middle := rolling 20 mean close) in *.
  set (band := map (fun x => cell_mul x (Some 2)) (rolling 20 (std sqrtQ) close)) in *.
  assert (Hlm : length band = length middle)
    by (unfold band, middle; now rewrite length_map, !length_rolling).
  assert (Hband : forall i m b,
             nth i middle None = Some m -> nth i band None = Some b ->
             nth i (zip_with cell_add middle band) None = Some (m + b)
             /\ nth i (zip_with cell_sub middle band) None = Some (m - b)
             /\ 0 <= b).
  { intros i m b Hm Hb.
    assert (Hi : (i < length middle)%nat).
    { destruct (Nat.lt_ge_cases i (length middle)) as [H|H]; [exact H|].
      rewrite nth_overflow in Hm by exact H. discriminate Hm. }
    rewrite (nth_zip_with cell_add None None) by lia.
    rewrite (nth_zip_with cell_sub None None) by lia.
    rewrite Hm, Hb. split; [reflexivity|]. split; [reflexivity|].
    destruct (nth_doubled _ _ Hb) as (s & Hs & ->).
    apply rolling_std_nonneg in Hs. lra. }
  exists out, middle, (zip_with cell_add middle band), (zip_with cell_sub middle band).
  split; [exact Hout|]. split; [exact Hmid|]. split; [exact Hup|].
  split; [exact Hlow|]. split.
  - intros i u Hu. destruct (nth_zip_with_some _ _ _ _ Hu) as (m & b & Hm & Hb & ->).
    destruct (Hband i m b Hm Hb) as (_ & Hl & Hpos).
    exists m, (m - b). split; [exact Hm|]. split; [exact Hl|]. split; [split; lra | ring].
  - intros i l Hl. destruct (nth_zip_with_some _ _ _ _ Hl) as (m & b & Hm & Hb & ->).
    destruct (Hband i m b Hm Hb) as (Hu & _ & Hpos).
    exists m, (m + b). split; [exact Hm|]. split; [exact Hu|]. split; lra.
Qed.

End Bands.

Lemma transform_data_bands_bracket_witness :
  exists out middle upper lower,
    transform_data approx_sqrt (zigzag_frame 20) = Ret out
    /\ get_col "BB_Middle" out = Some (NumCol middle)
    /\ get_col "BB_Upper" out = Some (NumCol upper)
    /\ get_col "BB_Lower" out = Some (NumCol lower)
    /\ (forall i u, nth i upper None = Some u ->
          exists m l, nth i middle None = Some m /\ nth i lower None = Some l
                      /\ l <= m <= u /\ u - m == m - l)
    /\ (forall i l, nth i lower None = Some l ->
          exists m u, nth i middle None = Some m /\ nth i upper None = Some u
                      /\ l <= m <= u).
Proof.
  apply (@transform_data_bands_bracket approx_sqrt approx_sqrt_nonneg (zigzag_frame 20)
           (map (zigzag_price 100%Z) (seq 0 20))).
  - vm_compute. reflexivity.
  - vm_compute. exact I.
  - vm_compute. lia.
Defined.
(** ** Orchestrator: isolation of the tickers *)

(** What an attempt returns has numeric price and volume columns, or none. *)
Lemma ingest_attempt_numeric (ticker : string) (rf : RawFrame) (df : DataFrame) :
  ingest_attempt ticker rf = Ret df ->
  forall col, In col numeric_cols -> numeric_or_absent col df.
Proof.
  intros H col Hin. unfold ingest_attempt in H.
  destruct (raw_empty rf); [injection H as <-; exact I|].
  destruct (normalized_columns rf) as [names|e]; [|discriminate H].
  cbn [obind] in H.
  destruct (missing_cols names) as [|m ms]; [|injection H as <-; exact I].
  destruct (existsb (fun c => (1 <? occurrences c names)%nat) required_ohlcv_cols);
    [discriminate H|].
  injection H as <-. simpl in Hin.
  repeat (destruct Hin as [<-|Hin]; [exact I|]). contradiction.
Qed.

Lemma ingest_data_numeric
      (provider : string -> string -> string -> nat -> outcome RawFrame)
      (ticker start end_ : string) (retry_count : nat) :
  exists df,
    fst (ingest_data provider ticker start end_ retry_count) = Ret df
    /\ forall col, In col numeric_cols -> numeric_or_absent col df.
Proof.
  destruct (@ingest_attempts_trace provider ticker start end_ retry_count
              retry_count 0%nat eq_refl)
    as (k & df & _ & Hrun & _ & Hend).
  exists df. unfold ingest_data. rewrite Hrun. split; [reflexivity|].
  destruct Hend as [[_ Hret]|(_ & -> & _)]; [|intros col _; exact I].
  unfold attempt_outcome in Hret.
  destruct (provider ticker start end_ (0 + k - 1)%nat) as [rf|e];
    [|discriminate Hret].
  simpl in Hret. apply (ingest_attempt_numeric _ _ Hret).
Qed.

(** The cleaner returns on numeric columns, and keeps them numeric. *)
Lemma clean_data_numeric (raw : DataFrame) :
  (forall col, In col numeric_cols -> numeric_or_absent col raw) ->
  exists cleaned,
    clean_data raw = Ret cleaned
    /\ forall col, In col numeric_cols -> numeric_or_absent col cleaned.
Proof.
  intros Hnum. destruct (empty raw) eqn:He.
  - exists raw. unfold clean_data. rewrite He. auto.
  - assert (Hnc : numeric_or_absent "close" raw) by (apply Hnum; simpl; tauto).
    assert (Hnv : numeric_or_absent "volume" raw) by (apply Hnum; simpl; tauto).
    destruct (clean_data_stages raw He Hnc Hnv) as (d1 & d2 & E1 & E2 & Hout).
    exists (sort_index d2). split; [exact Hout|].
    intros col Hin. apply numeric_sort_index.
    apply (@numeric_clip_outliers _ _ _ E2), (@numeric_clip_outliers _ _ _ E1).
    apply numeric_fill_and_drop. now apply Hnum.
Qed.

(** The feature engineer returns on a numeric close and open. *)
Lemma transform_data_returns (sqrtQ : Q -> Q) (df : DataFrame) :
  numeric_or_absent "close" df -> numeric_or_absent "open" df ->
  exists out, transform_data sqrtQ df = Ret out.
Proof.
  intros Hc Ho. destruct (empty df) eqn:He.
  - exists df. unfold transform_data. now rewrite He.
  - destruct (has_col "close" df) eqn:Hh.
    + destruct (@numeric_present _ _ Hh Hc) as [close Hclose].
      destruct (@transform_data_columns sqrtQ df close He Hclose Ho) as (out & Hout & _).
      now exists out.
    + exists df. unfold transform_data. now rewrite He, Hh.
Qed.

Section Isolation.
Context {DB : Type} {sink : Sink DB}.
Variable provider : string -> string -> string -> nat -> outcome RawFrame.
Variable sqrtQ : Q -> Q.
Variable END_DATE : string.

Abbreviation try_body := (process_ticker_body provider sqrtQ END_DATE).
Abbreviation loop_step := (process_ticker provider sqrtQ END_DATE).
Abbreviation run := (run_pipeline provider sqrtQ END_DATE).

(** No stage raises, whatever the provider answers: the body of the
    [try] block returns for every ticker. *)
Lemma process_ticker_body_returns (ticker : string) (st : run_state) :
  exists st', try_body ticker st = Ret st' /\ loop_step st ticker = st'.
Proof.
  assert (Hbody : exists st', try_body ticker st = Ret st').
  { unfold process_ticker_body.
    destruct (ingest_data_numeric provider ticker START_DATE END_DATE 3)
      as (raw & -> & Hraw).
    cbn [obind]. destruct (empty raw); [eauto|].
    destruct (@clean_data_numeric raw Hraw) as (cleaned & -> & Hcl).
    cbn [obind]. destruct (empty cleaned); [eauto|].
    destruct (@transform_data_returns sqrtQ cleaned) as (tr & ->);
      [apply Hcl; simpl; tauto | apply Hcl; simpl; tauto |].
    cbn [obind]. destruct (empty tr); [eauto|].
    destruct (validate_pipeline_returns tr) as (b & tr' & ->).
    cbn [obind]. destruct b; cbn [negb]; [|eauto].
    destruct (store_data tr' DB_NAME TABLE_NAME (sink_state st)) as [df' db'].
    eauto. }
  destruct Hbody as (st' & Hst). exists st'. split; [exact Hst|].
  unfold process_ticker. now rewrite Hst.
Qed.

(** C8: a ticker whose chain returns an empty series at some stage, or a
    false validation, is skipped: its iteration leaves the run state, the
    sink with it, as it was, so [store_data] is not called for it and the
    loop goes on with the next ticker; it is not among the successful
    tickers but among the failed ones.  No iteration raises: with the
    errors the embedding has, the body of the [try] block returns for
    every ticker and every provider, and the handler would hand back the
    state unchanged otherwise.  The one error a run can end with is that
    of the removal of the old database file, before the first ticker. *)
Theorem run_pipeline_isolation (tickers : list string) (db : DB) (ticker : string) :
  In ticker tickers ->
  stage_skips provider sqrtQ END_DATE ticker ->
  (forall st, loop_step st ticker = st)
  /\ (forall t st, exists st', try_body t st = Ret st' /\ loop_step st t = st')
  /\ (forall st,
        ~ In ticker (successful_tickers st) -> ~ In ticker (store_calls st) ->
        ~ In ticker (successful_tickers (fold_left loop_step tickers st))
        /\ ~ In ticker (store_calls (fold_left loop_step tickers st)))
  /\ match fst (run tickers db) with
     | Ret summary =>
         succeeded summary = successful_tickers (snd (run tickers db))
         /\ ~ In ticker (succeeded summary)
         /\ In ticker (failed summary)
         /\ ~ In ticker (store_calls (snd (run tickers db)))
     | Raise e =>
         path_exists DB_NAME db = true
         /\ fst (remove DB_NAME db) = Raise e
         /\ successful_tickers (snd (run tickers db)) = []
         /\ store_calls (snd (run tickers db)) = []
     end.
Proof.
  intros Hin Hstop.
  assert (Hskip : forall st, loop_step st ticker = st)
    by (apply process_ticker_skip; now left).
  split; [exact Hskip|].
  split; [intros t st; apply process_ticker_body_returns|].
  split; [intros st; now apply fold_process_ticker_absent|].
  unfold run_pipeline.
  destruct (path_exists DB_NAME db) eqn:Hp.
  - destruct (remove DB_NAME db) as [[[]|e] db0] eqn:Hr; [|simpl; auto].
    set (st0 := {| sink_state := db0; successful_tickers := []; store_calls := [] |}).
    destruct (@fold_process_ticker_absent _ _ provider sqrtQ END_DATE ticker Hskip
                tickers st0) as [Hs Hc]; [simpl; tauto | simpl; tauto |].
    set (st := fold_left loop_step tickers st0) in *.
    assert (Hfailed : In ticker (filter (fun t => negb (name_in t (successful_tickers st)))
                                        tickers)).
    { apply filter_In. split; [exact Hin|]. apply negb_true_iff.
      destruct (name_in ticker (successful_tickers st)) eqn:E; [|reflexivity].
      apply In_name_in in E. contradiction. }
    destruct (successful_tickers st) as [|sample_ticker rest] eqn:Es.
    + simpl. rewrite Es. repeat split; auto.
    + destruct (path_exists DB_NAME (sink_state st)).
      * destruct (retrieve_data DB_NAME TABLE_NAME (Some sample_ticker) None None
                                (sink_state st)) as [sample_data db'].
        simpl. repeat split; auto.
      * simpl. rewrite Es. repeat split; auto.
  - set (st0 := {| sink_state := db; successful_tickers := []; store_calls := [] |}).
    destruct (@fold_process_ticker_absent _ _ provider sqrtQ END_DATE ticker Hskip
                tickers st0) as [Hs Hc]; [simpl; tauto | simpl; tauto |].
    set (st := fold_left loop_step tickers st0) in *.
    assert (Hfailed : In ticker (filter (fun t => negb (name_in t (successful_tickers st)))
                                        tickers)).
    { apply filter_In. split; [exact Hin|]. apply negb_true_iff.
      destruct (name_in ticker (successful_tickers st)) eqn:E; [|reflexivity].
      apply In_name_in in E. contradiction. }
    destruct (successful_tickers st) as [|sample_ticker rest] eqn:Es.
    + simpl. rewrite Es. repeat split; auto.
    + destruct (path_exists DB_NAME (sink_state st)).
      * destruct (retrieve_data DB_NAME TABLE_NAME (Some sample_ticker) None None
                                (sink_state st)) as [sample_data db'].
        simpl. repeat split; auto.
      * simpl. rewrite Es. repeat split; auto.
Qed.

End Isolation.

Lemma run_pipeline_isolation_witness :
  (forall st, process_ticker (sink := memory_sink) mixed_provider approx_sqrt
                "2024-01-05" st "AAPL" = st)
  /\ exists summary,
       fst (run_pipeline mixed_provider approx_sqrt "2024-01-05" ["AAPL"; "MSFT"; "KO"]
                         ([] : list (string * DataFrame))) = Ret summary
       /\ ~ In "AAPL" (succeeded summary)
       /\ In "AAPL" (failed summary)
       /\ ~ In "AAPL" (store_calls
                         (snd (run_pipeline mixed_provider approx_sqrt "2024-01-05"
                                            ["AAPL"; "MSFT"; "KO"]
                                            ([] : list (string * DataFrame))))).
Proof.
  destruct (@run_pipeline_isolation _ memory_sink mixed_provider approx_sqrt
              "2024-01-05" ["AAPL"; "MSFT"; "KO"] [] "AAPL")
    as (Hstep & _ & _ & Hrun).
  - simpl. tauto.
  - left. exists empty_frame. split; reflexivity.
  - split; [exact Hstep|].
    destruct (fst (run_pipeline mixed_provider approx_sqrt "2024-01-05"
                                ["AAPL"; "MSFT"; "KO"] ([] : list (string * DataFrame))))
      as [summary|e].
    + exists summary. destruct Hrun as (_ & Hok & Hfailed & Hcalls). auto.
    + destruct Hrun as (Hp & _). discriminate Hp.
Defined.

(** A run over a database file that cannot be removed ends with the error
    of the removal, and no ticker is processed. *)
Lemma run_pipeline_removal_raises :
  run_pipeline (sink := locked_sink) mixed_provider approx_sqrt "2024-01-05"
               ["AAPL"; "MSFT"; "KO"] tt
  = (Raise OSError, {| sink_state := tt; successful_tickers := []; store_calls := [] |}).
Proof. reflexivity. Qed.
